(** * E-mail fetch service: normalisation and de-duplication core

    A shallow embedding of [app/utils.py], [app/parser.py] and
    [app/state.py].  Python [str] values are sequences of Unicode code
    points; files, the lock and the clock of [StateStore] live in an
    explicit world that is threaded through a small state-and-exception
    monad. *)

From Stdlib Require Import String Ascii NArith ZArith List Bool Lia.
From stdpp Require Import base tactics option list sorting gmap.

Local Open Scope N_scope.
Local Open Scope list_scope.

(** ** Python strings *)

Module Py.

(** A [str] is a list of code points. *)
Definition char := N.
Definition str := list char.

(** Reads a string literal of this file (UTF-8 bytes) as code points. *)
Fixpoint utf8_go (s : string) (need : nat) (acc : N) : str :=
  match s with
  | EmptyString => []
  | String a t =>
      let b := N_of_ascii a in
      match need with
      | O =>
          if b <? 128 then b :: utf8_go t 0 0
          else if b <? 224 then utf8_go t 1 (b mod 32)
          else if b <? 240 then utf8_go t 2 (b mod 16)
          else utf8_go t 3 (b mod 8)
      | S O => (acc * 64 + b mod 64) :: utf8_go t 0 0
      | S k => utf8_go t k (acc * 64 + b mod 64)
      end
  end.

Definition U (s : string) : str := utf8_go s 0 0.

Definition NL : char := 10.
Definition CR : char := 13.
Definition GT : char := 62.

(** [str.isspace] on one code point; the same set is what [\s] matches in
    a [str] pattern and what [strip] removes. *)
Definition isspace (c : char) : bool :=
  ((9 <=? c) && (c <=? 13)) || ((28 <=? c) && (c <=? 32))
  || (c =? 133) || (c =? 160) || (c =? 5760)
  || ((8192 <=? c) && (c <=? 8202))
  || (c =? 8232) || (c =? 8233) || (c =? 8239) || (c =? 8287) || (c =? 12288).

Fixpoint lstrip (s : str) : str :=
  match s with
  | [] => []
  | c :: t => if isspace c then lstrip t else s
  end.

Definition rstrip (s : str) : str := rev (lstrip (rev s)).

Definition strip (s : str) : str := rstrip (lstrip s).

(** [s.startswith(p)] *)
Fixpoint startswith (s p : str) : bool :=
  match p, s with
  | [], _ => true
  | _ :: _, [] => false
  | a :: p', b :: s' => (a =? b) && startswith s' p'
  end.

(** [s.split("\n")]: always at least one piece. *)
Fixpoint split_nl (s : str) : list str :=
  match s with
  | [] => [[]]
  | c :: t =>
      if c =? NL then [] :: split_nl t
      else match split_nl t with
           | l :: ls => (c :: l) :: ls
           | [] => [[c]]
           end
  end.

(** ["\n".join(ls)] *)
Fixpoint join_nl (ls : list str) : str :=
  match ls with
  | [] => []
  | [l] => l
  | l :: ls' => l ++ NL :: join_nl ls'
  end.

(** [s.replace(old, new)] for a non-empty [old]: leftmost occurrences,
    not overlapping.  The fuel is the length of [s]. *)
Fixpoint replace_go (fuel : nat) (old new s : str) : str :=
  match fuel with
  | O => s
  | S fuel' =>
      match s with
      | [] => []
      | c :: t =>
          if startswith s old
          then new ++ replace_go fuel' old new (skipn (length old) s)
          else c :: replace_go fuel' old new t
      end
  end.

Definition replace (old new s : str) : str := replace_go (length s) old new s.

(** Truthiness of a [str]. *)
Definition truthy (s : str) : bool :=
  match s with [] => false | _ => true end.

End Py.

(** ** Regular expressions

    The patterns of the source are [re] patterns over [str].  A pattern is
    a syntax tree; matching walks a cursor over the text and returns, in
    the order in which a backtracking matcher tries them, every place
    where the match can end. *)

Module Re.
Import Py.

(** Where [\w] holds: [str.isalnum] or an underscore (Unicode 14, the
    table of the interpreter's [re] module), as inclusive ranges. *)
Definition word_ranges : list (N * N) :=
  [
    (48, 57); (65, 90); (95, 95); (97, 122); (170, 170); (178, 179);
    (181, 181); (185, 186); (188, 190); (192, 214); (216, 246); (248, 705);
    (710, 721); (736, 740); (748, 748); (750, 750); (880, 884); (886, 887);
    (890, 893); (895, 895); (902, 902); (904, 906); (908, 908); (910, 929);
    (931, 1013); (1015, 1153); (1162, 1327); (1329, 1366); (1369, 1369);
    (1376, 1416); (1488, 1514); (1519, 1522); (1568, 1610); (1632, 1641);
    (1646, 1647); (1649, 1747); (1749, 1749); (1765, 1766); (1774, 1788);
    (1791, 1791); (1808, 1808); (1810, 1839); (1869, 1957); (1969, 1969);
    (1984, 2026); (2036, 2037); (2042, 2042); (2048, 2069); (2074, 2074);
    (2084, 2084); (2088, 2088); (2112, 2136); (2144, 2154); (2160, 2183);
    (2185, 2190); (2208, 2249); (2308, 2361); (2365, 2365); (2384, 2384);
    (2392, 2401); (2406, 2415); (2417, 2432); (2437, 2444); (2447, 2448);
    (2451, 2472); (2474, 2480); (2482, 2482); (2486, 2489); (2493, 2493);
    (2510, 2510); (2524, 2525); (2527, 2529); (2534, 2545); (2548, 2553);
    (2556, 2556); (2565, 2570); (2575, 2576); (2579, 2600); (2602, 2608);
    (2610, 2611); (2613, 2614); (2616, 2617); (2649, 2652); (2654, 2654);
    (2662, 2671); (2674, 2676); (2693, 2701); (2703, 2705); (2707, 2728);
    (2730, 2736); (2738, 2739); (2741, 2745); (2749, 2749); (2768, 2768);
    (2784, 2785); (2790, 2799); (2809, 2809); (2821, 2828); (2831, 2832);
    (2835, 2856); (2858, 2864); (2866, 2867); (2869, 2873); (2877, 2877);
    (2908, 2909); (2911, 2913); (2918, 2927); (2929, 2935); (2947, 2947);
    (2949, 2954); (2958, 2960); (2962, 2965); (2969, 2970); (2972, 2972);
    (2974, 2975); (2979, 2980); (2984, 2986); (2990, 3001); (3024, 3024);
    (3046, 3058); (3077, 3084); (3086, 3088); (3090, 3112); (3114, 3129);
    (3133, 3133); (3160, 3162); (3165, 3165); (3168, 3169); (3174, 3183);
    (3192, 3198); (3200, 3200); (3205, 3212); (3214, 3216); (3218, 3240);
    (3242, 3251); (3253, 3257); (3261, 3261); (3293, 3294); (3296, 3297);
    (3302, 3311); (3313, 3314); (3332, 3340); (3342, 3344); (3346, 3386);
    (3389, 3389); (3406, 3406); (3412, 3414); (3416, 3425); (3430, 3448);
    (3450, 3455); (3461, 3478); (3482, 3505); (3507, 3515); (3517, 3517);
    (3520, 3526); (3558, 3567); (3585, 3632); (3634, 3635); (3648, 3654);
    (3664, 3673); (3713, 3714); (3716, 3716); (3718, 3722); (3724, 3747);
    (3749, 3749); (3751, 3760); (3762, 3763); (3773, 3773); (3776, 3780);
    (3782, 3782); (3792, 3801); (3804, 3807); (3840, 3840); (3872, 3891);
    (3904, 3911); (3913, 3948); (3976, 3980); (4096, 4138); (4159, 4169);
    (4176, 4181); (4186, 4189); (4193, 4193); (4197, 4198); (4206, 4208);
    (4213, 4225); (4238, 4238); (4240, 4249); (4256, 4293); (4295, 4295);
    (4301, 4301); (4304, 4346); (4348, 4680); (4682, 4685); (4688, 4694);
    (4696, 4696); (4698, 4701); (4704, 4744); (4746, 4749); (4752, 4784);
    (4786, 4789); (4792, 4798); (4800, 4800); (4802, 4805); (4808, 4822);
    (4824, 4880); (4882, 4885); (4888, 4954); (4969, 4988); (4992, 5007);
    (5024, 5109); (5112, 5117); (5121, 5740); (5743, 5759); (5761, 5786);
    (5792, 5866); (5870, 5880); (5888, 5905); (5919, 5937); (5952, 5969);
    (5984, 5996); (5998, 6000); (6016, 6067); (6103, 6103); (6108, 6108);
    (6112, 6121); (6128, 6137); (6160, 6169); (6176, 6264); (6272, 6276);
    (6279, 6312); (6314, 6314); (6320, 6389); (6400, 6430); (6470, 6509);
    (6512, 6516); (6528, 6571); (6576, 6601); (6608, 6618); (6656, 6678);
    (6688, 6740); (6784, 6793); (6800, 6809); (6823, 6823); (6917, 6963);
    (6981, 6988); (6992, 7001); (7043, 7072); (7086, 7141); (7168, 7203);
    (7232, 7241); (7245, 7293); (7296, 7304); (7312, 7354); (7357, 7359);
    (7401, 7404); (7406, 7411); (7413, 7414); (7418, 7418); (7424, 7615);
    (7680, 7957); (7960, 7965); (7968, 8005); (8008, 8013); (8016, 8023);
    (8025, 8025); (8027, 8027); (8029, 8029); (8031, 8061); (8064, 8116);
    (8118, 8124); (8126, 8126); (8130, 8132); (8134, 8140); (8144, 8147);
    (8150, 8155); (8160, 8172); (8178, 8180); (8182, 8188); (8304, 8305);
    (8308, 8313); (8319, 8329); (8336, 8348); (8450, 8450); (8455, 8455);
    (8458, 8467); (8469, 8469); (8473, 8477); (8484, 8484); (8486, 8486);
    (8488, 8488); (8490, 8493); (8495, 8505); (8508, 8511); (8517, 8521);
    (8526, 8526); (8528, 8585); (9312, 9371); (9450, 9471); (10102, 10131);
    (11264, 11492); (11499, 11502); (11506, 11507); (11517, 11517);
    (11520, 11557); (11559, 11559); (11565, 11565); (11568, 11623);
    (11631, 11631); (11648, 11670); (11680, 11686); (11688, 11694);
    (11696, 11702); (11704, 11710); (11712, 11718); (11720, 11726);
    (11728, 11734); (11736, 11742); (11823, 11823); (12293, 12295);
    (12321, 12329); (12337, 12341); (12344, 12348); (12353, 12438);
    (12445, 12447); (12449, 12538); (12540, 12543); (12549, 12591);
    (12593, 12686); (12690, 12693); (12704, 12735); (12784, 12799);
    (12832, 12841); (12872, 12879); (12881, 12895); (12928, 12937);
    (12977, 12991); (13312, 19903); (19968, 42124); (42192, 42237);
    (42240, 42508); (42512, 42539); (42560, 42606); (42623, 42653);
    (42656, 42735); (42775, 42783); (42786, 42888); (42891, 42954);
    (42960, 42961); (42963, 42963); (42965, 42969); (42994, 43009);
    (43011, 43013); (43015, 43018); (43020, 43042); (43056, 43061);
    (43072, 43123); (43138, 43187); (43216, 43225); (43250, 43255);
    (43259, 43259); (43261, 43262); (43264, 43301); (43312, 43334);
    (43360, 43388); (43396, 43442); (43471, 43481); (43488, 43492);
    (43494, 43518); (43520, 43560); (43584, 43586); (43588, 43595);
    (43600, 43609); (43616, 43638); (43642, 43642); (43646, 43695);
    (43697, 43697); (43701, 43702); (43705, 43709); (43712, 43712);
    (43714, 43714); (43739, 43741); (43744, 43754); (43762, 43764);
    (43777, 43782); (43785, 43790); (43793, 43798); (43808, 43814);
    (43816, 43822); (43824, 43866); (43868, 43881); (43888, 44002);
    (44016, 44025); (44032, 55203); (55216, 55238); (55243, 55291);
    (63744, 64109); (64112, 64217); (64256, 64262); (64275, 64279);
    (64285, 64285); (64287, 64296); (64298, 64310); (64312, 64316);
    (64318, 64318); (64320, 64321); (64323, 64324); (64326, 64433);
    (64467, 64829); (64848, 64911); (64914, 64967); (65008, 65019);
    (65136, 65140); (65142, 65276); (65296, 65305); (65313, 65338);
    (65345, 65370); (65382, 65470); (65474, 65479); (65482, 65487);
    (65490, 65495); (65498, 65500); (65536, 65547); (65549, 65574);
    (65576, 65594); (65596, 65597); (65599, 65613); (65616, 65629);
    (65664, 65786); (65799, 65843); (65856, 65912); (65930, 65931);
    (66176, 66204); (66208, 66256); (66273, 66299); (66304, 66339);
    (66349, 66378); (66384, 66421); (66432, 66461); (66464, 66499);
    (66504, 66511); (66513, 66517); (66560, 66717); (66720, 66729);
    (66736, 66771); (66776, 66811); (66816, 66855); (66864, 66915);
    (66928, 66938); (66940, 66954); (66956, 66962); (66964, 66965);
    (66967, 66977); (66979, 66993); (66995, 67001); (67003, 67004);
    (67072, 67382); (67392, 67413); (67424, 67431); (67456, 67461);
    (67463, 67504); (67506, 67514); (67584, 67589); (67592, 67592);
    (67594, 67637); (67639, 67640); (67644, 67644); (67647, 67669);
    (67672, 67702); (67705, 67742); (67751, 67759); (67808, 67826);
    (67828, 67829); (67835, 67867); (67872, 67897); (67968, 68023);
    (68028, 68047); (68050, 68096); (68112, 68115); (68117, 68119);
    (68121, 68149); (68160, 68168); (68192, 68222); (68224, 68255);
    (68288, 68295); (68297, 68324); (68331, 68335); (68352, 68405);
    (68416, 68437); (68440, 68466); (68472, 68497); (68521, 68527);
    (68608, 68680); (68736, 68786); (68800, 68850); (68858, 68899);
    (68912, 68921); (69216, 69246); (69248, 69289); (69296, 69297);
    (69376, 69415); (69424, 69445); (69457, 69460); (69488, 69505);
    (69552, 69579); (69600, 69622); (69635, 69687); (69714, 69743);
    (69745, 69746); (69749, 69749); (69763, 69807); (69840, 69864);
    (69872, 69881); (69891, 69926); (69942, 69951); (69956, 69956);
    (69959, 69959); (69968, 70002); (70006, 70006); (70019, 70066);
    (70081, 70084); (70096, 70106); (70108, 70108); (70113, 70132);
    (70144, 70161); (70163, 70187); (70272, 70278); (70280, 70280);
    (70282, 70285); (70287, 70301); (70303, 70312); (70320, 70366);
    (70384, 70393); (70405, 70412); (70415, 70416); (70419, 70440);
    (70442, 70448); (70450, 70451); (70453, 70457); (70461, 70461);
    (70480, 70480); (70493, 70497); (70656, 70708); (70727, 70730);
    (70736, 70745); (70751, 70753); (70784, 70831); (70852, 70853);
    (70855, 70855); (70864, 70873); (71040, 71086); (71128, 71131);
    (71168, 71215); (71236, 71236); (71248, 71257); (71296, 71338);
    (71352, 71352); (71360, 71369); (71424, 71450); (71472, 71483);
    (71488, 71494); (71680, 71723); (71840, 71922); (71935, 71942);
    (71945, 71945); (71948, 71955); (71957, 71958); (71960, 71983);
    (71999, 71999); (72001, 72001); (72016, 72025); (72096, 72103);
    (72106, 72144); (72161, 72161); (72163, 72163); (72192, 72192);
    (72203, 72242); (72250, 72250); (72272, 72272); (72284, 72329);
    (72349, 72349); (72368, 72440); (72704, 72712); (72714, 72750);
    (72768, 72768); (72784, 72812); (72818, 72847); (72960, 72966);
    (72968, 72969); (72971, 73008); (73030, 73030); (73040, 73049);
    (73056, 73061); (73063, 73064); (73066, 73097); (73112, 73112);
    (73120, 73129); (73440, 73458); (73648, 73648); (73664, 73684);
    (73728, 74649); (74752, 74862); (74880, 75075); (77712, 77808);
    (77824, 78894); (82944, 83526); (92160, 92728); (92736, 92766);
    (92768, 92777); (92784, 92862); (92864, 92873); (92880, 92909);
    (92928, 92975); (92992, 92995); (93008, 93017); (93019, 93025);
    (93027, 93047); (93053, 93071); (93760, 93846); (93952, 94026);
    (94032, 94032); (94099, 94111); (94176, 94177); (94179, 94179);
    (94208, 100343); (100352, 101589); (101632, 101640); (110576, 110579);
    (110581, 110587); (110589, 110590); (110592, 110882); (110928, 110930);
    (110948, 110951); (110960, 111355); (113664, 113770); (113776, 113788);
    (113792, 113800); (113808, 113817); (119520, 119539); (119648, 119672);
    (119808, 119892); (119894, 119964); (119966, 119967); (119970, 119970);
    (119973, 119974); (119977, 119980); (119982, 119993); (119995, 119995);
    (119997, 120003); (120005, 120069); (120071, 120074); (120077, 120084);
    (120086, 120092); (120094, 120121); (120123, 120126); (120128, 120132);
    (120134, 120134); (120138, 120144); (120146, 120485); (120488, 120512);
    (120514, 120538); (120540, 120570); (120572, 120596); (120598, 120628);
    (120630, 120654); (120656, 120686); (120688, 120712); (120714, 120744);
    (120746, 120770); (120772, 120779); (120782, 120831); (122624, 122654);
    (123136, 123180); (123191, 123197); (123200, 123209); (123214, 123214);
    (123536, 123565); (123584, 123627); (123632, 123641); (124896, 124902);
    (124904, 124907); (124909, 124910); (124912, 124926); (124928, 125124);
    (125127, 125135); (125184, 125251); (125259, 125259); (125264, 125273);
    (126065, 126123); (126125, 126127); (126129, 126132); (126209, 126253);
    (126255, 126269); (126464, 126467); (126469, 126495); (126497, 126498);
    (126500, 126500); (126503, 126503); (126505, 126514); (126516, 126519);
    (126521, 126521); (126523, 126523); (126530, 126530); (126535, 126535);
    (126537, 126537); (126539, 126539); (126541, 126543); (126545, 126546);
    (126548, 126548); (126551, 126551); (126553, 126553); (126555, 126555);
    (126557, 126557); (126559, 126559); (126561, 126562); (126564, 126564);
    (126567, 126570); (126572, 126578); (126580, 126583); (126585, 126588);
    (126590, 126590); (126592, 126601); (126603, 126619); (126625, 126627);
    (126629, 126633); (126635, 126651); (127232, 127244); (130032, 130041);
    (131072, 173791); (173824, 177976); (177984, 178205); (178208, 183969);
    (183984, 191456); (194560, 195101); (196608, 201546)
  ].

Definition in_ranges (rs : list (N * N)) (c : char) : bool :=
  existsb (fun r => (fst r <=? c) && (c <=? snd r)) rs.

Definition isword (c : char) : bool := in_ranges word_ranges c.

(** Case classes of the letters that occur in the marker tables: two
    code points of one class match each other under [(?i)].  (Letters that
    occur in no pattern need no entry.)  *)
Definition case_classes : list (list N) :=
  [ [65; 97]; [66; 98]; [67; 99]; [68; 100]; [69; 101]; [70; 102];
    [71; 103]; [72; 104]; [73; 105; 304; 305]; [74; 106]; [76; 108];
    [77; 109]; [78; 110]; [79; 111]; [80; 112]; [82; 114];
    [83; 115; 383]; [84; 116]; [85; 117]; [86; 118]; [87; 119];
    [201; 233]; [211; 243]; [321; 322];
    [931; 962; 963]; [904; 941]; [913; 945]; [915; 947];
    [917; 949; 1013]; [837; 921; 953; 8126]; [929; 961; 1009];
    [932; 964]; [936; 968];
    [1042; 1074; 7296]; [1044; 1076; 7297]; [1048; 1080];
    [1054; 1086; 7298]; [1055; 1087]; [1040; 1072]; [1041; 1073];
    [1043; 1075]; [1045; 1077]; [1047; 1079]; [1051; 1083];
    [1052; 1084]; [1053; 1085]; [1056; 1088]; [1057; 1089; 7299];
    [1058; 1090; 7300; 7301]; [1065; 1097]; [1066; 1098; 7302] ].

Definition mem (c : N) (l : list N) : bool := existsb (N.eqb c) l.

Definition same_letter (p c : char) : bool :=
  (p =? c) || existsb (fun cl => mem p cl && mem c cl) case_classes.

Record flags := { ignorecase : bool; multiline : bool }.

Inductive regex :=
| Empty                                   (* matches the empty string *)
| Lit (c : char)                          (* one literal character *)
| Cls (rs : list (N * N))                 (* [a-z...] *)
| Ws                                      (* \s *)
| Bol                                     (* ^ *)
| Eol                                     (* $ *)
| Wordb                                   (* \b *)
| Cat (r1 r2 : regex)
| Alt (r1 r2 : regex)
| Rep (r : regex) (lo : nat) (hi : option nat).   (* greedy r{lo,hi} *)

Definition star r := Rep r 0 None.
Definition plus r := Rep r 1 None.
Definition opt r := Rep r 0 (Some 1%nat).
Definition lit (s : str) : regex := fold_right (fun c r => Cat (Lit c) r) Empty s.
Definition cat (rs : list regex) : regex := fold_right Cat Empty rs.
Fixpoint alt (rs : list regex) : regex :=
  match rs with
  | [] => Cls []
  | [r] => r
  | r :: rs' => Alt r (alt rs')
  end.

(** A place in the text: the character just before it and what follows. *)
Record cursor := { before : option char; after : list char }.

Definition at_bol (fl : flags) (c : cursor) : bool :=
  match before c with
  | None => true
  | Some p => multiline fl && (p =? NL)
  end.

Definition at_eol (fl : flags) (c : cursor) : bool :=
  match after c with
  | [] => true
  | [x] => x =? NL
  | x :: _ => multiline fl && (x =? NL)
  end.

Definition at_wordb (c : cursor) : bool :=
  let l := match before c with Some p => isword p | None => false end in
  let r := match after c with x :: _ => isword x | [] => false end in
  xorb l r.

Definition step_if (ok : char -> bool) (c : cursor) : list cursor :=
  match after c with
  | x :: t => if ok x then [ {| before := Some x; after := t |} ] else []
  | [] => []
  end.

Definition here_if (ok : bool) (c : cursor) : list cursor :=
  if ok then [c] else [].

Definition moved (c c' : cursor) : bool :=
  (length (after c') <? length (after c))%nat.

(** The turns of a greedy repetition whose body matches by [step]: one
    more turn first, stopping here second.  A turn that consumed nothing
    is given up, as [re] does. *)
Fixpoint rep_go (step : cursor -> list cursor) (fuel lo : nat)
    (hi : option nat) (c : cursor) : list cursor :=
  let stop := match lo with O => [c] | S _ => [] end in
  match fuel with
  | O => stop
  | S fuel' =>
      match hi with
      | Some O => stop
      | _ =>
          flat_map
            (fun c' =>
               if moved c c' then rep_go step fuel' (pred lo) (pred <$> hi) c'
               else [])
            (step c)
          ++ stop
      end
  end.

(** Every end of a match of [r] that starts at [c], most preferred first. *)
Fixpoint ends (fl : flags) (r : regex) (c : cursor) : list cursor :=
  match r with
  | Empty => [c]
  | Lit p => step_if (fun x => if ignorecase fl then same_letter p x else p =? x) c
  | Cls rs => step_if (in_ranges rs) c
  | Ws => step_if isspace c
  | Bol => here_if (at_bol fl c) c
  | Eol => here_if (at_eol fl c) c
  | Wordb => here_if (at_wordb c) c
  | Cat r1 r2 => flat_map (ends fl r2) (ends fl r1 c)
  | Alt r1 r2 => ends fl r1 c ++ ends fl r2 c
  | Rep r1 lo hi => rep_go (ends fl r1) (S (length (after c))) lo hi c
  end.

Definition matches_at (fl : flags) (r : regex) (c : cursor) : bool :=
  match ends fl r c with [] => false | _ => true end.

(** [pat.search(text)]: the start of the leftmost match, [m.start()]. *)
Fixpoint search_go (fl : flags) (r : regex) (prev : option char) (s : str)
    (i : nat) : option nat :=
  if matches_at fl r {| before := prev; after := s |} then Some i
  else match s with
       | [] => None
       | x :: t => search_go fl r (Some x) t (S i)
       end.

Definition search (fl : flags) (r : regex) (text : str) : option nat :=
  search_go fl r None text 0.

(** What a match consumed between two cursors. *)
Definition consumed (c c' : cursor) : str :=
  firstn (length (after c) - length (after c')) (after c).

(** [pat.search(text).group(1)] for a pattern [pre(grp)post]: the first
    match in the order of a backtracking matcher, leftmost start first. *)
Definition group_at (fl : flags) (pre grp post : regex) (c : cursor)
    : option str :=
  head (flat_map
          (fun c1 =>
             flat_map
               (fun c2 => if matches_at fl post c2 then [consumed c1 c2] else [])
               (ends fl grp c1))
          (ends fl pre c)).

Fixpoint search_group_go (fl : flags) (pre grp post : regex)
    (prev : option char) (s : str) : option str :=
  match group_at fl pre grp post {| before := prev; after := s |} with
  | Some g => Some g
  | None =>
      match s with
      | [] => None
      | x :: t => search_group_go fl pre grp post (Some x) t
      end
  end.

Definition search_group (fl : flags) (pre grp post : regex) (text : str)
    : option str :=
  search_group_go fl pre grp post None text.

(** [re.sub(pat, repl, text)] for a pattern that matches no empty string
    and a replacement without group references: from the left, every
    match is replaced and the search goes on behind it. *)
Fixpoint sub_go (fuel : nat) (fl : flags) (r : regex) (repl : str)
    (c : cursor) : str :=
  match fuel with
  | O => after c
  | S fuel' =>
      let copy :=
        match after c with
        | [] => []
        | x :: t => x :: sub_go fuel' fl r repl {| before := Some x; after := t |}
        end in
      match ends fl r c with
      | c' :: _ => if moved c c' then repl ++ sub_go fuel' fl r repl c' else copy
      | [] => copy
      end
  end.

Definition sub (fl : flags) (r : regex) (repl text : str) : str :=
  sub_go (S (length text)) fl r repl {| before := None; after := text |}.

End Re.

(** ** [app/utils.py]: the reply-text extractor *)

Module Utils.
Import Py Re.

Definition DASH : char := 45.

Definition im : flags := {| ignorecase := true; multiline := true |}.
Definition i_only : flags := {| ignorecase := true; multiline := false |}.

(** [^\s*>?\s*], the optional quote prefix in front of every marker. *)
Definition quote_prefix : list regex := [Bol; star Ws; opt (Lit GT); star Ws].

Definition marker (body : list regex) : regex := cat (quote_prefix ++ body).

Definition _MARKER_LINE_PATTERNS : list regex :=
  [ (* ^\s*>?\s*-+\s*Original Message\s*-+\s*$ *)
    marker [plus (Lit DASH); star Ws; lit (U "Original Message"); star Ws;
            plus (Lit DASH); star Ws; Eol];
    (* ^\s*>?\s*-+\s*Forwarded message\s*-+\s*$ *)
    marker [plus (Lit DASH); star Ws; lit (U "Forwarded message"); star Ws;
            plus (Lit DASH); star Ws; Eol];
    (* ^\s*>?\s*Begin forwarded message\s*$ *)
    marker [lit (U "Begin forwarded message"); star Ws; Eol];
    (* ^\s*>?\s*Forwarded message\s*$ *)
    marker [lit (U "Forwarded message"); star Ws; Eol];
    (* ^\s*>?\s*-+\s*Оригинално писмо\s*-+\s*$ *)
    marker [plus (Lit DASH); star Ws; lit (U "Оригинално писмо"); star Ws;
            plus (Lit DASH); star Ws; Eol];
    (* ^\s*>?\s*Препратено съобщение\s*$ *)
    marker [lit (U "Препратено съобщение"); star Ws; Eol];
    (* ^\s*>?\s*Begin forwarded message:\s*$ *)
    marker [lit (U "Begin forwarded message:"); star Ws; Eol];
    (* ^\s*>?\s*-{2,}\s*Original Message\s*-{2,}\s*$ *)
    marker [Rep (Lit DASH) 2 None; star Ws; lit (U "Original Message"); star Ws;
            Rep (Lit DASH) 2 None; star Ws; Eol];
    (* ^\s*>?\s*From:\s+ and the other header block starters *)
    marker [lit (U "From:"); plus Ws];
    marker [lit (U "Sent:"); plus Ws];
    marker [lit (U "To:"); plus Ws];
    marker [lit (U "Subject:"); plus Ws];
    marker [lit (U "Date:"); plus Ws];
    marker [lit (U "От:"); plus Ws];
    marker [lit (U "До:"); plus Ws];
    marker [lit (U "Относно:"); plus Ws];
    marker [lit (U "Изпратено на:"); plus Ws];
    (* ^\s*>?\s*-----+\s*Forwarded Message\s*-----+\s*$ *)
    marker [lit (U "----"); plus (Lit DASH); star Ws; lit (U "Forwarded Message");
            star Ws; lit (U "----"); plus (Lit DASH); star Ws; Eol] ].

Definition colon : regex := Lit 58.

Definition _WROTE_WORDS : list regex :=
  [ lit (U "wrote:");
    lit (U "schrieb:");
    cat [lit (U "écrit"); star Ws; colon];
    cat [lit (U "escribió"); star Ws; colon];
    cat [lit (U "ha scritto"); star Ws; colon];
    cat [lit (U "escreveu"); star Ws; colon];
    cat [lit (U "schreef"); star Ws; colon];
    (* napisał\s*\(?a\)?\s*: *)
    cat [lit (U "napisał"); star Ws; opt (Lit 40); Lit 97; opt (Lit 41);
         star Ws; colon];
    (* писал[а]?\s*: *)
    cat [lit (U "писал"); opt (Lit 1072); star Ws; colon];
    cat [lit (U "έγραψε"); star Ws; colon] ].

Definition _ON_WORDS : list regex :=
  [ lit (U "On"); lit (U "Am"); lit (U "Le"); lit (U "El"); lit (U "Il");
    lit (U "Em"); lit (U "Op"); lit (U "W dniu"); lit (U "В"); lit (U "Στις") ].

(** [(?i)^\s*>?\s*(On|Am|...)\b] *)
Definition on_re : regex := cat (quote_prefix ++ [alt _ON_WORDS; Wordb]).

(** [(?i)(wrote:|schrieb:|...)\s*$] *)
Definition wrote_re : regex := cat [alt _WROTE_WORDS; star Ws; Eol].

Definition found (o : option nat) : bool :=
  match o with Some _ => true | None => false end.

(** [offsets]: where each line starts in the text. *)
Fixpoint line_offsets (pos : nat) (lines : list str) : list nat :=
  match lines with
  | [] => []
  | ln :: rest => pos :: line_offsets (pos + length ln + 1) rest
  end.

(** [j < len(lines) and wrote_re.search(lines[j].strip())] *)
Definition wrote_on_line (lines : list str) (j : nat) : bool :=
  match lines !! j with
  | Some l => found (search i_only wrote_re (strip l))
  | None => false
  end.

(** The loop over [enumerate(lines)]; [todo] is what is left of [lines]
    from index [i] on. *)
Fixpoint on_wrote_loop (lines : list str) (offsets : list nat) (i : nat)
    (todo : list str) : option nat :=
  match todo with
  | [] => None
  | ln :: todo' =>
      if negb (found (search i_only on_re ln))
      then on_wrote_loop lines offsets (S i) todo'
      else if found (search i_only wrote_re (strip ln)) then offsets !! i
      else if wrote_on_line lines (i + 1) then offsets !! i
      else if wrote_on_line lines (i + 2) then offsets !! i
      else on_wrote_loop lines offsets (S i) todo'
  end.

Definition _find_on_wrote_marker_index (text : str) : option nat :=
  let lines := split_nl text in
  let offsets := line_offsets 0 lines in
  on_wrote_loop lines offsets 0 lines.

(** Step 2 of [extract_latest_reply_text]: the earliest marker. *)
Definition marker_cut (text : str) (cut_idx : option nat) (pat : regex)
    : option nat :=
  match search im pat text with
  | Some start =>
      match cut_idx with
      | None => Some start
      | Some c => if (start <? c)%nat then Some start else cut_idx
      end
  | None => cut_idx
  end.

Definition find_cut (text : str) : option nat :=
  fold_left (marker_cut text) _MARKER_LINE_PATTERNS
    (_find_on_wrote_marker_index text).

Definition normalize_newlines (body_text : str) : str :=
  replace [CR] [NL] (replace [CR; NL] [NL] body_text).

Definition top_part_of (text : str) : str :=
  match find_cut text with
  | None => text
  | Some cut_idx => firstn cut_idx text
  end.

Definition is_quoted (line : str) : bool := startswith (lstrip line) [GT].

Definition no_flags : flags := {| ignorecase := false; multiline := false |}.

(** [re.sub(r"\n{3,}", "\n\n", s)] *)
Definition collapse_blank_lines (s : str) : str :=
  sub no_flags (Rep (Lit NL) 3 None) [NL; NL] s.

Definition kept_lines (top_part : str) : list str :=
  List.filter (fun line => negb (is_quoted line)) (split_nl top_part).

Definition extract_latest_reply_text (body_text : option str) : str :=
  match body_text with
  | None => []
  | Some body_text =>
      let text := normalize_newlines body_text in
      let top_part := top_part_of text in
      let top_part_trimmed := strip top_part in
      let cleaned := strip (join_nl (kept_lines top_part)) in
      let cleaned := collapse_blank_lines cleaned in
      if negb (truthy cleaned)
      then collapse_blank_lines top_part_trimmed
      else cleaned
  end.

End Utils.

(** ** [app/parser.py]: deal tag, identity key, body text and HTML flag *)

Module Parser.
Import Py Re.

Definition bytes := list Byte.byte.

(** [DEAL_ID_RE = re.compile(r"\[Сделка:([A-Za-z0-9]{4,6})\]", re.UNICODE)],
    in three pieces: what stands before the group, the group, what stands
    behind it. *)
Definition deal_flags : flags := {| ignorecase := false; multiline := false |}.
Definition alnum_ranges : list (N * N) := [(65, 90); (97, 122); (48, 57)].
Definition DEAL_ID_pre : regex := lit (U "[Сделка:").
Definition DEAL_ID_grp : regex := Rep (Cls alnum_ranges) 4 (Some 6%nat).
Definition DEAL_ID_post : regex := lit (U "]").
Definition DEAL_ID_RE : regex := cat [DEAL_ID_pre; DEAL_ID_grp; DEAL_ID_post].

(** [DEAL_ID_RE.search(text)], then [m.group(1)] when there is a match. *)
Definition DEAL_ID_RE_search (text : str) : option str :=
  search_group deal_flags DEAL_ID_pre DEAL_ID_grp DEAL_ID_post text.

Definition truthy_opt (o : option str) : bool :=
  match o with Some s => truthy s | None => false end.

Fixpoint first_deal_id (haystacks : list str) : option str :=
  match haystacks with
  | [] => None
  | text :: rest =>
      match DEAL_ID_RE_search text with
      | Some g => Some g
      | None => first_deal_id rest
      end
  end.

Definition _pick_deal_id (subject body_text : option str) : option str :=
  let haystacks := [] in
  let haystacks :=
    match subject with
    | Some s => if truthy s then haystacks ++ [s] else haystacks
    | None => haystacks
    end in
  let haystacks :=
    match body_text with
    | Some b => if truthy b then haystacks ++ [b] else haystacks
    | None => haystacks
    end in
  first_deal_id haystacks.

(** *** Messages

    What [email.message_from_bytes] hands to the parser: a tree of parts.
    A leaf carries what [get_payload(decode=True)] gives for it. *)

Inductive payload :=
| PBytes (b : bytes)       (* the decoded payload *)
| PNone                    (* [None] *)
| PRaises.                 (* [get_payload] raises *)

#[warnings="-register-all"] Inductive Message :=
| Leaf (headers : list (str * str)) (content_type : str)
       (content_charset : option str) (body : payload)
| Multipart (headers : list (str * str)) (content_type : str)
       (parts : list Message).

Definition headers_of (m : Message) : list (str * str) :=
  match m with Leaf h _ _ _ => h | Multipart h _ _ => h end.

Definition get_content_type (m : Message) : str :=
  match m with Leaf _ t _ _ => t | Multipart _ t _ => t end.

Definition get_content_charset (m : Message) : option str :=
  match m with Leaf _ _ c _ => c | Multipart _ _ _ => None end.

Definition is_multipart (m : Message) : bool :=
  match m with Leaf _ _ _ _ => false | Multipart _ _ _ => true end.

(** [get_payload(decode=True)]: [None] for a multipart container. *)
Definition get_payload_decoded (m : Message) : payload :=
  match m with Leaf _ _ _ p => p | Multipart _ _ _ => PNone end.

(** [s.lower()]; the results are only compared with ASCII literals, for
    which lowering the ASCII capitals is all that matters. *)
Definition lower_char (c : char) : char :=
  if (65 <=? c) && (c <=? 90) then c + 32 else c.
Definition lower (s : str) : str := map lower_char s.

Fixpoint str_eqb (a b : str) : bool :=
  match a, b with
  | [], [] => true
  | x :: a', y :: b' => (x =? y) && str_eqb a' b'
  | _, _ => false
  end.

(** [msg.get(name)]: header names compare without regard to case; the
    first header of that name wins.  The headers of a [Message] are those
    that the library reads: a header on which the look-up itself raises
    has no place in the list. *)
Fixpoint get_header (hs : list (str * str)) (name : str) : option str :=
  match hs with
  | [] => None
  | (k, v) :: rest =>
      if str_eqb (lower k) (lower name) then Some v else get_header rest name
  end.

Definition get (m : Message) (name : str) : option str :=
  get_header (headers_of m) name.

(** [msg.walk()]: the part itself, then its sub-parts, depth first. *)
Fixpoint walk (m : Message) : list Message :=
  match m with
  | Leaf _ _ _ _ => [m]
  | Multipart _ _ parts => m :: flat_map walk parts
  end.

(** Python's [a or b]. *)
Definition or_else (a b : option str) : option str :=
  if truthy_opt a then a else b.

(** [a or b] where [b] is a string, as in [get_content_charset() or "utf-8"]. *)
Definition or_str (a : option str) (b : str) : str :=
  default b (or_else a (Some b)).

Section Libraries.

(** [email.message_from_bytes(raw, policy=policy.default)] *)
Variable message_from_bytes : bytes -> Message.
(** [str(make_header(decode_header(s)))]; [None] when it raises. *)
Variable rfc2047_decode : str -> option str.
(** [hashlib.sha256(raw).hexdigest()] *)
Variable sha256_hexdigest : bytes -> str.
(** [payload.decode(charset, errors="replace")]; [None] when the codec
    is unknown. *)
Variable codec_decode : str -> bytes -> option str.
(** [payload.decode("utf-8", errors="replace")] *)
Variable utf8_decode : bytes -> str.
(** BeautifulSoup: parse, drop script and style, [get_text], then one
    stripped line for every line that is not blank. *)
Variable html_get_text : str -> str.

Definition _decode_str (s : option str) : option str :=
  match s with
  | None => None
  | Some s =>
      match rfc2047_decode s with
      | Some d => Some d
      | None => Some s
      end
  end.

Definition _message_id_or_hash (raw_bytes : bytes) (msg : Message) : str :=
  let mid :=
    or_else (get msg (U "Message-ID"))
      (or_else (get msg (U "Message-Id")) (get msg (lower (U "Message-Id")))) in
  let mid := if truthy_opt mid then _decode_str mid else None in
  match mid with
  | Some m =>
      if truthy m then strip m
      else U "sha256:" ++ sha256_hexdigest raw_bytes
  | None => U "sha256:" ++ sha256_hexdigest raw_bytes
  end.

(** The accumulators of [_extract_best_text_and_html_flag]. *)
Record acc := { plain_parts : list str; html_parts : list str; has_html : bool }.

Definition decode_or_utf8 (charset : option str) (b : bytes) : str :=
  match codec_decode (or_str charset (U "utf-8")) b with
  | Some s => s
  | None => utf8_decode b
  end.

Definition nonempty (b : bytes) : bool :=
  match b with [] => false | _ => true end.

(** One turn of the loop over [msg.walk()]. *)
Definition walk_step (a : acc) (part : Message) : acc :=
  let ctype := lower (get_content_type part) in
  let disp := lower (default [] (get part (U "Content-Disposition"))) in
  if startswith disp (U "attachment") then a
  else
    let payload :=
      match get_payload_decoded part with
      | PBytes b => Some b
      | PNone => None
      | PRaises => None
      end in
    match payload with
    | None => a
    | Some b =>
        if negb (nonempty b) then a
        else if str_eqb ctype (U "text/plain") then
          {| plain_parts := plain_parts a ++ [decode_or_utf8 (get_content_charset part) b];
             html_parts := html_parts a;
             has_html := has_html a |}
        else if str_eqb ctype (U "text/html") then
          {| plain_parts := plain_parts a;
             html_parts := html_parts a ++ [decode_or_utf8 (get_content_charset part) b];
             has_html := true |}
        else a
    end.

(** The branch for a message that is not multipart; [None] when an
    exception leaves the function. *)
Definition single_part (msg : Message) : option acc :=
  let a := {| plain_parts := []; html_parts := []; has_html := false |} in
  let ctype := lower (get_content_type msg) in
  if str_eqb ctype (U "text/plain") then
    match get_payload_decoded msg with
    | PRaises => None
    | PNone => Some a
    | PBytes b =>
        if nonempty b then
          match codec_decode (or_str (get_content_charset msg) (U "utf-8")) b with
          | Some s => Some {| plain_parts := [s]; html_parts := []; has_html := false |}
          | None => None
          end
        else Some a
    end
  else if str_eqb ctype (U "text/html") then
    match get_payload_decoded msg with
    | PRaises => None
    | PNone => Some {| plain_parts := []; html_parts := []; has_html := true |}
    | PBytes b =>
        if nonempty b then
          match codec_decode (or_str (get_content_charset msg) (U "utf-8")) b with
          | Some s => Some {| plain_parts := []; html_parts := [s]; has_html := true |}
          | None => None
          end
        else Some {| plain_parts := []; html_parts := []; has_html := true |}
    end
  else Some a.

(** The text that wins: the plain parts, else the HTML parts turned
    into text, else nothing. *)
Definition best_text (a : acc) : option str :=
  let text :=
    match plain_parts a, html_parts a with
    | _ :: _, _ => Some (strip (join_nl (plain_parts a)))
    | [], _ :: _ => Some (html_get_text (join_nl (html_parts a)))
    | [], [] => None
    end in
  match text with
  | Some t => if truthy t then Some t else None
  | None => None
  end.

Definition _extract_best_text_and_html_flag (msg : Message)
    : option (option str * bool) :=
  let a :=
    if is_multipart msg
    then Some (fold_left walk_step (walk msg)
                 {| plain_parts := []; html_parts := []; has_html := false |})
    else single_part msg in
  match a with
  | Some a => Some (best_text a, has_html a)
  | None => None
  end.

(** [EmailItem], without the addresses, the dates and the attachments. *)
Record EmailItem := {
  messageId : str;
  subject : option str;
  snippet : option str;
  bodyText : option str;
  bodyTextLatest : option str;
  hasHtml : bool;
  dealId : option str
}.

(** [None] when an exception leaves the function. *)
Definition parse_email_bytes_to_item (raw_bytes : bytes)
    : option (EmailItem * str) :=
  let msg := message_from_bytes raw_bytes in
  let identity := _message_id_or_hash raw_bytes msg in
  let subject := _decode_str (get msg (U "Subject")) in
  match _extract_best_text_and_html_flag msg with
  | None => None
  | Some (body_text, has_html) =>
      let snippet :=
        match body_text with
        | Some b => if truthy b then Some (firstn 200 b) else None
        | None => None
        end in
      let body_latest :=
        if truthy_opt body_text
        then Some (Utils.extract_latest_reply_text (or_else body_text (Some [])))
        else None in
      let deal_id := _pick_deal_id subject body_text in
      Some ({| messageId := identity; subject := subject; snippet := snippet;
               bodyText := body_text; bodyTextLatest := body_latest;
               hasHtml := has_html; dealId := deal_id |}, identity)
  end.

End Libraries.

End Parser.

(** ** [app/state.py]: the store of seen keys

    The store has three files in one directory: the state file, the
    temporary file that [_write] fills and renames, and the lock file.
    Time is a clock in microseconds.  What the code does with time is to
    read the clock and to sleep: the time that passes is counted into the
    sleeps, each of which takes longer than asked by what the world says.
    Another process may hold the lock file and remove it at a time of its
    own.  The world keeps a note of whether a data file was ever changed
    while no lock file was there.  A step on the state file or on the temporary file fails when the
    next flag of [faults] says so; creating the lock file fails exactly
    when the file is there, and removing it does not fail. *)

Module State.
Import Py.

Definition key := str.

(** The JSON document of the state file, as [json.load] returns it: a
    dict of which the code reads and writes ["version"] and ["seen"];
    [extra] holds whatever else the dict carries. *)
Record doc := {
  version : option Z;
  seen : option (list key);
  extra : list (str * str)
}.

(** A file holds a complete document, or something [json.load] refuses,
    such as a dump that stopped half way. *)
Inductive file :=
| Whole (d : doc)
| Torn.

(** The directory of the store, the clock and the environment. *)
Record world := {
  state_file : option file;      (* [self.path] *)
  tmp_file : option file;        (* [self.path.with_suffix(".json.tmp")] *)
  lock_file : bool;              (* whether [state.lock] exists *)
  clock : Z;                     (* microseconds *)
  lock_release : option Z;       (* when another holder removes the lock file *)
  lags : list N;                 (* how much longer the next sleeps take, in microseconds *)
  faults : list bool;            (* whether the next steps on the two data files fail *)
  bare_write : bool              (* whether a data file was changed with no lock file there *)
}.

Record StateStore := {
  lock_timeout_s : Z;
  _data : doc
}.

(** A method runs on the object and the world. *)
Record machine := {
  self : StateStore;
  env : world
}.

Inductive exn :=
| FileExistsError
| FileNotFoundError
| OSError
| JSONDecodeError
| TimeoutError.

(** [Spin]: the loop has not come to an end within the turns it was given. *)
Inductive outcome (A : Type) :=
| Ret (a : A)
| Raise (e : exn)
| Spin.
Arguments Ret {A} a.
Arguments Raise {A} e.
Arguments Spin {A}.

Definition M (S A : Type) : Type := S -> outcome A * S.

Definition ret {S A} (a : A) : M S A := fun s => (Ret a, s).
Definition raise {S A} (e : exn) : M S A := fun s => (Raise e, s).
Definition bind {S A B} (m : M S A) (k : A -> M S B) : M S B :=
  fun s =>
    match m s with
    | (Ret a, s') => k a s'
    | (Raise e, s') => (Raise e, s')
    | (Spin, s') => (Spin, s')
    end.

Notation "x <- m ;; k" := (bind m (fun x => k))
  (at level 100, m at next level, right associativity).
Notation "m ;;; k" := (bind m (fun _ => k))
  (at level 100, right associativity).

(** [try: m finally: cleanup] *)
Definition try_finally {S A} (m : M S A) (cleanup : M S unit) : M S A :=
  fun s =>
    match m s with
    | (r, s') =>
        match cleanup s' with
        | (Ret _, s'') => (r, s'')
        | (Raise e, s'') => (Raise e, s'')
        | (Spin, s'') => (Spin, s'')
        end
    end.

(** [try: m except Exception: pass] *)
Definition try_pass {S} (m : M S unit) : M S unit :=
  fun s =>
    match m s with
    | (Raise _, s') => (Ret tt, s')
    | r => r
    end.

Definition get_state {S} : M S S := fun s => (Ret s, s).
Definition put_state {S} (s : S) : M S unit := fun _ => (Ret tt, s).

(** A step on the world, run from a method. *)
Definition on_env {A} (m : M world A) : M machine A :=
  fun s =>
    match m (env s) with
    | (r, w) => (r, {| self := self s; env := w |})
    end.

(** *** The file system and the clock *)

Definition set_state_file (f : option file) (w : world) : world :=
  {| state_file := f; tmp_file := tmp_file w; lock_file := lock_file w;
     clock := clock w; lock_release := lock_release w; lags := lags w;
     faults := faults w; bare_write := bare_write w |}.

Definition set_tmp_file (f : option file) (w : world) : world :=
  {| state_file := state_file w; tmp_file := f; lock_file := lock_file w;
     clock := clock w; lock_release := lock_release w; lags := lags w;
     faults := faults w; bare_write := bare_write w |}.

Definition set_lock_file (b : bool) (w : world) : world :=
  {| state_file := state_file w; tmp_file := tmp_file w; lock_file := b;
     clock := clock w; lock_release := lock_release w; lags := lags w;
     faults := faults w; bare_write := bare_write w |}.

(** Whether the next step on a data file fails. *)
Definition next_fault : M world bool :=
  fun w =>
    match faults w with
    | [] => (Ret false, w)
    | b :: rest =>
        (Ret b,
         {| state_file := state_file w; tmp_file := tmp_file w;
            lock_file := lock_file w; clock := clock w;
            lock_release := lock_release w; lags := lags w; faults := rest;
            bare_write := bare_write w |})
    end.

(** The lock file of another holder is gone once the time of its release
    has come. *)
Definition holder_leaves (w : world) : world :=
  match lock_release w with
  | Some r =>
      if lock_file w && (r <=? clock w)%Z
      then {| state_file := state_file w; tmp_file := tmp_file w;
              lock_file := false; clock := clock w; lock_release := None;
              lags := lags w; faults := faults w; bare_write := bare_write w |}
      else w
  | None => w
  end.

(** [os.open(lock_path, O_CREAT | O_EXCL | O_WRONLY)] and [os.close] *)
Definition create_lock_exclusive : M world unit :=
  fun w =>
    let w := holder_leaves w in
    if lock_file w then (Raise FileExistsError, w)
    else (Ret tt, set_lock_file true w).

(** [lock_path.unlink(missing_ok=True)] *)
Definition unlink_lock : M world unit :=
  fun w => (Ret tt, set_lock_file false w).

(** [time.time()], in microseconds *)
Definition time_time : M world Z := fun w => (Ret (clock w), w).

(** The least time that passes besides the sleep itself from one reading
    of the clock to the next: the resolution of the clock. *)
Definition TICK : Z := 1.

(** [time.sleep]: the process is suspended for at least the time asked
    for, and the steps around the sleep take time as well: the clock has
    moved on by more than the time asked for, by how much the world says
    ([lags]).  The clock of [time.time] is taken to run true. *)
Definition sleep (us : Z) : M world unit :=
  fun w =>
    let lag := match lags w with [] => 0%Z | l :: _ => Z.of_N l end in
    (Ret tt,
     {| state_file := state_file w; tmp_file := tmp_file w;
        lock_file := lock_file w;
        clock := (clock w + us + TICK + lag)%Z;
        lock_release := lock_release w;
        lags := tl (lags w);
        faults := faults w;
        bare_write := bare_write w |}).

(** [open(path, "r")] and [json.load] *)
Definition read_state_file : M world doc :=
  failed <- next_fault ;;
  if (failed : bool) then raise OSError
  else
    w <- get_state ;;
    match state_file w with
    | None => raise FileNotFoundError
    | Some Torn => raise JSONDecodeError
    | Some (Whole d) => ret d
    end.

(** A step has changed a data file: the world notes it when no lock file
    is there at that moment. *)
Definition note_write (w : world) : world :=
  if lock_file w then w
  else {| state_file := state_file w; tmp_file := tmp_file w;
          lock_file := lock_file w; clock := clock w;
          lock_release := lock_release w; lags := lags w; faults := faults w;
          bare_write := true |}.

(** [open(tmp, "w")]: the file is there and empty. *)
Definition open_tmp_for_writing : M world unit :=
  failed <- next_fault ;;
  if (failed : bool) then raise OSError
  else w <- get_state ;; put_state (note_write (set_tmp_file (Some Torn) w)).

(** [json.dump(data, f)] and the close of [f]: a failure leaves a part of
    the text behind. *)
Definition dump_to_tmp (data : doc) : M world unit :=
  failed <- next_fault ;;
  if (failed : bool) then raise OSError
  else w <- get_state ;; put_state (note_write (set_tmp_file (Some (Whole data)) w)).

(** [os.replace(tmp, path)]: all or nothing. *)
Definition replace_state_by_tmp : M world unit :=
  failed <- next_fault ;;
  if (failed : bool) then raise OSError
  else
    w <- get_state ;;
    match tmp_file w with
    | None => raise FileNotFoundError
    | Some f =>
        put_state (note_write (set_tmp_file None (set_state_file (Some f) w)))
    end.

(** *** The methods of [StateStore] *)

(** [0.1] seconds *)
Definition POLL_US : Z := 100000.

(** The [while True] of [_acquire_lock]; [turns] bounds the number of
    attempts. *)
Fixpoint acquire_loop (turns : nat) (timeout_s start : Z) : M world unit :=
  match turns with
  | O => fun w => (Spin, w)
  | S turns' =>
      fun w =>
        match create_lock_exclusive w with
        | (Raise FileExistsError, w1) =>
            (now <- time_time ;;
             if (now - start >? 1000000 * timeout_s)%Z
             then raise TimeoutError
             else sleep POLL_US ;;; acquire_loop turns' timeout_s start) w1
        | r => r
        end
  end.

(** Attempts that are enough for every timeout: they are more than
    100 ms apart and end when the elapsed time exceeds the timeout. *)
Definition enough_turns (timeout_s : Z) : nat := (Z.to_nat (10 * timeout_s) + 2)%nat.

Definition _acquire_lock : M machine unit :=
  s <- get_state ;;
  on_env (start <- time_time ;;
          acquire_loop (enough_turns (lock_timeout_s (self s)))
            (lock_timeout_s (self s)) start).

Definition _release_lock : M machine unit :=
  on_env (try_pass unlink_lock).

Definition _read : M machine doc := on_env read_state_file.

Definition _write (data : doc) : M machine unit :=
  on_env (open_tmp_for_writing ;;; dump_to_tmp data ;;; replace_state_by_tmp).

Definition set__data (data : doc) : M machine unit :=
  fun s =>
    (Ret tt,
     {| self := {| lock_timeout_s := lock_timeout_s (self s); _data := data |};
        env := env s |}).

(** The order of [str]: by code point, the shorter of two equal beginnings
    first. *)
Fixpoint str_leb (a b : str) : bool :=
  match a, b with
  | [], _ => true
  | _ :: _, [] => false
  | x :: a', y :: b' =>
      if x <? y then true else if x =? y then str_leb a' b' else false
  end.

Definition str_le (a b : str) : Prop := str_leb a b = true.

#[global] Instance str_le_dec a b : Decision (str_le a b).
Proof. unfold str_le. apply _. Defined.

(** [sorted(s)] for a set of keys. *)
Definition sorted (s : gset key) : list key := merge_sort str_le (elements s).

(** [data.get("seen", [])] *)
Definition get_seen (data : doc) : list key := default [] (seen data).

Definition is_seen (identity_key : key) : M machine bool :=
  s <- get_state ;;
  ret (bool_decide (identity_key ∈ get_seen (_data (self s)))).

(** The loop [for k in keys] of [add_many] on [(seen, changed)]. *)
Definition add_key (sc : gset key * bool) (k : key) : gset key * bool :=
  if bool_decide (k ∈ sc.1) then sc else ({[k]} ∪ sc.1, true).

(** The body of the [try] block of [add_many]. *)
Definition update_seen (keys : list key) : M machine unit :=
  data <- _read ;;
  let seen0 : gset key := list_to_set (get_seen data) in
  let '(seen1, changed) := fold_left add_key keys (seen0, false) in
  if (changed : bool) then
    let data :=
      {| version := Some 1%Z; seen := Some (sorted seen1); extra := extra data |} in
    _write data ;;; set__data data
  else ret tt.

Definition add_many (keys : list key) : M machine unit :=
  let keys := List.filter truthy keys in
  match keys with
  | [] => ret tt
  | _ :: _ =>
      _acquire_lock ;;;
      try_finally (update_seen keys) _release_lock
  end.

(** [StateStore(path, lock_timeout_s)]; the directory is taken to exist. *)
Definition __init__ (timeout_s : Z) : M world StateStore :=
  w <- get_state ;;
  (match state_file w with
   | None =>
       open_tmp_for_writing ;;;
       dump_to_tmp {| version := Some 1%Z; seen := Some []; extra := [] |} ;;;
       replace_state_by_tmp
   | Some _ => ret tt
   end) ;;;
  data <- read_state_file ;;
  ret {| lock_timeout_s := timeout_s; _data := data |}.

End State.

(** ** What the properties are stated with *)

Module UtilsSpec.
Import Py Utils.

(** Collapsing blank lines in one pass: of every run of newlines only
    the first two stay; [n] counts the newlines just passed. *)
Fixpoint collapse_go (n : nat) (s : str) : str :=
  match s with
  | [] => []
  | c :: t =>
      if c =? NL
      then if (n <? 2)%nat then c :: collapse_go (S n) t else collapse_go n t
      else c :: collapse_go 0 t
  end.

(** The text with every run of three or more newlines cut down to two. *)
Definition newline_runs_to_two (s : str) : str := collapse_go 0 s.

(** Whether no three newlines follow each other in [s], [k] newlines
    having just passed. *)
Fixpoint nl_run_ok (k : nat) (s : str) : bool :=
  match s with
  | [] => true
  | c :: t =>
      if c =? NL then (S k <? 3)%nat && nl_run_ok (S k) t else nl_run_ok 0 t
  end.

(** The length of the newlines that [s] starts with, and the place
    behind them. *)
Fixpoint nl_run (s : str) : nat :=
  match s with
  | c :: t => if NL =? c then S (nl_run t) else O
  | [] => O
  end.

Fixpoint behind_nl_run (prev : option char) (s : str) : Re.cursor :=
  match s with
  | c :: t =>
      if NL =? c then behind_nl_run (Some c) t
      else {| Re.before := prev; Re.after := s |}
  | [] => {| Re.before := prev; Re.after := [] |}
  end.

(** Whether some line of [s] is quote-prefixed, in one pass; [b] tells
    that only white space has been seen since the line began. *)
Fixpoint quote_scan (b : bool) (s : str) : bool :=
  match s with
  | [] => false
  | c :: t =>
      if b && (c =? GT) then true
      else quote_scan ((c =? NL) || (b && isspace c)) t
  end.

(** No quoted-history marker of either family in the normalised text. *)
Definition marker_free (x : str) : Prop :=
  find_cut (normalize_newlines x) = None.

(** No quote-prefixed line in the normalised text. *)
Definition quote_free (x : str) : Prop :=
  existsb is_quoted (split_nl (normalize_newlines x)) = false.

Definition extractLatest (x : str) : str := extract_latest_reply_text (Some x).

(** The body of [test_fallback_when_everything_is_quoted_in_top_part]. *)
Definition quoted_only_body : str :=
  U "> quoted only line" ++ [NL] ++
  U "> second quoted" ++ [NL] ++
  U "On Wed, Oct 22, 2025 at 8:19 PM Someone <x@y> wrote:" ++ [NL] ++
  U "> older" ++ [NL].

Definition quoted_only_expected : str :=
  U "> quoted only line" ++ [NL] ++ U "> second quoted".

(** Two quoted lines with four newlines between them, above a marker. *)
Definition spaced_quotes_body : str :=
  U " > a" ++ [NL; NL; NL; NL] ++ U "> b" ++ [NL] ++
  U "On Mon, Bob wrote:" ++ [NL] ++ U "> old".

Definition spaced_quotes_expected : str :=
  U "> a" ++ [NL; NL] ++ U "> b".

(** A body without marker and without quoted line whose extract has a
    marker: four newlines keep ["he wrote:"] out of reach of the opener,
    two do not. *)
Definition far_wrote_body : str :=
  U "On Monday" ++ [NL; NL; NL; NL] ++ U "he wrote:".

(** A body without marker and without quoted line whose extract has no
    marker either. *)
Definition plain_body : str :=
  U "  Line1" ++ [CR; NL; NL; NL; NL] ++ U "On Monday ".

(** Neither end is white space and no three newlines are in a row. *)
Definition tidy (r : str) : Prop :=
  (forall c, head r = Some c -> isspace c = false) /\
  (forall c, last r = Some c -> isspace c = false) /\
  (forall a b, r <> a ++ [NL; NL; NL] ++ b).

End UtilsSpec.

Module ParserSpec.
Import Py Re Parser.

(** The deal tag in the words of the specification: the bracketed word,
    then four to six letters or digits, then the closing bracket. *)
Definition is_alnum (c : char) : bool :=
  ((65 <=? c) && (c <=? 90)) || ((97 <=? c) && (c <=? 122))
  || ((48 <=? c) && (c <=? 57)).

Fixpoint take_alnum (s : str) : str :=
  match s with
  | c :: t => if is_alnum c then c :: take_alnum t else []
  | [] => []
  end.

Definition TAG_OPEN : str := U "[Сделка:".
Definition TAG_CLOSE : str := U "]".

(** The tag that starts exactly here, if one does. *)
Definition tag_here (s : str) : option str :=
  if startswith s TAG_OPEN then
    let r := skipn (length TAG_OPEN) s in
    let g := take_alnum r in
    if (4 <=? length g)%nat && (length g <=? 6)%nat
       && startswith (skipn (length g) r) TAG_CLOSE
    then Some g else None
  else None.

(** The first tag of a text, from the left. *)
Fixpoint first_tag (s : str) : option str :=
  match tag_here s with
  | Some g => Some g
  | None => match s with [] => None | _ :: t => first_tag t end
  end.

Definition first_tag_opt (o : option str) : option str :=
  match o with Some s => first_tag s | None => None end.

(** Subject first, body second. *)
Definition deal_tag_spec (subject body : option str) : option str :=
  match first_tag_opt subject with
  | Some g => Some g
  | None => first_tag_opt body
  end.

(** A message with nothing but a blank Message-ID. *)
Definition blank_id_message : Message :=
  Leaf [(U "Message-ID", U " ")] (U "text/plain") None (PBytes []).

(** A multipart message whose only part is an empty HTML body, and the
    same body as a message of its own. *)
Definition empty_html_part : Message := Leaf [] (U "text/html") None (PBytes []).
Definition empty_html_multipart : Message :=
  Multipart [] (U "multipart/alternative") [empty_html_part].

(** What the three pieces accept in a row: the opening, [g], the closing. *)
Definition tagged (s g : str) : Prop :=
  exists rest, s = TAG_OPEN ++ g ++ TAG_CLOSE ++ rest
               /\ forallb is_alnum g = true /\ (4 <= length g <= 6)%nat.

(** Every way in which the three pieces match in a row. *)
Definition group_candidates (c : cursor) : list str :=
  flat_map
    (fun c1 =>
       flat_map
         (fun c2 => if matches_at deal_flags DEAL_ID_post c2 then [consumed c1 c2] else [])
         (ends deal_flags DEAL_ID_grp c1))
    (ends deal_flags DEAL_ID_pre c).

(** The key that the content hash gives. *)
Definition hash_key (sha256_hexdigest : bytes -> str) (raw_bytes : bytes) : str :=
  U "sha256:" ++ sha256_hexdigest raw_bytes.

(** The header as the three look-ups of the source find it. *)
Definition message_id_header (msg : Message) : option str :=
  or_else (get msg (U "Message-ID"))
    (or_else (get msg (U "Message-Id")) (get msg (lower (U "Message-Id")))).

End ParserSpec.

Module StateSpec.
Import Py State.

(** The two data files are as they were and no fault was used up. *)
Definition same_files (w w' : world) : Prop :=
  state_file w' = state_file w /\ tmp_file w' = tmp_file w /\ faults w' = faults w.

(** What is asked of the persisted list. *)
Definition well_kept (f : option file) : Prop :=
  exists d l, f = Some (Whole d) /\ seen d = Some l
              /\ StronglySorted str_le l /\ NoDup l /\ [] ∉ l.

Definition fresh_world : world :=
  {| state_file := None; tmp_file := None; lock_file := false; clock := 0;
     lock_release := None; lags := []; faults := [];
       bare_write := false |}.

Definition empty_doc : doc := {| version := Some 1%Z; seen := Some []; extra := [] |}.

(** The document that [add_many] writes when a key is new. *)
Definition merged (d : doc) (keys : list key) : doc :=
  {| version := Some 1%Z;
     seen := Some (sorted (list_to_set (get_seen d) ∪ list_to_set keys));
     extra := extra d |}.

Definition fails {A} (o : outcome A) : Prop :=
  match o with Raise _ => True | _ => False end.

(** The lock, the clock and the foreign holder are as they were. *)
Definition same_lock (w w' : world) : Prop :=
  lock_file w' = lock_file w /\ clock w' = clock w
  /\ lock_release w' = lock_release w.

(** A fault among those that the run from [w] to [w'] used up makes the
    run fail. *)
Definition faults_surface {A} (w w' : world) (o : outcome A) : Prop :=
  exists used, faults w = used ++ faults w' /\ (In true used -> fails o).

(** A store just opened on an empty directory. *)
Definition fresh_machine (timeout_s : Z) (w : world) : machine :=
  {| self := {| lock_timeout_s := timeout_s; _data := empty_doc |};
     env := set_state_file (Some (Whole empty_doc)) w |}.

(** A run in which the dump to the temporary file fails. *)
Definition dump_fails_machine : machine :=
  fresh_machine 10
    {| state_file := None; tmp_file := None; lock_file := false; clock := 0;
       lock_release := None; lags := []; faults := [false; false; true];
       bare_write := false |}.

Definition dump_fails_run : outcome unit * machine :=
  add_many [U "a"] dump_fails_machine.



(** The extra time of the first [n] sleeps. *)
Definition lag_sum (n : nat) (l : list N) : Z :=
  fold_right (fun x acc => (Z.of_N x + acc)%Z) 0%Z (firstn n l).

(** The time of the [n]-th attempt to create the lock file, the first
    being attempt 0: [n] sleeps of something more than 100 ms after the
    start. *)
Definition attempt_time (w : world) (n : nat) : Z :=
  (clock w + (POLL_US + TICK) * Z.of_nat n + lag_sum n (lags w))%Z.

(** The world at the [n]-th attempt when the attempts before it have
    failed: the clock and the lags have moved, nothing else has. *)
Definition later (w : world) (n : nat) : world :=
  {| state_file := state_file w; tmp_file := tmp_file w; lock_file := lock_file w;
     clock := attempt_time w n; lock_release := lock_release w;
     lags := skipn n (lags w); faults := faults w; bare_write := bare_write w |}.

(** The lock file of another holder is there at time [t]. *)
Definition there_at (w : world) (t : Z) : Prop :=
  lock_file w = true
  /\ match lock_release w with Some r => (t < r)%Z | None => True end.

(** A store that knows the key ["a"], with a timeout of one second, while
    someone holds the lock file and never lets go. *)
Definition held_known_machine : machine :=
  {| self := {| lock_timeout_s := 1; _data := merged empty_doc [U "a"] |};
     env := {| state_file := Some (Whole (merged empty_doc [U "a"]));
               tmp_file := None; lock_file := true; clock := 0;
               lock_release := None; lags := []; faults := [];
       bare_write := false |} |}.


(** Two keys and an empty one, added twice to a new store. *)
Definition some_keys : list key := [U "b"; []; U "a"; U "b"].
Definition new_store : machine := fresh_machine 10 fresh_world.
Definition first_run : outcome unit * machine := add_many some_keys new_store.
Definition second_run : outcome unit * machine := add_many some_keys first_run.2.

End StateSpec.

(** ** Dates and times

    Python's [datetime] objects as the program meets them: what the fields
    of the object say, counted in microseconds since 0001-01-01T00:00:00,
    and the UTC offset of an aware object in microseconds.  Every time zone
    that reaches the program is a fixed offset ([timezone.utc], the offsets
    of parsed ISO and RFC 2822 dates, the offset of the system's zone at
    a moment). *)

Module Datetime.
Import Py.
Local Open Scope Z_scope.

Definition US_PER_SECOND : Z := 1000000.
Definition US_PER_MINUTE : Z := 60 * US_PER_SECOND.
Definition US_PER_HOUR : Z := 60 * US_PER_MINUTE.
Definition US_PER_DAY : Z := 24 * US_PER_HOUR.

(** [date.max.toordinal()], the ordinal of 9999-12-31. *)
Definition MAXORDINAL : Z := 3652059.

Record datetime := {
  wall : Z;                 (* the fields, in microseconds since 0001-01-01T00:00:00 *)
  tzinfo : option Z         (* [None] for a naive object, else [utcoffset()] *)
}.

(** A [date] is its proleptic Gregorian ordinal, [toordinal()]. *)
Definition date := Z.

Inductive error :=
| OverflowError
| TypeError
| ValueError.

Inductive res (A : Type) :=
| Ok (a : A)
| Err (e : error).
Arguments Ok {A} a.
Arguments Err {A} e.

(** [timezone.utc] *)
Definition UTC : option Z := Some 0.

(** The fields are those of a [datetime] between [datetime.min] and
    [datetime.max]. *)
Definition in_range (w : Z) : bool := (0 <=? w) && (w <? MAXORDINAL * US_PER_DAY).

(** [dt.replace(tzinfo=tz)] *)
Definition replace_tzinfo (dt : datetime) (tz : option Z) : datetime :=
  {| wall := wall dt; tzinfo := tz |}.

(** [dt + timedelta(microseconds=us)]: the fields move, the zone stays. *)
Definition add (dt : datetime) (us : Z) : res datetime :=
  let w := wall dt + us in
  if in_range w then Ok {| wall := w; tzinfo := tzinfo dt |} else Err OverflowError.

(** [dt.date()] *)
Definition date_of (dt : datetime) : date := wall dt / US_PER_DAY + 1.

(** The moment an aware object stands for, and what a naive one is
    compared by. *)
Definition instant (dt : datetime) : Z := wall dt - default 0 (tzinfo dt).

(** [a > b] and [a <= b]: objects of the same kind compare by their
    moments, a naive and an aware one do not compare. *)
Definition gt (a b : datetime) : res bool :=
  match tzinfo a, tzinfo b with
  | None, None | Some _, Some _ => Ok (instant b <? instant a)
  | _, _ => Err TypeError
  end.

Definition le (a b : datetime) : res bool :=
  match tzinfo a, tzinfo b with
  | None, None | Some _, Some _ => Ok (instant a <=? instant b)
  | _, _ => Err TypeError
  end.

(** [dt.astimezone(timezone.utc)]: the offset is taken off the fields,
    which may leave the range of [datetime].  [local_utcoffset] is the
    offset of the system's zone, which a naive object is read in. *)
Definition astimezone_utc (local_utcoffset : Z -> Z) (dt : datetime)
    : res datetime :=
  let off :=
    match tzinfo dt with
    | Some off => off
    | None => local_utcoffset (wall dt)
    end in
  match add dt (- off) with
  | Ok utc => Ok (replace_tzinfo utc UTC)
  | Err e => Err e
  end.

(** *** [isoformat] *)

(** The decimal digits of [n], most significant first. *)
Fixpoint digits (fuel : nat) (n : Z) (acc : str) : str :=
  let acc' := Z.to_N (48 + n mod 10) :: acc in
  match fuel with
  | O => acc'
  | S fuel' => if n <? 10 then acc' else digits fuel' (n / 10) acc'
  end.

(** ["%0<width>d" % n] for [0 <= n]. *)
Definition zero_padded (width : nat) (n : Z) : str :=
  let ds := digits (Z.to_nat (Z.log2 n)) n [] in
  repeat 48%N (width - length ds) ++ ds.

Definition days_before_month (leap : bool) (month : Z) : Z :=
  nth (Z.to_nat month) [0; 0; 31; 59; 90; 120; 151; 181; 212; 243; 273; 304; 334] 0
  + (if (2 <? month) && leap then 1 else 0).

Definition days_in_month (leap : bool) (month : Z) : Z :=
  nth (Z.to_nat month) [0; 31; 28; 31; 30; 31; 30; 31; 31; 30; 31; 30; 31] 0
  + (if (month =? 2) && leap then 1 else 0).

(** Year, month and day of an ordinal, as [datetime] finds them. *)
Definition ord2ymd (ordinal : Z) : Z * Z * Z :=
  let n := ordinal - 1 in
  let n400 := n / 146097 in
  let n := n mod 146097 in
  let n100 := n / 36524 in
  let n := n mod 36524 in
  let n4 := n / 1461 in
  let n := n mod 1461 in
  let n1 := n / 365 in
  let n := n mod 365 in
  let year := n400 * 400 + 1 + n100 * 100 + n4 * 4 + n1 in
  if (n1 =? 4) || (n100 =? 4) then (year - 1, 12, 31)
  else
    let leap := (n1 =? 3) && (negb (n4 =? 24) || (n100 =? 3)) in
    let month := Z.shiftr (n + 50) 5 in
    let preceding := days_before_month leap month in
    if n <? preceding
    then (year, month - 1, n - (preceding - days_in_month leap (month - 1)) + 1)
    else (year, month, n - preceding + 1).

Definition COLON : char := 58%N.

(** The offset as [isoformat] prints it: sign, hours and minutes, then
    seconds and microseconds when there are any. *)
Definition format_offset (off : Z) : str :=
  let sign := if off <? 0 then U "-" else U "+" in
  let off := Z.abs off in
  let hh := off / US_PER_HOUR in
  let mm := off mod US_PER_HOUR / US_PER_MINUTE in
  let ss := off mod US_PER_MINUTE / US_PER_SECOND in
  let us := off mod US_PER_SECOND in
  sign ++ zero_padded 2 hh ++ [COLON] ++ zero_padded 2 mm
  ++ (if (ss =? 0) && (us =? 0) then []
      else [COLON] ++ zero_padded 2 ss
           ++ (if us =? 0 then [] else U "." ++ zero_padded 6 us)).

(** [dt.isoformat()] *)
Definition isoformat (dt : datetime) : str :=
  let '(year, month, day) := ord2ymd (date_of dt) in
  let t := wall dt mod US_PER_DAY in
  let us := t mod US_PER_SECOND in
  zero_padded 4 year ++ U "-" ++ zero_padded 2 month ++ U "-" ++ zero_padded 2 day
  ++ U "T" ++ zero_padded 2 (t / US_PER_HOUR)
  ++ [COLON] ++ zero_padded 2 (t mod US_PER_HOUR / US_PER_MINUTE)
  ++ [COLON] ++ zero_padded 2 (t mod US_PER_MINUTE / US_PER_SECOND)
  ++ (if us =? 0 then [] else U "." ++ zero_padded 6 us)
  ++ match tzinfo dt with
     | Some off => format_offset off
     | None => []
     end.

End Datetime.

(** ** [app/utils.py]: dates *)

Module UtilsDates.
Import Py Datetime.

Section System.

(** The offset of the system's time zone. *)
Variable local_utcoffset : Z -> Z.
(** [datetime.fromisoformat] *)
Variable fromisoformat : str -> res datetime.

Definition to_imap_date (dt : datetime) : res date :=
  let dt :=
    match tzinfo dt with
    | None => replace_tzinfo dt UTC
    | Some _ => dt
    end in
  match astimezone_utc local_utcoffset dt with
  | Ok utc => Ok (date_of utc)
  | Err e => Err e
  end.

Definition to_utc_iso (dt : datetime) : res str :=
  let dt :=
    match tzinfo dt with
    | None => replace_tzinfo dt UTC
    | Some _ => dt
    end in
  match astimezone_utc local_utcoffset dt with
  | Ok utc => Ok (replace (U "+00:00") (U "Z") (isoformat utc))
  | Err e => Err e
  end.

(** The loop of [max_iso] on what is left of [values]. *)
Fixpoint max_iso_loop (values : list (option str)) (mx : option str)
    (mx_dt : option datetime) : res (option str) :=
  match values with
  | [] => Ok mx
  | v :: rest =>
      match v with
      | None => max_iso_loop rest mx mx_dt
      | Some v =>
          if negb (truthy v) then max_iso_loop rest mx mx_dt
          else
            match fromisoformat (replace (U "Z") (U "+00:00") v) with
            | Err e => Err e
            | Ok dt =>
                match mx_dt with
                | None => max_iso_loop rest (Some v) (Some dt)
                | Some m =>
                    match gt dt m with
                    | Err e => Err e
                    | Ok true => max_iso_loop rest (Some v) (Some dt)
                    | Ok false => max_iso_loop rest mx mx_dt
                    end
                end
            end
      end
  end.

Definition max_iso (values : list (option str)) : res (option str) :=
  max_iso_loop values None None.

End System.

End UtilsDates.

(** ** [app/parser.py]: addresses, attachments and the whole item *)

Module ParserRest.
Import Py Re Parser.

Record AttachmentMeta := {
  filename : option str;
  contentType : option str;
  size : option nat
}.

Record EmailItem := {
  messageId : str;
  subject : option str;
  from_ : option str;
  to : list str;
  cc : list str;
  date : option str;
  receivedAt : str;
  snippet : option str;
  bodyText : option str;
  bodyTextLatest : option str;
  hasHtml : bool;
  attachmentsMeta : list AttachmentMeta;
  dealId : option str
}.

(** [(part.get("Content-Disposition") or "").lower().startswith("attachment")] *)
Definition is_attachment (part : Message) : bool :=
  let disp := default [] (or_else (get part (U "Content-Disposition")) (Some [])) in
  startswith (lower disp) (U "attachment").

Section Libraries.

Variable message_from_bytes : bytes -> Message.
Variable rfc2047_decode : str -> option str.
Variable sha256_hexdigest : bytes -> str.
Variable codec_decode : str -> bytes -> option str.
Variable utf8_decode : bytes -> str.
Variable html_get_text : str -> str.
(** [email.utils.getaddresses]: pairs of a real name and an address. *)
Variable getaddresses : list str -> list (str * str).
(** [part.get_filename()] *)
Variable get_filename : Message -> option str.
(** [email.utils.parsedate_to_datetime]; [None] when it raises. *)
Variable parsedate_to_datetime : str -> option Datetime.datetime.
(** The offset of the system's time zone. *)
Variable local_utcoffset : Z -> Z.

Definition _addresses (header_val : option str) : list str :=
  match header_val with
  | None => []
  | Some h =>
      if negb (truthy h) then []
      else map (fun p => strip p.2)
             (List.filter (fun p => truthy p.2) (getaddresses [h]))
  end.

(** What the loop of [_collect_attachments_meta] appends for a part. *)
Definition meta_of (part : Message) : AttachmentMeta :=
  let filename := _decode_str rfc2047_decode (get_filename part) in
  let ctype :=
    if truthy (get_content_type part) then Some (get_content_type part) else None in
  let size :=
    match get_payload_decoded part with
    | PBytes b => Some (length b)
    | PNone => None
    | PRaises => None
    end in
  {| filename := filename; contentType := ctype; size := size |}.

Definition _collect_attachments_meta (msg : Message) : list AttachmentMeta :=
  if negb (is_multipart msg) then []
  else
    fold_left
      (fun metas part =>
         if is_attachment part then metas ++ [meta_of part] else metas)
      (walk msg) [].

Definition _to_utc_iso (dt : option Datetime.datetime)
    : Datetime.res (option str) :=
  match dt with
  | None => Datetime.Ok None
  | Some dt =>
      let dt :=
        match Datetime.tzinfo dt with
        | None => Datetime.replace_tzinfo dt Datetime.UTC
        | Some _ => dt
        end in
      match Datetime.astimezone_utc local_utcoffset dt with
      | Datetime.Ok utc =>
          Datetime.Ok
            (Some (replace (U "+00:00") (U "Z") (Datetime.isoformat utc)))
      | Datetime.Err e => Datetime.Err e
      end
  end.

(** [None] when an exception leaves the function. *)
Definition parse_email_bytes_to_item (raw_bytes : bytes)
    (internaldate_utc : Datetime.datetime) : option (EmailItem * str) :=
  let msg := message_from_bytes raw_bytes in
  let identity := _message_id_or_hash rfc2047_decode sha256_hexdigest raw_bytes msg in
  let subject := _decode_str rfc2047_decode (get msg (U "Subject")) in
  let from_raw := _decode_str rfc2047_decode (get msg (U "From")) in
  let to_list := _addresses (get msg (U "To")) in
  let cc_list := _addresses (get msg (U "Cc")) in
  let date_hdr := get msg (U "Date") in
  let parsed_date :=
    match date_hdr with
    | Some d => if truthy d then parsedate_to_datetime d else None
    | None => None
    end in
  match _extract_best_text_and_html_flag codec_decode utf8_decode html_get_text msg with
  | None => None
  | Some (body_text, has_html) =>
      let snippet :=
        match body_text with
        | Some b => if truthy b then Some (firstn 200 b) else None
        | None => None
        end in
      let body_latest :=
        if truthy_opt body_text
        then Some (Utils.extract_latest_reply_text (or_else body_text (Some [])))
        else None in
      let attachments_meta := _collect_attachments_meta msg in
      let deal_id := _pick_deal_id subject body_text in
      match (match parsed_date with
             | Some d => _to_utc_iso (Some d)
             | None => Datetime.Ok None
             end),
            _to_utc_iso (Some internaldate_utc) with
      | Datetime.Ok date, Datetime.Ok (Some received) =>
          Some ({| messageId := identity; subject := subject; from_ := from_raw;
                   to := to_list; cc := cc_list; date := date;
                   receivedAt := received; snippet := snippet;
                   bodyText := body_text; bodyTextLatest := body_latest;
                   hasHtml := has_html; attachmentsMeta := attachments_meta;
                   dealId := deal_id |}, identity)
      | _, _ => None
      end
  end.

End Libraries.

End ParserRest.

(** ** [app/imap_client.py] *)

Module Imap.
Import Py Datetime UtilsDates.

Definition bytes := Parser.bytes.

Inductive raised :=
| IMAPClientError                 (* what the client library raises *)
| ImapUpstreamError
| DateError (e : error)           (* what [datetime] raises *)
| OtherError.                     (* anything else that the client raises *)

Inductive outcome (A : Type) :=
| Return (a : A)
| Raise (e : raised).
Arguments Return {A} a.
Arguments Raise {A} e.

(** The dict of one message in the response of [client.fetch]: what it
    holds under the four keys that the code asks for, and whether it holds
    anything else. *)
Record fetched := {
  RFC822_bytes_key : option bytes;            (* [msg.get(b"RFC822")] *)
  RFC822_str_key : option bytes;              (* [msg.get("RFC822")] *)
  INTERNALDATE_bytes_key : option datetime;   (* [msg.get(b"INTERNALDATE")] *)
  INTERNALDATE_str_key : option datetime;     (* [msg.get("INTERNALDATE")] *)
  other_keys : bool
}.

(** The two calls of an [IMAPClient] that the service makes once it is
    logged in. *)
Record IMAPClient := {
  search : date -> date -> outcome (list Z);   (* [["SINCE", d1, "BEFORE", d2]] *)
  fetch : list Z -> outcome (gmap Z fetched)   (* [["RFC822", "INTERNALDATE"]] *)
}.

(** [sorted(uids)] *)
Definition sorted (uids : list Z) : list Z := merge_sort Z.le uids.

(** Truthiness of the dict. *)
Definition truthy_msg (msg : fetched) : bool :=
  match RFC822_bytes_key msg, RFC822_str_key msg,
        INTERNALDATE_bytes_key msg, INTERNALDATE_str_key msg with
  | None, None, None, None => other_keys msg
  | _, _, _, _ => true
  end.

(** [a or b] for two results of [msg.get]. *)
Definition or_bytes (a b : option bytes) : option bytes :=
  match a with
  | Some (_ :: _) => a
  | _ => b
  end.

Definition or_datetime (a b : option datetime) : option datetime :=
  match a with
  | Some _ => a
  | None => b
  end.

Section System.

Variable local_utcoffset : Z -> Z.

Definition search_uids_in_date_window (client : IMAPClient)
    (since until : datetime) : outcome (list Z) :=
  match to_imap_date local_utcoffset since with
  | Err e => Raise (DateError e)
  | Ok since_date =>
      match add until US_PER_DAY with
      | Err e => Raise (DateError e)
      | Ok next_day =>
          match to_imap_date local_utcoffset next_day with
          | Err e => Raise (DateError e)
          | Ok before_date =>
              match search client since_date before_date with
              | Return uids => Return (sorted uids)
              | Raise IMAPClientError => Raise ImapUpstreamError
              | Raise e => Raise e
              end
          end
      end
  end.

(** The loop of [fetch_rfc822_and_internaldate] on what is left of
    [uids]. *)
Fixpoint fetch_loop (response : gmap Z fetched) (uids : list Z)
    (out : list (Z * bytes * datetime)) : outcome (list (Z * bytes * datetime)) :=
  match uids with
  | [] => Return out
  | uid :: rest =>
      match response !! uid with
      | None => fetch_loop response rest out
      | Some msg =>
          if negb (truthy_msg msg) then fetch_loop response rest out
          else
            let raw := or_bytes (RFC822_bytes_key msg) (RFC822_str_key msg) in
            let internal :=
              or_datetime (INTERNALDATE_bytes_key msg) (INTERNALDATE_str_key msg) in
            match raw, internal with
            | Some raw, Some internal =>
                let internal :=
                  match tzinfo internal with
                  | None => replace_tzinfo internal UTC
                  | Some _ => internal
                  end in
                match astimezone_utc local_utcoffset internal with
                | Err e => Raise (DateError e)
                | Ok internal_utc =>
                    fetch_loop response rest (out ++ [(uid, raw, internal_utc)])
                end
            | _, _ => fetch_loop response rest out
            end
      end
  end.

Definition fetch_rfc822_and_internaldate (client : IMAPClient) (uids : list Z)
    : outcome (list (Z * bytes * datetime)) :=
  match uids with
  | [] => Return []
  | _ :: _ =>
      match fetch client uids with
      | Raise IMAPClientError => Raise ImapUpstreamError
      | Raise e => Raise e
      | Return response => fetch_loop response uids []
      end
  end.

End System.

End Imap.

(** ** [app/main.py]: the handler of [POST /fetch] *)

Module Main.
Import Py Datetime UtilsDates Imap.

(** [FetchRequest] *)
Record FetchRequest := {
  since : datetime;
  until : datetime
}.

(** [Settings] of [app/config.py] *)
Record Settings := {
  IMAP_HOST : str;
  IMAP_PORT : Z;
  IMAP_SSL : bool;
  IMAP_USERNAME : str;
  IMAP_PASSWORD : str;
  IMAP_FOLDER : str;
  STATE_PATH : str
}.

(** What becomes of a request: the response, an [HTTPException] with
    its status code, an exception that leaves the handler, or no end. *)
Inductive reply :=
| JSONResponse (mostRecentReceivedAt : option str) (count : nat)
    (items : list ParserRest.EmailItem)
| HTTPException (status_code : Z)
| Unhandled (e : error)           (* an exception of [datetime] *)
| SettingsError                   (* the [ValidationError] of [Settings()] *)
| Hangs.

(** [except ImapUpstreamError] gives 502, [except Exception] gives 500;
    an [IMAPClientError] that reaches the context manager of the
    connection leaves it as [ImapUpstreamError]. *)
Definition status_of (e : raised) : Z :=
  match e with
  | IMAPClientError | ImapUpstreamError => 502
  | DateError _ | OtherError => 500
  end.

(** [state.is_seen(identity_key)] *)
Definition seen_by (state : State.StateStore) (w : State.world) (k : str) : bool :=
  match (State.is_seen k {| State.self := state; State.env := w |}).1 with
  | State.Ret b => b
  | _ => false
  end.

Section Service.

Variable message_from_bytes : bytes -> Parser.Message.
Variable rfc2047_decode : str -> option str.
Variable sha256_hexdigest : bytes -> str.
Variable codec_decode : str -> bytes -> option str.
Variable utf8_decode : bytes -> str.
Variable html_get_text : str -> str.
Variable getaddresses : list str -> list (str * str).
Variable get_filename : Parser.Message -> option str.
Variable parsedate_to_datetime : str -> option datetime.
Variable local_utcoffset : Z -> Z.
(** [datetime.fromisoformat] *)
Variable fromisoformat : str -> res datetime.
(** [dt.astimezone(tz=None)]: the object in the time zone of the system,
    which raises when the fields would leave the range of [datetime]. *)
Variable astimezone_local : datetime -> res datetime.
(** [FetchResponse(...)], [resp.model_dump()] and [JSONResponse(...)]:
    whether the response is built without an exception. *)
Variable response_is_built :
  option str -> nat -> list ParserRest.EmailItem -> bool.

(** [req.since_iso] and [req.until_iso] of [app/models.py] *)
Definition since_iso (req : FetchRequest) : res str :=
  match astimezone_local (since req) with
  | Err e => Err e
  | Ok l =>
      match astimezone_local l with
      | Err e => Err e
      | Ok l' => Ok (isoformat l')
      end
  end.

Definition until_iso (req : FetchRequest) : res str :=
  match astimezone_local (until req) with
  | Err e => Err e
  | Ok l =>
      match astimezone_local l with
      | Err e => Err e
      | Ok l' => Ok (isoformat l')
      end
  end.

Definition parse_email_bytes_to_item :=
  ParserRest.parse_email_bytes_to_item message_from_bytes rfc2047_decode
    sha256_hexdigest codec_decode utf8_decode html_get_text getaddresses
    get_filename parsedate_to_datetime local_utcoffset.

(** [item.receivedAt_dt] *)
Definition receivedAt_dt (item : ParserRest.EmailItem) : res datetime :=
  fromisoformat (replace (U "Z") (U "+00:00") (ParserRest.receivedAt item)).

(** [req.since <= item.receivedAt_dt <= req.until] *)
Definition in_window (req : FetchRequest) (item : ParserRest.EmailItem)
    : res bool :=
  match receivedAt_dt item with
  | Err e => Err e
  | Ok t =>
      match le (since req) t with
      | Err e => Err e
      | Ok false => Ok false
      | Ok true => le t (until req)
      end
  end.

(** The loop over the fetched messages, on [items] and
    [newly_seen_keys].  The record of a message outside the window in the
    log takes [req.since_iso] and [req.until_iso]. *)
Fixpoint select (req : FetchRequest) (state : State.StateStore) (w : State.world)
    (fetched : list (Z * bytes * datetime))
    (items : list ParserRest.EmailItem) (newly_seen_keys : list str)
    : res (list ParserRest.EmailItem * list str) :=
  match fetched with
  | [] => Ok (items, newly_seen_keys)
  | (uid, raw, internaldate) :: rest =>
      match parse_email_bytes_to_item raw internaldate with
      | None => select req state w rest items newly_seen_keys
      | Some (item, identity_key) =>
          if seen_by state w identity_key
          then select req state w rest items newly_seen_keys
          else
            match in_window req item with
            | Err e => Err e
            | Ok false =>
                match since_iso req with
                | Err e => Err e
                | Ok _ =>
                    match until_iso req with
                    | Err e => Err e
                    | Ok _ => select req state w rest items newly_seen_keys
                    end
                end
            | Ok true =>
                select req state w rest (items ++ [item])
                  (newly_seen_keys ++ [identity_key])
            end
      end
  end.

(** The handler.  [get_settings] is what [get_settings()] comes to,
    [None] when the settings do not load; [connect_and_login] is what
    [IMAPClient(...)], [login] and [select_folder] come to with these
    settings.  The world holds the one state file, at [STATE_PATH].  The
    record of the start in the log takes [req.since_iso] and
    [req.until_iso]. *)
Definition fetch_emails (get_settings : option Settings)
    (connect_and_login : Settings -> outcome IMAPClient) (req : FetchRequest)
    (w : State.world) : reply * State.world :=
  match get_settings with
  | None => (SettingsError, w)
  | Some settings =>
  match gt (since req) (until req) with
  | Err e => (Unhandled e, w)
  | Ok true => (HTTPException 400, w)
  | Ok false =>
      match State.__init__ 10 w with
      | (State.Raise _, w1) => (HTTPException 500, w1)
      | (State.Spin, w1) => (Hangs, w1)
      | (State.Ret state, w1) =>
          match since_iso req with
          | Err _ => (HTTPException 500, w1)
          | Ok _ =>
          match until_iso req with
          | Err _ => (HTTPException 500, w1)
          | Ok _ =>
          match connect_and_login settings with
          | Raise e => (HTTPException (status_of e), w1)
          | Return client =>
              match search_uids_in_date_window local_utcoffset client
                      (since req) (until req) with
              | Raise e => (HTTPException (status_of e), w1)
              | Return uids =>
                  match fetch_rfc822_and_internaldate local_utcoffset client uids with
                  | Raise e => (HTTPException (status_of e), w1)
                  | Return fetched =>
                      match select req state w1 fetched [] [] with
                      | Err _ => (HTTPException 500, w1)
                      | Ok (items, newly_seen_keys) =>
                          match State.add_many newly_seen_keys
                                  {| State.self := state; State.env := w1 |} with
                          | (State.Raise _, m) => (HTTPException 500, State.env m)
                          | (State.Spin, m) => (Hangs, State.env m)
                          | (State.Ret _, m) =>
                              match max_iso fromisoformat
                                      (map (fun i => Some (ParserRest.receivedAt i)) items) with
                              | Err _ => (HTTPException 500, State.env m)
                              | Ok most_recent =>
                                  if response_is_built most_recent (length items) items
                                  then (JSONResponse most_recent (length items) items,
                                        State.env m)
                                  else (HTTPException 500, State.env m)
                              end
                          end
                      end
                  end
              end
          end
          end
          end
      end
  end
  end.

End Service.

End Main.

Module DateSpec.
Import Py Datetime UtilsDates.
Local Open Scope Z_scope.

Section Parsed.
Variable fromisoformat : str -> res datetime.

(** [datetime.fromisoformat(v.replace("Z", "+00:00"))] *)
Definition parsed (v : str) : res datetime :=
  fromisoformat (replace (U "Z") (U "+00:00") v).

(** Every non-empty value of [vs] parses and is earlier than [dt]. *)
Definition all_earlier (dt : datetime) (vs : list (option str)) : Prop :=
  forall u, In (Some u) vs -> u <> [] ->
    exists du, parsed u = Ok du /\ gt dt du = Ok true.

(** Every non-empty value of [vs] parses and is not later than [dt]. *)
Definition none_later (dt : datetime) (vs : list (option str)) : Prop :=
  forall u, In (Some u) vs -> u <> [] ->
    exists du, parsed u = Ok du /\ gt du dt = Ok false.

End Parsed.

(** A decimal digit. *)
Definition is_digit (c : char) : Prop := (48 <= c <= 57)%N.

(** The UTC date of the moment of [dt]. *)
Definition utc_date (dt : datetime) : date := instant dt / US_PER_DAY + 1.

(** The fields say 2025-10-22T20:19:00 at UTC+03:00. *)
Definition evening_in_sofia : datetime :=
  {| wall := 63896761140000000; tzinfo := Some (3 * US_PER_HOUR) |}.

End DateSpec.

Module ImapSpec.
Import Py Datetime UtilsDates DateSpec Imap.
Local Open Scope Z_scope.

(** What stands for one message in the answer of a server. *)
Definition one_message : fetched :=
  {| RFC822_bytes_key := Some [Byte.x68; Byte.x69];
     RFC822_str_key := None;
     INTERNALDATE_bytes_key := Some evening_in_sofia;
     INTERNALDATE_str_key := None;
     other_keys := true |}.

(** A server that finds three messages and knows one of them. *)
Definition small_server : IMAPClient :=
  {| search := fun _ _ => Return [3; 1; 2];
     fetch := fun _ => Return {[ 2 := one_message ]} |}.

(** Four hours after [evening_in_sofia], on the next day there. *)
Definition night_in_sofia : datetime :=
  {| wall := wall evening_in_sofia + 4 * US_PER_HOUR;
     tzinfo := Some (3 * US_PER_HOUR) |}.

End ImapSpec.

Module ParserRestSpec.
Import Py Re Parser ParserRest.

(** The parts that the search for the body text reads: those that are
    no containers and no attachments. *)
Definition read_for_text (part : Message) : bool :=
  negb (is_multipart part) && negb (is_attachment part).

(** What the loop over [msg.walk()] starts from. *)
Definition no_parts : acc := {| plain_parts := []; html_parts := []; has_html := false |}.

(** The fields that the item of [Parser] has. *)
Definition short_item (item : ParserRest.EmailItem) : Parser.EmailItem :=
  {| Parser.messageId := messageId item; Parser.subject := subject item;
     Parser.snippet := snippet item; Parser.bodyText := bodyText item;
     Parser.bodyTextLatest := bodyTextLatest item; Parser.hasHtml := hasHtml item;
     Parser.dealId := dealId item |}.

(** Libraries small enough to run: the bytes of a payload are its code
    points, the only codec is ["utf-8"], and nothing else is decoded. *)
Definition toy_codec (charset : str) (b : bytes) : option str :=
  if str_eqb charset (U "utf-8") then Some (map Byte.to_N b) else None.
Definition toy_utf8 (b : bytes) : str := map Byte.to_N b.
Definition toy_getaddresses (hs : list str) : list (str * str) :=
  map (fun h => ([], h)) hs.

Definition hi : bytes := [Byte.x68; Byte.x69].

(** A text part in a charset that the codec does not know. *)
Definition latin_part : Message :=
  Leaf [] (U "text/plain") (Some (U "latin-9")) (PBytes hi).

(** A report attached to a short note. *)
Definition note_with_report : Message :=
  Multipart [] (U "multipart/mixed")
    [ Leaf [] (U "text/plain") None (PBytes hi);
      Leaf [(U "Content-Disposition", U "attachment; filename=r.html")]
        (U "text/html") None (PBytes hi) ].

(** The same note with another report. *)
Definition note_with_other_report : Message :=
  Multipart [] (U "multipart/mixed")
    [ Leaf [] (U "text/plain") None (PBytes hi);
      Leaf [(U "Content-Disposition", U "Attachment")]
        (U "text/plain") None (PBytes [Byte.x41]) ].

(** A note with a date. *)
Definition dated_note : Message :=
  Leaf [(U "Date", U "Fri, 31 Dec 9999 23:59:59 -0100"); (U "Message-ID", U "<1@x>")]
    (U "text/plain") None (PBytes hi).

(** The last second of the year 9999, one hour behind UTC. *)
Definition last_second : Datetime.datetime :=
  {| Datetime.wall :=
       (Datetime.MAXORDINAL * Datetime.US_PER_DAY - Datetime.US_PER_SECOND)%Z;
     Datetime.tzinfo := Some (- Datetime.US_PER_HOUR)%Z |}.

(** The parser on [dated_note], with a date library that reads the date
    header as [d]. *)
Abbreviation parse_dated_note d :=
  (parse_email_bytes_to_item (fun _ => dated_note) (fun s => Some s) (fun _ => [])
     toy_codec toy_utf8 (fun s => s) toy_getaddresses (fun _ => None)
     (fun _ => Some d) (fun _ => 0%Z) []).

(** The first moment that a [datetime] can hold, naive. *)
Definition first_moment : Datetime.datetime :=
  {| Datetime.wall := 0; Datetime.tzinfo := None |}.

(** A blank plain part beside an HTML part. *)
Definition blank_plain_and_html : Message :=
  Multipart [] (U "multipart/alternative")
    [ Leaf [] (U "text/plain") None (PBytes [Byte.x20; Byte.x0a]);
      Leaf [] (U "text/html") None (PBytes hi) ].

End ParserRestSpec.

Module MainSpec.
Import Py Datetime UtilsDates Imap Main.
Local Open Scope Z_scope.

(** The keys that the state file holds; none when there is no file or no
    document in it. *)
Definition known (w : State.world) : list str :=
  match State.state_file w with
  | Some (State.Whole d) => State.get_seen d
  | _ => []
  end.

(** Whether an object is aware. *)
Definition aware (dt : datetime) : bool :=
  match tzinfo dt with Some _ => true | None => false end.

(** A date library small enough to run: a text stands for the moment
    that is as many days after the first one as it has characters, in
    UTC. *)
Definition toy_fromisoformat (s : str) : res datetime :=
  Ok {| wall := Z.of_nat (length s) * US_PER_DAY; tzinfo := Some 0 |}.

(** A request for everything up to the year 2029. *)
Definition any_time : FetchRequest :=
  {| since := {| wall := 0; tzinfo := Some 0 |};
     until := {| wall := 64000000000000000; tzinfo := Some 0 |} |}.

(** A request with its ends the wrong way round. *)
Definition backwards : FetchRequest :=
  {| since := until any_time; until := since any_time |}.

(** Settings that load. *)
Definition some_settings : Settings :=
  {| IMAP_HOST := U "imap.example.org"; IMAP_PORT := 993; IMAP_SSL := true;
     IMAP_USERNAME := U "box"; IMAP_PASSWORD := U "secret";
     IMAP_FOLDER := U "INBOX"; STATE_PATH := U "./state/state.json" |}.

(** A system whose time zone is UTC. *)
Definition utc_system (dt : datetime) : res datetime :=
  astimezone_utc (fun _ => 0) dt.

(** The handler with the small libraries and settings that load. *)
Abbreviation serve connect req w :=
  (fetch_emails (fun _ => ParserRestSpec.dated_note) (fun s => Some s) (fun _ => [])
     ParserRestSpec.toy_codec ParserRestSpec.toy_utf8 (fun s => s)
     ParserRestSpec.toy_getaddresses (fun _ => None)
     (fun _ => None) (fun _ => 0) toy_fromisoformat utc_system (fun _ _ _ => true)
     (Some some_settings) (fun _ => connect) req w).

(** The same handler when the response cannot be built. *)
Abbreviation serve_unbuilt connect req w :=
  (fetch_emails (fun _ => ParserRestSpec.dated_note) (fun s => Some s) (fun _ => [])
     ParserRestSpec.toy_codec ParserRestSpec.toy_utf8 (fun s => s)
     ParserRestSpec.toy_getaddresses (fun _ => None)
     (fun _ => None) (fun _ => 0) toy_fromisoformat utc_system (fun _ _ _ => false)
     (Some some_settings) (fun _ => connect) req w).

(** The loop of the handler with the small libraries, from nothing. *)
Abbreviation pick req st w msgs :=
  (select (fun _ => ParserRestSpec.dated_note) (fun s => Some s) (fun _ => [])
     ParserRestSpec.toy_codec ParserRestSpec.toy_utf8 (fun s => s)
     ParserRestSpec.toy_getaddresses (fun _ => None)
     (fun _ => None) (fun _ => 0) toy_fromisoformat utc_system req st w msgs [] []).

(** A store that has seen nothing. *)
Definition blank_store : State.StateStore :=
  {| State.lock_timeout_s := 10; State._data := StateSpec.empty_doc |}.

(** One fetched message. *)
Definition one_fetched : list (Z * bytes * datetime) :=
  [(2, ParserRestSpec.hi, {| wall := instant DateSpec.evening_in_sofia; tzinfo := Some 0 |})].

(** The world after a first request to [ImapSpec.small_server], which
    holds the message [ParserRestSpec.dated_note] under UID 2. *)
Definition after_first_fetch : State.world :=
  (serve (Return ImapSpec.small_server) any_time StateSpec.fresh_world).2.

End MainSpec.

Module CutSpec.
Import Py Re Utils.

(** Where the quoted-history markers of [text] start: the "On ... wrote:"
    marker, then the first match of every marker pattern that matches. *)
Definition marker_starts (text : str) : list nat :=
  match _find_on_wrote_marker_index text with Some c => [c] | None => [] end
  ++ omap (fun pat => search im pat text) _MARKER_LINE_PATTERNS.

(** The place [c] of [text] is where a line begins. *)
Definition line_start (text : str) (c : nat) : Prop :=
  (c <= length text)%nat /\ (c = 0%nat \/ text !! (c - 1)%nat = Some NL).

(** Whether a pattern begins with [^]. *)
Definition anchored (r : regex) : bool :=
  match r with Cat Bol _ => true | _ => false end.

(** The character before place [k] of [s], [prev] standing before [s]. *)
Definition char_before (prev : option char) (s : str) (k : nat) : option char :=
  match k with O => prev | S k' => s !! k' end.

(** Line [i] begins like "On ..." and a "wrote:" ends that line or one
    of the two lines below it. *)
Definition on_wrote_at (lines : list str) (i : nat) : bool :=
  match lines !! i with
  | Some ln => found (search i_only on_re ln)
  | None => false
  end
  && (wrote_on_line lines i || wrote_on_line lines (i + 1)
      || wrote_on_line lines (i + 2)).

(** A reply above a forwarded header block. *)
Definition reply_above_header : str :=
  U "Thanks, see you then." ++ [NL; NL] ++ U "From: Someone <x@y>" ++ [NL]
  ++ U "Sent: Monday" ++ [NL].

End CutSpec.

Module StoreSpec.
Import Py State StateSpec.

(** A world in which [add_many] meets no obstacle: the state file holds
    the document [d], nobody holds the lock and no step fails. *)
Definition calm (m : machine) (d : doc) : Prop :=
  state_file (env m) = Some (Whole d) /\ lock_file (env m) = false
  /\ faults (env m) = [].

(** The snapshot of the store is what the state file holds. *)
Definition in_step (m : machine) : Prop :=
  state_file (env m) = Some (Whole (_data (self m))).

(** The machine after [data] has been written and taken as the snapshot. *)
Definition written (data : doc) (m : machine) : machine :=
  {| self := {| lock_timeout_s := lock_timeout_s (self m); _data := data |};
     env := set_tmp_file None (set_state_file (Some (Whole data)) (env m)) |}.

(** Whether every non-empty key of [keys] is in the list of [d]. *)
Definition all_known (d : doc) (keys : list key) : bool :=
  forallb (fun k => bool_decide (k ∈ get_seen d)) (List.filter truthy keys).

(** A store whose snapshot is older than the file: another process has
    added the key ["a"] since the store was opened. *)
Definition stale_store : machine :=
  {| self := {| lock_timeout_s := 10; _data := empty_doc |};
     env := set_state_file (Some (Whole (merged empty_doc [U "a"]))) fresh_world |}.

(** A state file that [json.load] refuses. *)
Definition torn_world : world := set_state_file (Some Torn) fresh_world.

End StoreSpec.

(** ** Facts about the string functions *)

Module PyFacts.
Import Py.

Lemma isspace_NL : isspace NL = true.
Proof. reflexivity. Qed.

Lemma isspace_GT : isspace GT = false.
Proof. reflexivity. Qed.

Lemma not_space_not_NL c : isspace c = false -> (c =? NL) = false.
Proof.
  intros H. destruct (N.eqb_spec c NL) as [->|]; [now rewrite isspace_NL in H | easy].
Qed.

Lemma lstrip_split s :
  exists ws, s = ws ++ lstrip s /\ forallb isspace ws = true.
Proof.
  induction s as [|c t [ws [E H]]]; [now exists []|].
  simpl. destruct (isspace c) eqn:Hc.
  - exists (c :: ws). simpl. rewrite Hc, H. split; [now f_equal | easy].
  - now exists [].
Qed.

Lemma lstrip_head s c : head (lstrip s) = Some c -> isspace c = false.
Proof.
  induction s as [|x t IH]; simpl; [easy|].
  destruct (isspace x) eqn:Hx; [exact IH|].
  simpl. now intros [= <-].
Qed.

Lemma lstrip_id s :
  (forall c, head s = Some c -> isspace c = false) -> lstrip s = s.
Proof.
  destruct s as [|x t]; simpl; [easy|].
  intros H. now rewrite (H x eq_refl).
Qed.

Lemma lstrip_all_space s : forallb isspace s = true -> lstrip s = [].
Proof.
  induction s as [|x t IH]; simpl; [easy|].
  intros [Hx Ht]%andb_true_iff. rewrite Hx. auto.
Qed.

Lemma last_rev (s : str) : last (rev s) = head s.
Proof. destruct s as [|x t]; simpl; [easy | apply last_snoc]. Qed.

Lemma head_rev (s : str) : head (rev s) = last s.
Proof. rewrite <- (rev_involutive s) at 2. now rewrite last_rev. Qed.

Lemma forallb_rev_true (f : char -> bool) s :
  forallb f s = true -> forallb f (rev s) = true.
Proof.
  rewrite !forallb_forall. intros H x Hx. apply H. now apply in_rev.
Qed.

Lemma rstrip_split s :
  exists ws, s = rstrip s ++ ws /\ forallb isspace ws = true.
Proof.
  unfold rstrip. destruct (lstrip_split (rev s)) as [ws [E H]].
  exists (rev ws). split.
  - rewrite <- rev_app_distr, <- E. now rewrite rev_involutive.
  - now apply forallb_rev_true.
Qed.

Lemma rstrip_last s c : last (rstrip s) = Some c -> isspace c = false.
Proof. unfold rstrip. rewrite last_rev. apply lstrip_head. Qed.

Lemma rstrip_id s :
  (forall c, last s = Some c -> isspace c = false) -> rstrip s = s.
Proof.
  intros H. unfold rstrip. rewrite lstrip_id; [apply rev_involutive|].
  intros c. rewrite head_rev. apply H.
Qed.

Lemma rstrip_head s c :
  (forall d, head s = Some d -> isspace d = false) ->
  head (rstrip s) = Some c -> isspace c = false.
Proof.
  intros Hs. destruct (rstrip_split s) as [ws [E _]].
  destruct (rstrip s) as [|x t]; [easy|].
  simpl. intros [= <-]. apply Hs. now rewrite E.
Qed.

(** [strip] leaves no white space at either end. *)
Lemma strip_head s c : head (strip s) = Some c -> isspace c = false.
Proof. unfold strip. apply rstrip_head. intros d. apply lstrip_head. Qed.

Lemma strip_last s c : last (strip s) = Some c -> isspace c = false.
Proof. unfold strip. apply rstrip_last. Qed.

Lemma strip_id s :
  (forall c, head s = Some c -> isspace c = false) ->
  (forall c, last s = Some c -> isspace c = false) ->
  strip s = s.
Proof. intros Hh Hl. unfold strip. rewrite lstrip_id by exact Hh. now apply rstrip_id. Qed.

Lemma strip_split s :
  exists a b, s = a ++ strip s ++ b
              /\ forallb isspace a = true /\ forallb isspace b = true.
Proof.
  destruct (lstrip_split s) as [a [Ea Ha]].
  destruct (rstrip_split (lstrip s)) as [b [Eb Hb]].
  exists a, b. unfold strip. now rewrite <- Eb, <- Ea.
Qed.

Lemma strip_all_space s : forallb isspace s = true -> strip s = [].
Proof. intros H. unfold strip. now rewrite lstrip_all_space. Qed.

(** A character that is not white space survives [strip]. *)
Lemma strip_keeps s c : isspace c = false -> In c s -> In c (strip s).
Proof.
  intros Hc Hin. destruct (strip_split s) as [a [b [E [Ha Hb]]]].
  rewrite E in Hin. rewrite !in_app_iff in Hin.
  rewrite forallb_forall in Ha, Hb.
  destruct Hin as [Hin|[Hin|Hin]]; [|easy|].
  - apply Ha in Hin. congruence.
  - apply Hb in Hin. congruence.
Qed.

Lemma strip_Forall (P : char -> Prop) s : Forall P s -> Forall P (strip s).
Proof.
  intros H. destruct (strip_split s) as [a [b [E _]]].
  rewrite E in H. apply Forall_app in H as [_ H]. now apply Forall_app in H as [H _].
Qed.

(** *** Lines *)

Lemma split_nl_not_nil s : split_nl s <> [].
Proof.
  destruct s as [|c t]; simpl; [easy|].
  destruct (c =? NL); [easy|]. now destruct (split_nl t).
Qed.

Lemma join_split s : join_nl (split_nl s) = s.
Proof.
  induction s as [|c t IH]; [easy|].
  simpl. pose proof (split_nl_not_nil t) as Hne.
  destruct (N.eqb_spec c NL) as [->|Hc].
  - destruct (split_nl t) as [|l ls]; [easy|].
    change (join_nl ([] :: l :: ls)) with ([] ++ NL :: join_nl (l :: ls)).
    now rewrite IH.
  - destruct (split_nl t) as [|l ls]; [easy|].
    destruct ls as [|l' ls]; simpl in *; now rewrite IH.
Qed.

(** The characters of a line are characters of the text. *)
Lemma split_nl_In s : forall l c, In l (split_nl s) -> In c l -> In c s.
Proof.
  induction s as [|x t IH]; intros l c.
  - simpl. intros [<-|[]]. easy.
  - simpl. destruct (x =? NL).
    + intros [<-|Hl]; [easy|]. right. eauto.
    + pose proof (split_nl_not_nil t) as Hne.
      destruct (split_nl t) as [|l0 ls]; [easy|].
      intros [<-|Hl].
      * intros [->|Hc]; [now left | right]. apply (IH l0); [now left | easy].
      * intros Hc. right. apply (IH l); [now right | easy].
Qed.

(** Joining lines of white space gives white space. *)
Lemma join_all_space ls :
  Forall (fun l => forallb isspace l = true) ls ->
  forallb isspace (join_nl ls) = true.
Proof.
  induction ls as [|l ls IH]; [easy|].
  intros H. apply Forall_cons in H as [Hl Hls].
  destruct ls as [|l' ls]; [exact Hl|].
  change (join_nl (l :: l' :: ls)) with (l ++ NL :: join_nl (l' :: ls)).
  rewrite forallb_app, Hl. cbn [forallb andb]. now rewrite IH.
Qed.

(** *** Replacing *)

Lemma replace_go_absent (x : char) old new s : forall fuel,
  Forall (fun c => c <> x) s -> replace_go fuel (x :: old) new s = s.
Proof.
  induction s as [|c t IH]; intros fuel H; destruct fuel as [|fuel]; try easy.
  apply Forall_cons in H as [Hc Ht]. cbn [replace_go startswith].
  destruct (N.eqb_spec x c); [congruence|]. simpl. now rewrite IH.
Qed.

Lemma startswith_nil s : startswith s [] = true.
Proof. now destruct s. Qed.

Lemma replace_cr_gone s : forall fuel,
  (length s <= fuel)%nat -> Forall (fun c => c <> CR) (replace_go fuel [CR] [NL] s).
Proof.
  induction s as [|c t IH]; intros fuel Hf.
  - destruct fuel; constructor.
  - destruct fuel as [|fuel]; [simpl in Hf; lia|].
    simpl in Hf. cbn [replace_go startswith length skipn].
    rewrite startswith_nil, andb_true_r.
    destruct (N.eqb_spec CR c) as [<-|Hc]; simpl.
    + constructor; [easy|]. apply IH. lia.
    + constructor; [congruence|]. apply IH. lia.
Qed.

End PyFacts.

(** ** The reply-text extractor *)

Module UtilsFacts.
Import Py Utils UtilsSpec PyFacts.
Import Re.

(** *** The substitution of [collapse_blank_lines], in one pass *)

Lemma cursor_eta (c : cursor) : {| before := before c; after := after c |} = c.
Proof. now destruct c. Qed.

Lemma nl_step c :
  ends no_flags (Lit NL) c = step_if (fun x => NL =? x) c.
Proof. reflexivity. Qed.

(** A greedy run of newlines ends behind the whole run first. *)
Lemma rep_nl_head : forall fuel lo c,
  (length (after c) < fuel)%nat -> (lo <= nl_run (after c))%nat ->
  head (rep_go (ends no_flags (Lit NL)) fuel lo None c)
  = Some (behind_nl_run (before c) (after c)).
Proof.
  induction fuel as [|fuel IH]; intros lo c Hfuel Hlo; [lia|].
  cbn [rep_go]. rewrite nl_step. unfold step_if.
  destruct (after c) as [|x t] eqn:E.
  - simpl in Hlo. assert (lo = 0)%nat as -> by lia. simpl.
    now rewrite <- E, cursor_eta.
  - cbn [nl_run behind_nl_run] in *. destruct (NL =? x) eqn:Hx.
    + cbn [flat_map]. unfold moved. rewrite E. cbn [after length].
      destruct (Nat.ltb_spec (length t) (S (length t))) as [_|]; [|lia].
      rewrite app_nil_r. change (pred <$> None) with (@None nat).
      specialize (IH (pred lo) {| before := Some x; after := t |}).
      cbn [before after] in IH. simpl in Hfuel.
      specialize (IH ltac:(lia) ltac:(lia)).
      destruct (rep_go _ fuel (pred lo) None _) as [|c1 l]; [easy|]. exact IH.
    + assert (lo = 0)%nat as -> by lia. simpl. now rewrite <- E, cursor_eta.
Qed.

(** A run that is too short is no match. *)
Lemma rep_nl_short : forall fuel lo c,
  (nl_run (after c) < lo)%nat ->
  rep_go (ends no_flags (Lit NL)) fuel lo None c = [].
Proof.
  induction fuel as [|fuel IH]; intros lo c Hlo.
  - simpl. destruct lo; [lia | easy].
  - cbn [rep_go]. rewrite nl_step. unfold step_if.
    destruct lo as [|lo]; [lia|].
    destruct (after c) as [|x t] eqn:E; [easy|].
    cbn [nl_run] in Hlo. destruct (NL =? x); [|easy].
    cbn [flat_map]. rewrite !app_nil_r. change (pred <$> None) with (@None nat).
    destruct (moved _ _); [|easy].
    apply IH. cbn [after pred]. lia.
Qed.

Lemma behind_nl_run_after prev s : after (behind_nl_run prev s) = skipn (nl_run s) s.
Proof.
  revert prev. induction s as [|x t IH]; intros prev; [easy|].
  cbn [behind_nl_run nl_run]. destruct (NL =? x); [apply IH | easy].
Qed.

Lemma collapse_go_drop s : forall n,
  (2 <= n)%nat -> collapse_go n s = collapse_go n (skipn (nl_run s) s).
Proof.
  induction s as [|x t IH]; intros n Hn; [easy|].
  cbn [nl_run]. destruct (NL =? x) eqn:Hx; [|easy].
  cbn [skipn collapse_go]. rewrite (N.eqb_sym x NL), Hx.
  destruct (Nat.ltb_spec n 2); [lia|]. now apply IH.
Qed.

Lemma collapse_go_no_nl s n m : nl_run s = 0%nat -> collapse_go n s = collapse_go m s.
Proof.
  destruct s as [|x t]; [easy|]. cbn [nl_run collapse_go]. rewrite (N.eqb_sym x NL).
  now destruct (NL =? x).
Qed.

Lemma nl_run_skipn s : nl_run (skipn (nl_run s) s) = 0%nat.
Proof.
  induction s as [|x t IH]; [easy|]. cbn [nl_run].
  destruct (NL =? x) eqn:Hx; [exact IH | cbn [skipn nl_run]; now rewrite Hx].
Qed.

Lemma nl_run_le s : (nl_run s <= length s)%nat.
Proof.
  induction s as [|x t IH]; [easy|]. cbn [nl_run length].
  destruct (NL =? x); lia.
Qed.

Lemma nl_run_S s n : nl_run s = S n -> exists t, s = NL :: t /\ nl_run t = n.
Proof.
  destruct s as [|x t]; [easy|]. cbn [nl_run].
  destruct (N.eqb_spec NL x) as [<-|]; [|easy]. intros [= <-]. now exists t.
Qed.

Lemma collapse_go_long s :
  (3 <= nl_run s)%nat ->
  collapse_go 0 s = NL :: NL :: collapse_go 0 (skipn (nl_run s) s).
Proof.
  intros H.
  destruct (nl_run s) as [|[|[|n]]] eqn:E; try lia.
  apply nl_run_S in E as [s1 [-> E]]. apply nl_run_S in E as [s2 [-> E]].
  apply nl_run_S in E as [s3 [-> E]].
  cbn [collapse_go skipn]. rewrite N.eqb_refl. cbn [Nat.ltb Nat.leb].
  rewrite (collapse_go_drop s3 2) by lia. rewrite E.
  do 2 f_equal. apply collapse_go_no_nl. rewrite <- E. apply nl_run_skipn.
Qed.

(** The substitution and the one-pass function agree; [k] newlines have
    been copied just before the cursor, and a run that begins there has
    no more than two newlines in all. *)
Lemma sub_go_collapse : forall fuel c k,
  (length (after c) < fuel)%nat ->
  (k = 0 \/ k + nl_run (after c) <= 2)%nat ->
  sub_go fuel no_flags (Rep (Lit NL) 3 None) [NL; NL] c = collapse_go k (after c).
Proof.
  induction fuel as [|fuel IH]; intros c k Hfuel Hk; [lia|].
  cbn [sub_go ends].
  destruct (Nat.le_gt_cases 3 (nl_run (after c))) as [Hlong|Hshort].
  - assert (k = 0)%nat as -> by lia.
    pose proof (nl_run_le (after c)) as Hle.
    pose proof (rep_nl_head (S (length (after c))) 3 c ltac:(lia) Hlong) as Hh.
    destruct (rep_go _ _ 3 None c) as [|c' l]; [easy|].
    injection Hh as ->.
    unfold moved. rewrite behind_nl_run_after.
    destruct (Nat.ltb_spec (length (skipn (nl_run (after c)) (after c))) (length (after c)))
      as [_|Hge].
    2:{ rewrite length_skipn in Hge. lia. }
    rewrite (IH _ 0%nat); [|rewrite behind_nl_run_after, length_skipn; lia|now left].
    rewrite behind_nl_run_after.
    symmetry. now apply collapse_go_long.
  - rewrite rep_nl_short by exact Hshort.
    destruct (after c) as [|x t] eqn:E; [easy|].
    cbn [collapse_go]. rewrite (N.eqb_sym x NL). cbn [nl_run] in *.
    destruct (NL =? x) eqn:Hx.
    + destruct (Nat.ltb_spec k 2) as [_|Hk2]; [|lia].
      f_equal. apply IH; cbn [after]; [simpl in Hfuel; lia | right; lia].
    + f_equal. apply IH; cbn [after]; [simpl in Hfuel; lia | now left].
Qed.

Lemma collapse_blank_lines_scan s : collapse_blank_lines s = collapse_go 0 s.
Proof.
  unfold collapse_blank_lines, sub.
  apply (sub_go_collapse (S (length s)) {| before := None; after := s |} 0%nat);
    cbn [after]; [lia | now left].
Qed.


(** *** Collapsing blank lines *)

Lemma collapse_head n s c :
  (forall d, head s = Some d -> isspace d = false) ->
  head (collapse_go n s) = Some c -> isspace c = false.
Proof.
  destruct s as [|x t]; simpl; [easy|].
  intros H. specialize (H x eq_refl).
  rewrite (not_space_not_NL _ H). simpl. now intros [= <-].
Qed.

Lemma last_cons_Some (x : char) l c : last l = Some c -> last (x :: l) = Some c.
Proof. destruct l; [easy | trivial]. Qed.

Lemma collapse_last_keep s : forall n c,
  last s = Some c -> (c =? NL) = false -> last (collapse_go n s) = Some c.
Proof.
  induction s as [|x t IH]; intros n c Hl Hc; [easy|].
  destruct t as [|y t'].
  - simpl in *. injection Hl as ->. now rewrite Hc.
  - change (last (x :: y :: t')) with (last (y :: t')) in Hl.
    remember (y :: t') as t eqn:Et. clear Et.
    simpl. destruct (x =? NL); [destruct (n <? 2)%nat|]; auto using last_cons_Some.
Qed.

Lemma collapse_last n s c :
  (forall d, last s = Some d -> isspace d = false) ->
  last (collapse_go n s) = Some c -> isspace c = false.
Proof.
  intros H Hl. destruct (last s) as [d|] eqn:Hd.
  - specialize (H d eq_refl).
    rewrite (collapse_last_keep s n d Hd (not_space_not_NL _ H)) in Hl.
    now injection Hl as <-.
  - apply last_None in Hd. now subst s.
Qed.

Lemma collapse_run_ok s : forall n, (n <= 2)%nat -> nl_run_ok n (collapse_go n s) = true.
Proof.
  induction s as [|x t IH]; intros n Hn; [easy|].
  simpl. destruct (x =? NL) eqn:Hx.
  - destruct (Nat.ltb_spec n 2).
    + simpl. rewrite Hx. rewrite IH by lia.
      destruct (Nat.ltb_spec (S n) 3); [easy | lia].
    + apply IH. lia.
  - simpl. rewrite Hx. apply IH. lia.
Qed.

Lemma collapse_id s : forall n, nl_run_ok n s = true -> collapse_go n s = s.
Proof.
  induction s as [|x t IH]; intros n; [easy|].
  simpl. destruct (x =? NL).
  - intros [H1 H2]%andb_true_iff. apply Nat.ltb_lt in H1.
    destruct (Nat.ltb_spec n 2); [|lia]. f_equal. now apply IH.
  - intros H. f_equal. now apply IH.
Qed.

Lemma run_ok_no_triple a : forall k b,
  nl_run_ok k (a ++ [NL; NL; NL] ++ b) = false.
Proof.
  induction a as [|x a IH]; intros k b.
  - simpl. destruct k as [|[|[|k]]]; simpl; try easy; now rewrite ?andb_false_r.
  - simpl. destruct (x =? NL); [|apply IH].
    change (a ++ NL :: NL :: NL :: b) with (a ++ [NL; NL; NL] ++ b).
    rewrite IH. apply andb_false_r.
Qed.

Lemma collapse_keeps n s c : (c =? NL) = false -> In c s -> In c (collapse_go n s).
Proof.
  intros Hc. revert n. induction s as [|x t IH]; intros n; [easy|].
  intros [->|Hin]; simpl.
  - rewrite Hc. now left.
  - destruct (x =? NL); [destruct (n <? 2)%nat|]; simpl; auto.
Qed.

Lemma collapse_Forall (P : char -> Prop) s : forall n,
  Forall P s -> Forall P (collapse_go n s).
Proof.
  induction s as [|x t IH]; intros n H; [constructor|].
  apply Forall_cons in H as [Hx Ht]. simpl.
  destruct (x =? NL); [destruct (n <? 2)%nat|]; auto.
Qed.


Lemma tidy_nil : tidy [].
Proof.
  repeat split; try easy. intros a b H. now destruct a.
Qed.

Lemma tidy_collapse_strip z : tidy (collapse_blank_lines (strip z)).
Proof.
  rewrite ?collapse_blank_lines_scan. repeat split.
  - intros c. apply collapse_head. intros d. apply strip_head.
  - intros c. apply collapse_last. intros d. apply strip_last.
  - intros a b E.
    pose proof (collapse_run_ok (strip z) 0 ltac:(lia)) as H.
    rewrite E, run_ok_no_triple in H. discriminate.
Qed.

Lemma collapse_strip_fixed z :
  collapse_blank_lines (strip (collapse_blank_lines (strip z)))
  = collapse_blank_lines (strip z).
Proof.
  destruct (tidy_collapse_strip z) as (Hh & Hl & _).
  rewrite strip_id by assumption.
  rewrite !collapse_blank_lines_scan. apply collapse_id.
  apply collapse_run_ok. lia.
Qed.

(** *** Quote-prefixed lines, in one pass *)

Lemma is_quoted_cons c l :
  is_quoted (c :: l) = if isspace c then is_quoted l else (c =? GT).
Proof.
  unfold is_quoted. cbn [lstrip]. destruct (isspace c); [easy|].
  cbn [startswith]. rewrite startswith_nil, andb_true_r. apply N.eqb_sym.
Qed.

Lemma quote_scan_lines s : forall b,
  quote_scan b s
  = (b && is_quoted (hd [] (split_nl s))) || existsb is_quoted (tl (split_nl s)).
Proof.
  induction s as [|c t IH]; intros b.
  - simpl. now rewrite andb_false_r.
  - cbn [quote_scan split_nl]. pose proof (split_nl_not_nil t) as Hne.
    destruct (N.eqb_spec c NL) as [->|Hc].
    + rewrite andb_false_r. cbn [orb hd tl]. rewrite IH.
      destruct (split_nl t) as [|l ls]; [easy|].
      simpl. now rewrite andb_false_r.
    + rewrite IH. destruct (split_nl t) as [|l ls]; [easy|].
      cbn [hd tl orb]. rewrite is_quoted_cons.
      destruct b; simpl; [|easy].
      destruct (N.eqb_spec c GT) as [->|Hg].
      * now rewrite isspace_GT.
      * destruct (isspace c); simpl; easy.
Qed.

Lemma quote_scan_exists s : quote_scan true s = existsb is_quoted (split_nl s).
Proof.
  rewrite quote_scan_lines. pose proof (split_nl_not_nil s).
  now destruct (split_nl s).
Qed.

Lemma quote_scan_spaces ws s :
  forallb isspace ws = true -> quote_scan true (ws ++ s) = quote_scan true s.
Proof.
  induction ws as [|c ws IH]; [easy|].
  simpl. intros [Hc Hws]%andb_true_iff. rewrite Hc.
  destruct (N.eqb_spec c GT) as [->|_]; [now rewrite isspace_GT in Hc|].
  rewrite orb_true_r. auto.
Qed.

Lemma quote_scan_app s : forall b z,
  quote_scan b s = true -> quote_scan b (s ++ z) = true.
Proof.
  induction s as [|c t IH]; intros b z; [easy|].
  simpl. destruct (b && (c =? GT)); [easy|]. apply IH.
Qed.

Lemma quote_scan_strip s : quote_scan true (strip s) = true -> quote_scan true s = true.
Proof.
  intros H. destruct (strip_split s) as [a [z [E [Ha _]]]].
  rewrite E, quote_scan_spaces by exact Ha. now apply quote_scan_app.
Qed.

Lemma quote_scan_collapse s : forall n b,
  ((1 <= n)%nat -> b = true) ->
  quote_scan b (collapse_go n s) = quote_scan b s.
Proof.
  induction s as [|c t IH]; intros n b Hb; [easy|].
  cbn [collapse_go]. destruct (N.eqb_spec c NL) as [->|Hc].
  - destruct (Nat.ltb_spec n 2).
    + simpl. rewrite andb_false_r. now apply IH.
    + rewrite Hb by lia. simpl. now apply IH.
  - simpl. destruct (b && (c =? GT)); [easy|]. apply IH. lia.
Qed.

(** *** Carriage returns *)

Lemma normalize_no_cr x : Forall (fun c => c <> CR) (normalize_newlines x).
Proof. unfold normalize_newlines, replace. now apply replace_cr_gone. Qed.

Lemma normalize_id s : Forall (fun c => c <> CR) s -> normalize_newlines s = s.
Proof.
  intros H. unfold normalize_newlines, replace.
  rewrite (replace_go_absent CR [NL] [NL] s) by exact H.
  now rewrite (replace_go_absent CR [] [NL] s) by exact H.
Qed.

Lemma collapse_strip_no_cr t :
  Forall (fun c => c <> CR) t ->
  Forall (fun c => c <> CR) (collapse_blank_lines (strip t)).
Proof.
  intros H. rewrite collapse_blank_lines_scan. now apply collapse_Forall, strip_Forall.
Qed.

(** *** The two ways out of [extract_latest_reply_text] *)

Lemma extract_unfold body :
  extract_latest_reply_text (Some body)
  = let top_part := top_part_of (normalize_newlines body) in
    let cleaned := collapse_blank_lines (strip (join_nl (kept_lines top_part))) in
    if truthy cleaned then cleaned else collapse_blank_lines (strip top_part).
Proof.
  unfold extract_latest_reply_text. cbv zeta.
  now destruct (truthy _).
Qed.

Lemma kept_all top :
  existsb is_quoted (split_nl top) = false -> kept_lines top = split_nl top.
Proof.
  unfold kept_lines. induction (split_nl top) as [|l ls IH]; [easy|].
  simpl. intros [Hl Hls]%orb_false_iff. rewrite Hl. simpl. f_equal. auto.
Qed.

(** Without marker and without quoted line the text is only trimmed and
    collapsed. *)
Lemma extract_plain x :
  marker_free x -> quote_free x ->
  extractLatest x = collapse_blank_lines (strip (normalize_newlines x)).
Proof.
  unfold marker_free, quote_free, extractLatest. intros Hm Hq.
  rewrite extract_unfold. cbv zeta. unfold top_part_of. rewrite Hm.
  rewrite kept_all by exact Hq. rewrite join_split.
  now destruct (truthy _).
Qed.

Lemma plain_output_quote_free t :
  Forall (fun c => c <> CR) t ->
  existsb is_quoted (split_nl t) = false ->
  quote_free (collapse_blank_lines (strip t)).
Proof.
  intros Hcr Hq. unfold quote_free.
  rewrite normalize_id by (apply collapse_strip_no_cr, Hcr).
  rewrite <- quote_scan_exists in *.
  destruct (quote_scan true (collapse_blank_lines (strip t))) eqn:E; [|easy].
  rewrite collapse_blank_lines_scan in E. rewrite quote_scan_collapse in E by lia.
  apply quote_scan_strip in E. congruence.
Qed.

(** *** Cases of the test suite *)

Example gmail_same_line :
  extractLatest (join_nl [U "Latest reply"; [];
                          U "On Wed, Oct 22, 2025 at 8:19 PM Someone <x@y> wrote:";
                          U "> older"; []])
  = U "Latest reply".
Proof. vm_compute. reflexivity. Qed.

Example gmail_split_wrote :
  extractLatest (U "New latest text" ++ [CR; NL; CR; NL]
                 ++ U "On Sun, Dec 28, 2025 at 2:04 PM David <a@b>" ++ [CR; NL]
                 ++ U "wrote:" ++ [CR; NL; CR; NL] ++ U "> Test 9" ++ [CR; NL])
  = U "New latest text".
Proof. vm_compute. reflexivity. Qed.

Example bg_original_message_quoted :
  extractLatest (U "АБВ ТЕСТ 3" ++ [CR; NL; CR; NL]
                 ++ U " >-------- Оригинално писмо --------" ++ [CR; NL]
                 ++ U " >От: David <x@y>" ++ [CR; NL])
  = U "АБВ ТЕСТ 3".
Proof. vm_compute. reflexivity. Qed.

Example removes_quote_prefixed_lines_before_trim :
  extractLatest (join_nl [U "Line1"; []; U "> quoted1"; U "> quoted2"; [];
                          U "Line2"; []])
  = join_nl [U "Line1"; []; U "Line2"].
Proof. vm_compute. reflexivity. Qed.

(** *** The properties of the extractor *)

(** C9: whatever the input, the value of [extract_latest_reply_text]
    neither starts nor ends with white space and has no three newlines in
    a row; this covers the normal and the fallback way out. *)
Theorem extract_latest_reply_text_tidy (body_text : option str) :
  let r := extract_latest_reply_text body_text in
  (forall c, head r = Some c -> isspace c = false) /\
  (forall c, last r = Some c -> isspace c = false) /\
  (forall a b, r <> a ++ [NL; NL; NL] ++ b).
Proof.
  destruct body_text as [body|]; [|exact tidy_nil].
  cbv zeta. rewrite extract_unfold. cbv zeta.
  destruct (truthy _); apply tidy_collapse_strip.
Qed.

Lemma extract_latest_reply_text_tidy_witness :
  extract_latest_reply_text (Some quoted_only_body) = quoted_only_expected
  /\ (forall c, head (extract_latest_reply_text (Some quoted_only_body)) = Some c ->
                isspace c = false).
Proof.
  split; [vm_compute; reflexivity|].
  exact (proj1 (extract_latest_reply_text_tidy (Some quoted_only_body))).
Defined.

Lemma is_quoted_In l : is_quoted l = true -> In GT l.
Proof.
  unfold is_quoted. intros H. destruct (lstrip_split l) as [ws [E _]].
  rewrite E. apply in_or_app. right.
  destruct (lstrip l) as [|c t]; [easy|].
  cbn [startswith] in H. apply andb_true_iff in H as [H _].
  apply N.eqb_eq in H. subst c. now left.
Qed.

(** C4: when every line of the top part is quote-prefixed (or blank, as
    the piece after a final newline is) and one at least is
    quote-prefixed, the extractor does not answer the empty string: it
    answers the top part without the white space at its two ends and with
    every run of three or more newlines cut down to two.  The body of the
    scenario yields its two quoted lines, and four newlines between two
    quoted lines come out as two. *)
Theorem fallback_returns_quoted_top_part :
  (forall body,
     let top_part := top_part_of (normalize_newlines body) in
     forallb (fun l => is_quoted l || forallb isspace l) (split_nl top_part) = true ->
     existsb is_quoted (split_nl top_part) = true ->
     exists lead core trail,
       top_part = lead ++ core ++ trail
       /\ forallb isspace lead = true /\ forallb isspace trail = true
       /\ (forall c, head core = Some c -> isspace c = false)
       /\ (forall c, last core = Some c -> isspace c = false)
       /\ extractLatest body = newline_runs_to_two core
       /\ extractLatest body <> [])
  /\ extractLatest quoted_only_body = quoted_only_expected
  /\ extractLatest spaced_quotes_body = spaced_quotes_expected.
Proof.
  split; [|split; vm_compute; reflexivity].
  intros body top_part Hall Hsome.
  assert (extractLatest body = collapse_blank_lines (strip top_part)) as E.
  { unfold extractLatest. rewrite extract_unfold. cbv zeta. fold top_part.
    assert (strip (join_nl (kept_lines top_part)) = []) as ->; [|easy].
    apply strip_all_space, join_all_space. unfold kept_lines.
    apply List.Forall_forall. intros l [Hl Hk]%filter_In.
    rewrite forallb_forall in Hall. specialize (Hall l Hl).
    apply negb_true_iff in Hk. now rewrite Hk in Hall. }
  rewrite collapse_blank_lines_scan in E.
  destruct (strip_split top_part) as (lead & trail & Hsplit & Hlead & Htrail).
  exists lead, (strip top_part), trail. unfold newline_runs_to_two.
  split; [exact Hsplit|]. split; [exact Hlead|]. split; [exact Htrail|].
  split; [apply strip_head|]. split; [apply strip_last|]. split; [exact E|].
  rewrite E.
  apply existsb_exists in Hsome as [l [Hl Hq]].
  assert (In GT (collapse_go 0 (strip top_part))) as Hin.
  { apply collapse_keeps; [easy|]. apply strip_keeps; [easy|].
    apply (split_nl_In top_part l); [exact Hl | now apply is_quoted_In]. }
  intros Hnil. now rewrite Hnil in Hin.
Qed.

Lemma fallback_returns_quoted_top_part_witness :
  exists lead core trail,
    top_part_of (normalize_newlines spaced_quotes_body) = lead ++ core ++ trail
    /\ forallb isspace lead = true /\ forallb isspace trail = true
    /\ (forall c, head core = Some c -> isspace c = false)
    /\ (forall c, last core = Some c -> isspace c = false)
    /\ extractLatest spaced_quotes_body = newline_runs_to_two core
    /\ extractLatest spaced_quotes_body <> [].
Proof.
  apply (proj1 fallback_returns_quoted_top_part spaced_quotes_body);
    vm_compute; reflexivity.
Defined.

(** C8 as stated fails: [far_wrote_body] has no marker and no quoted line,
    yet extracting twice differs from extracting once. *)
Lemma extractLatest_not_idempotent :
  ~ (forall x, marker_free x -> quote_free x ->
               extractLatest (extractLatest x) = extractLatest x).
Proof.
  intros H. specialize (H far_wrote_body).
  assert (extractLatest (extractLatest far_wrote_body) = []) as E1
    by (vm_compute; reflexivity).
  assert (extractLatest far_wrote_body
          = U "On Monday" ++ [NL; NL] ++ U "he wrote:") as E2
    by (vm_compute; reflexivity).
  rewrite E1, E2 in H.
  assert (marker_free far_wrote_body) as Hm by (vm_compute; reflexivity).
  assert (quote_free far_wrote_body) as Hq by (vm_compute; reflexivity).
  specialize (H Hm Hq). discriminate H.
Qed.

(** C8, amended: for a text without marker and without quoted line whose
    extract has no marker either, extracting the extract gives the
    extract. *)
Theorem extractLatest_idempotent x :
  marker_free x -> quote_free x -> marker_free (extractLatest x) ->
  extractLatest (extractLatest x) = extractLatest x.
Proof.
  intros Hm Hq Hm'. rewrite (extract_plain x Hm Hq) in *.
  set (t := normalize_newlines x) in *.
  assert (Forall (fun c => c <> CR) t) as Hcr by apply normalize_no_cr.
  rewrite extract_plain; [|exact Hm'|now apply plain_output_quote_free].
  rewrite normalize_id by (apply collapse_strip_no_cr, Hcr).
  apply collapse_strip_fixed.
Qed.

Lemma extractLatest_idempotent_witness :
  extractLatest (extractLatest plain_body) = extractLatest plain_body.
Proof.
  apply extractLatest_idempotent; vm_compute; reflexivity.
Defined.

End UtilsFacts.

(** ** The parser *)

Module ParserFacts.
Import Py Re Parser ParserSpec PyFacts.

Lemma startswith_app s p : startswith (p ++ s) p = true.
Proof.
  induction p as [|a p IH]; [apply startswith_nil|].
  simpl. now rewrite N.eqb_refl.
Qed.

Lemma startswith_split p : forall s,
  startswith s p = true -> s = p ++ skipn (length p) s.
Proof.
  induction p as [|a p IH]; intros s; [easy|].
  destruct s as [|b s]; [easy|]. simpl.
  intros [Hab Hs]%andb_true_iff. apply N.eqb_eq in Hab. subst b.
  f_equal. now apply IH.
Qed.

(** *** The matcher on the pieces of [DEAL_ID_RE] *)

Lemma ends_lit_sound p : forall c c',
  In c' (ends deal_flags (lit p) c) -> after c = p ++ after c'.
Proof.
  induction p as [|a p IH]; intros c c'.
  - simpl. intros [<-|[]]. reflexivity.
  - change (lit (a :: p)) with (Cat (Lit a) (lit p)). cbn [ends].
    rewrite in_flat_map. intros [c1 [H1 H2]].
    unfold step_if in H1. destruct (after c) as [|x t] eqn:E; [easy|].
    cbn [ignorecase deal_flags] in H1.
    destruct (N.eqb_spec a x) as [->|]; [|easy].
    destruct H1 as [<-|[]]. apply IH in H2. simpl in H2. now rewrite H2.
Qed.

Lemma ends_lit_complete p : forall c s',
  after c = p ++ s' -> exists c', In c' (ends deal_flags (lit p) c) /\ after c' = s'.
Proof.
  induction p as [|a p IH]; intros c s' E.
  - exists c. split; [now left | exact E].
  - change (lit (a :: p)) with (Cat (Lit a) (lit p)). cbn [ends].
    destruct (IH {| before := Some a; after := p ++ s' |} s' eq_refl) as [c' [Hin Hc']].
    exists c'. split; [|exact Hc']. rewrite in_flat_map.
    exists {| before := Some a; after := p ++ s' |}. split; [|exact Hin].
    unfold step_if. rewrite E. cbn [ignorecase deal_flags app].
    rewrite N.eqb_refl. now left.
Qed.

Section Repetition.
Variable ok : char -> bool.
Variable step : cursor -> list cursor.
Hypothesis step_ok : forall c, step c = step_if ok c.

Lemma rep_go_sound : forall fuel lo hi c c2,
  In c2 (rep_go step fuel lo (Some hi) c) ->
  exists g, after c = g ++ after c2 /\ forallb ok g = true
            /\ (lo <= length g <= hi)%nat.
Proof.
  assert (forall lo hi c c2,
            In c2 (match lo with O => [c] | S _ => [] end) ->
            exists g, after c = g ++ after c2 /\ forallb ok g = true
                      /\ (lo <= length g <= hi)%nat) as Hstop.
  { intros [|lo] hi c c2; [|easy]. intros [<-|[]]. exists []. simpl. repeat split; lia. }
  induction fuel as [|fuel IH]; intros lo hi c c2; [apply Hstop|].
  cbn [rep_go]. destruct hi as [|hi]; [apply Hstop|].
  rewrite in_app_iff. intros [H|H]; [|now apply Hstop].
  rewrite in_flat_map in H. destruct H as [c1 [H1 H2]].
  rewrite step_ok in H1. unfold step_if in H1.
  destruct (after c) as [|x t] eqn:E; [easy|].
  destruct (ok x) eqn:Hx; [|easy]. destruct H1 as [<-|[]].
  destruct (moved _ _); [|easy].
  apply IH in H2 as [g [Hg [Hok Hlen]]]. simpl in Hg.
  exists (x :: g). simpl. rewrite Hx, Hok, Hg. repeat split; lia.
Qed.

Lemma rep_go_complete g : forall fuel lo hi c s2,
  after c = g ++ s2 -> forallb ok g = true ->
  (lo <= length g <= hi)%nat -> (length g <= fuel)%nat ->
  exists c2, In c2 (rep_go step fuel lo (Some hi) c) /\ after c2 = s2.
Proof.
  induction g as [|x g IH]; intros fuel lo hi c s2 E Hok Hlen Hfuel.
  - simpl in Hlen. assert (lo = 0)%nat as -> by lia.
    exists c. split; [|exact E].
    destruct fuel; [now left|]. cbn [rep_go]. destruct hi; [now left|].
    apply in_or_app. right. now left.
  - simpl in Hok, Hlen, Hfuel. apply andb_true_iff in Hok as [Hx Hok].
    destruct fuel as [|fuel]; [lia|]. destruct hi as [|hi]; [lia|].
    set (c1 := {| before := Some x; after := g ++ s2 |}).
    destruct (IH fuel (pred lo) hi c1 s2 eq_refl Hok ltac:(lia) ltac:(lia))
      as [c2 [Hin Hc2]].
    exists c2. split; [|exact Hc2]. cbn [rep_go]. apply in_or_app. left.
    rewrite in_flat_map. exists c1. split.
    + rewrite step_ok. unfold step_if. rewrite E. simpl. rewrite Hx. now left.
    + unfold moved. rewrite E. simpl.
      destruct (Nat.ltb_spec (length (g ++ s2)) (S (length (g ++ s2)))); [exact Hin | lia].
Qed.
End Repetition.

Lemma alnum_class c : in_ranges alnum_ranges c = is_alnum c.
Proof.
  unfold in_ranges, alnum_ranges, is_alnum. simpl. now rewrite orb_false_r, orb_assoc.
Qed.

Lemma take_alnum_app g : forall rest,
  forallb is_alnum g = true -> take_alnum (g ++ TAG_CLOSE ++ rest) = g.
Proof.
  induction g as [|x g IH]; intros rest; [easy|].
  simpl. intros [Hx Hg]%andb_true_iff. rewrite Hx. f_equal. now apply IH.
Qed.

Lemma take_alnum_split s :
  s = take_alnum s ++ skipn (length (take_alnum s)) s
  /\ forallb is_alnum (take_alnum s) = true.
Proof.
  induction s as [|x t [IH1 IH2]]; [easy|].
  simpl. destruct (is_alnum x) eqn:Hx; [|easy].
  simpl. rewrite Hx, IH2. split; [now f_equal | easy].
Qed.

Lemma tag_here_tagged s g : tag_here s = Some g <-> tagged s g.
Proof.
  unfold tag_here, tagged. split.
  - destruct (startswith s TAG_OPEN) eqn:Ho; [|easy].
    apply startswith_split in Ho. cbv zeta.
    set (r := skipn (length TAG_OPEN) s) in *.
    destruct (take_alnum_split r) as [Er Hal].
    destruct (_ && _) eqn:Hc; [|easy]. intros [= <-].
    apply andb_true_iff in Hc as [Hlen Hcl].
    apply andb_true_iff in Hlen as [H4 H6].
    apply Nat.leb_le in H4, H6. apply startswith_split in Hcl.
    exists (skipn (length TAG_CLOSE) (skipn (length (take_alnum r)) r)).
    repeat split; try assumption. rewrite <- Hcl, <- Er. exact Ho.
  - intros [rest [-> [Hal [H4 H6]]]].
    rewrite startswith_app. cbv zeta.
    rewrite drop_app_length, take_alnum_app by exact Hal.
    rewrite drop_app_length, startswith_app.
    destruct (Nat.leb_spec 4 (length g)); [|lia].
    destruct (Nat.leb_spec (length g) 6); [easy|lia].
Qed.

Lemma consumed_app g c1 c2 : after c1 = g ++ after c2 -> consumed c1 c2 = g.
Proof.
  intros E. unfold consumed. rewrite E, length_app.
  replace (length g + length (after c2) - length (after c2))%nat with (length g) by lia.
  now rewrite firstn_app, Nat.sub_diag, firstn_all, app_nil_r.
Qed.

Lemma close_matches c : matches_at deal_flags DEAL_ID_post c = true ->
  exists rest, after c = TAG_CLOSE ++ rest.
Proof.
  unfold matches_at. destruct (ends deal_flags DEAL_ID_post c) as [|c' l] eqn:E; [easy|].
  intros _. exists (after c'). apply (ends_lit_sound TAG_CLOSE). unfold DEAL_ID_post in E.
  fold TAG_CLOSE in E. rewrite E. now left.
Qed.

Lemma close_matches_complete c rest :
  after c = TAG_CLOSE ++ rest -> matches_at deal_flags DEAL_ID_post c = true.
Proof.
  intros E. destruct (ends_lit_complete TAG_CLOSE c rest E) as [c' [Hin _]].
  unfold matches_at, DEAL_ID_post. fold TAG_CLOSE.
  now destruct (ends deal_flags (lit TAG_CLOSE) c).
Qed.

Lemma grp_step c : ends deal_flags (Cls alnum_ranges) c = step_if is_alnum c.
Proof.
  cbn [ends]. unfold step_if. destruct (after c); [easy|]. now rewrite alnum_class.
Qed.

Lemma candidates_sound c g : In g (group_candidates c) -> tagged (after c) g.
Proof.
  unfold group_candidates. rewrite in_flat_map. intros [c1 [H1 H]].
  rewrite in_flat_map in H. destruct H as [c2 [H2 H3]].
  destruct (matches_at deal_flags DEAL_ID_post c2) eqn:Hm; [|easy].
  destruct H3 as [<-|[]].
  apply (ends_lit_sound TAG_OPEN) in H1.
  apply (rep_go_sound is_alnum _ grp_step) in H2 as [g [Eg [Hal Hlen]]].
  apply close_matches in Hm as [rest Hrest].
  rewrite (consumed_app g) by exact Eg.
  exists rest. rewrite H1, Eg, Hrest. easy.
Qed.

Lemma candidates_complete c g : tagged (after c) g -> In g (group_candidates c).
Proof.
  intros [rest [E [Hal Hlen]]].
  destruct (ends_lit_complete TAG_OPEN c _ E) as [c1 [H1 E1]].
  destruct (rep_go_complete is_alnum _ grp_step g (S (length (after c1))) 4 6 c1
              (TAG_CLOSE ++ rest) E1 Hal Hlen) as [c2 [H2 E2]].
  { rewrite E1, length_app. lia. }
  unfold group_candidates. rewrite in_flat_map. exists c1. split; [exact H1|].
  rewrite in_flat_map. exists c2. split; [exact H2|].
  rewrite (close_matches_complete c2 rest E2).
  rewrite (consumed_app g); [now left|]. now rewrite E1, E2.
Qed.

(** At one place the matcher finds the tag of the specification. *)
Lemma group_at_tag_here c :
  group_at deal_flags DEAL_ID_pre DEAL_ID_grp DEAL_ID_post c = tag_here (after c).
Proof.
  change (group_at deal_flags DEAL_ID_pre DEAL_ID_grp DEAL_ID_post c)
    with (head (group_candidates c)).
  destruct (group_candidates c) as [|g l] eqn:E.
  - destruct (tag_here (after c)) as [g|] eqn:Ht; [|easy].
    apply tag_here_tagged, candidates_complete in Ht. now rewrite E in Ht.
  - assert (tagged (after c) g) as Hg by (apply candidates_sound; rewrite E; now left).
    apply tag_here_tagged in Hg. now rewrite Hg.
Qed.

Lemma search_group_first_tag s : forall prev,
  search_group_go deal_flags DEAL_ID_pre DEAL_ID_grp DEAL_ID_post prev s = first_tag s.
Proof.
  induction s as [|x t IH]; intros prev.
  - cbn [search_group_go first_tag]. rewrite group_at_tag_here. cbn [after].
    now destruct (tag_here []).
  - cbn [search_group_go first_tag]. rewrite group_at_tag_here. cbn [after].
    destruct (tag_here (x :: t)); [easy | apply IH].
Qed.

(** The search of the source is the first tag of the specification. *)
Lemma DEAL_ID_RE_search_first_tag text : DEAL_ID_RE_search text = first_tag text.
Proof. apply search_group_first_tag. Qed.

(** The choice of the source is the choice of the specification. *)
Lemma pick_deal_id_is_spec subject body_text :
  _pick_deal_id subject body_text = deal_tag_spec subject body_text.
Proof.
  unfold _pick_deal_id, deal_tag_spec, first_tag_opt.
  assert (first_tag [] = None) as Hnil by reflexivity.
  destruct subject as [[|a s]|], body_text as [[|b t]|];
    cbn [truthy app first_deal_id]; rewrite ?DEAL_ID_RE_search_first_tag, ?Hnil;
    try reflexivity;
    repeat match goal with |- context [first_tag ?x] => destruct (first_tag x) end;
    reflexivity.
Qed.

(** The deal tag of an item comes from its decoded subject first and from
    its body text second. *)
Lemma item_deal_id mfb rfc sha codec utf8 html raw_bytes item identity :
  parse_email_bytes_to_item mfb rfc sha codec utf8 html raw_bytes = Some (item, identity) ->
  subject item = _decode_str rfc (get (mfb raw_bytes) (U "Subject"))
  /\ dealId item = deal_tag_spec (subject item) (bodyText item).
Proof.
  unfold parse_email_bytes_to_item. cbv zeta.
  destruct (_extract_best_text_and_html_flag _ _ _ _) as [[body_text has_html]|]; [|easy].
  intros [= <- _]. cbn [subject dealId bodyText]. split; [easy|].
  apply pick_deal_id_is_spec.
Qed.

(** C7: the deal tag is the first tag of the subject when the subject has
    one, else the first tag of the body, else nothing, a tag being
    ["[Сделка:"], four to six ASCII letters or digits and ["]"]; the three
    scenarios come out as stated. *)
Theorem pick_deal_id_subject_first :
  (forall subject body_text,
     _pick_deal_id subject body_text = deal_tag_spec subject body_text)
  /\ (forall body_text,
        _pick_deal_id (Some (U "Hello [Сделка:AB12C3]")) body_text = Some (U "AB12C3"))
  /\ _pick_deal_id (Some (U "No deal")) (Some (U "Текст с маркер [Сделка:ZZ9911] тук."))
     = Some (U "ZZ9911")
  /\ _pick_deal_id (Some (U "No deal")) (Some (U "Body")) = None.
Proof.
  split; [exact pick_deal_id_is_spec|].
  split; [intros body_text; now rewrite pick_deal_id_is_spec|].
  split; vm_compute; reflexivity.
Qed.

(** *** The identity key *)

Section Identity.
Variable rfc2047_decode : str -> option str.
Variable sha256_hexdigest : bytes -> str.

(** Without a Message-ID header, or with an empty one, the key is the
    hash of the raw bytes. *)
Lemma message_id_absent raw_bytes msg :
  truthy_opt (message_id_header msg) = false ->
  _message_id_or_hash rfc2047_decode sha256_hexdigest raw_bytes msg
  = hash_key sha256_hexdigest raw_bytes.
Proof.
  unfold _message_id_or_hash. fold (message_id_header msg). now intros ->.
Qed.

(** With a header whose decoded value is not empty, the key is that
    value, trimmed. *)
Lemma message_id_present raw_bytes msg mid dec :
  message_id_header msg = Some mid -> truthy mid = true ->
  _decode_str rfc2047_decode (Some mid) = Some dec -> truthy dec = true ->
  _message_id_or_hash rfc2047_decode sha256_hexdigest raw_bytes msg = strip dec.
Proof.
  unfold _message_id_or_hash. fold (message_id_header msg).
  intros -> Hm Hd Ht. cbn [truthy_opt]. now rewrite Hm, Hd, Ht.
Qed.
End Identity.

(** C1 at a blank Message-ID: the header holds one space, which decodes
    to itself; the key is the empty string and not the hash key. *)
Theorem blank_message_id_gives_empty_key sha256_hexdigest raw_bytes :
  _message_id_or_hash (fun s => Some s) sha256_hexdigest raw_bytes blank_id_message = []
  /\ hash_key sha256_hexdigest raw_bytes <> [].
Proof. split; [vm_compute; reflexivity | easy]. Qed.

(** *** The HTML flag *)

(** C5 at an empty HTML part: inside a multipart message the part is
    passed over before its type is looked at and the flag stays down;
    the same part as a message of its own raises the flag. *)
Theorem empty_html_part_not_flagged codec_decode utf8_decode html_get_text :
  _extract_best_text_and_html_flag codec_decode utf8_decode html_get_text
    empty_html_multipart = Some (None, false)
  /\ _extract_best_text_and_html_flag codec_decode utf8_decode html_get_text
       empty_html_part = Some (None, true).
Proof. split; vm_compute; reflexivity. Qed.

(** The flag of the item is the flag of the extraction. *)
Lemma item_flag_of_empty_html_part mfb rfc sha codec utf8 html raw_bytes :
  mfb raw_bytes = empty_html_multipart ->
  (hasHtml ∘ fst) <$> parse_email_bytes_to_item mfb rfc sha codec utf8 html raw_bytes
  = Some false.
Proof. unfold parse_email_bytes_to_item. now intros ->. Qed.

(** In a multipart message an HTML part that is no attachment and has a
    payload raises the flag, whatever else the message holds. *)
Lemma walk_step_keeps_flag codec utf8 a part :
  has_html a = true -> has_html (walk_step codec utf8 a part) = true.
Proof.
  intros H. unfold walk_step.
  destruct (startswith _ _); [exact H|].
  destruct (get_payload_decoded part); try exact H.
  destruct (negb _); [exact H|].
  destruct (str_eqb _ _); [exact H|]. now destruct (str_eqb _ _).
Qed.

Lemma walk_keeps_flag codec utf8 parts : forall a,
  has_html a = true -> has_html (fold_left (walk_step codec utf8) parts a) = true.
Proof.
  induction parts as [|p parts IH]; intros a H; [exact H|].
  simpl. apply IH. now apply walk_step_keeps_flag.
Qed.

Lemma html_part_with_payload_flagged codec utf8 html msg part b :
  is_multipart msg = true -> In part (walk msg) ->
  lower (get_content_type part) = U "text/html" ->
  startswith (lower (default [] (get part (U "Content-Disposition")))) (U "attachment") = false ->
  get_payload_decoded part = PBytes b -> b <> [] ->
  snd <$> _extract_best_text_and_html_flag codec utf8 html msg = Some true.
Proof.
  intros Hm Hin Hty Hdisp Hpay Hb.
  unfold _extract_best_text_and_html_flag. rewrite Hm. cbn [fmap option_fmap option_map snd].
  f_equal. apply in_split in Hin as [l1 [l2 ->]].
  rewrite fold_left_app. cbn [fold_left]. apply walk_keeps_flag.
  unfold walk_step. rewrite Hdisp, Hpay, Hty.
  destruct b; [easy|]. reflexivity.
Qed.

End ParserFacts.

(** ** The store of seen keys *)

Module StateFacts.
Import Py State StateSpec PyFacts.

Local Open Scope Z_scope.

Ltac conjs := repeat match goal with |- _ /\ _ => split end.

(** *** Taking the lock *)

Lemma lag_sum_S : forall n l,
  lag_sum (S n) l
  = lag_sum n l + match skipn n l with [] => 0 | x :: _ => Z.of_N x end.
Proof.
  unfold lag_sum. induction n as [|n IH]; intros [|x l]; simpl; try lia.
  specialize (IH l). simpl in IH. destruct l as [|y l]; simpl in *; lia.
Qed.

Lemma lag_sum_nonneg : forall n l, 0 <= lag_sum n l.
Proof.
  unfold lag_sum. induction n as [|n IH]; intros [|x l]; simpl; try lia.
  specialize (IH l). lia.
Qed.

Lemma attempt_time_0 w : attempt_time w 0 = clock w.
Proof. unfold attempt_time, lag_sum. simpl. lia. Qed.

Lemma attempt_time_S w n :
  attempt_time w (S n)
  = attempt_time w n + POLL_US + TICK
    + match skipn n (lags w) with [] => 0 | x :: _ => Z.of_N x end.
Proof. unfold attempt_time. rewrite lag_sum_S, Nat2Z.inj_succ. lia. Qed.

Lemma attempt_time_grows w n :
  clock w + (POLL_US + TICK) * Z.of_nat n <= attempt_time w n.
Proof. unfold attempt_time. pose proof (lag_sum_nonneg n (lags w)). lia. Qed.

Lemma later_0 w : later w 0 = w.
Proof. unfold later. rewrite attempt_time_0. now destruct w. Qed.

Lemma sleep_later w n : sleep POLL_US (later w n) = (Ret tt, later w (S n)).
Proof.
  unfold sleep, later. cbn [state_file tmp_file lock_file clock lock_release lags faults].
  rewrite attempt_time_S. do 2 f_equal; try (destruct (skipn n (lags w)); lia).
  clear. revert n. induction (lags w) as [|x l IH]; intros [|n]; try reflexivity.
  simpl. apply IH.
Qed.

(** Whether the lock file of the other holder is there at an attempt. *)
Lemma there_at_dec w t : there_at w t \/ ~ there_at w t.
Proof.
  unfold there_at. destruct (lock_file w); [|right; now intros [? _]].
  destruct (lock_release w) as [r|]; [|now left].
  destruct (Z.lt_ge_cases t r); [now left|right; intros [_ ?]; lia].
Qed.

Lemma holder_stays w n :
  there_at w (attempt_time w n) -> holder_leaves (later w n) = later w n.
Proof.
  intros [Hl Hr]. unfold holder_leaves.
  change (lock_release (later w n)) with (lock_release w).
  change (lock_file (later w n)) with (lock_file w).
  change (clock (later w n)) with (attempt_time w n).
  destruct (lock_release w) as [r|]; [|reflexivity].
  rewrite Hl. destruct (Z.leb_spec r (attempt_time w n)); [lia|reflexivity].
Qed.

Lemma holder_gone w n :
  ~ there_at w (attempt_time w n) -> lock_file (holder_leaves (later w n)) = false.
Proof.
  intros Hno. unfold holder_leaves, there_at in *.
  change (lock_release (later w n)) with (lock_release w).
  change (lock_file (later w n)) with (lock_file w).
  change (clock (later w n)) with (attempt_time w n).
  destruct (lock_file w) eqn:Hl.
  - destruct (lock_release w) as [r|]; [|now destruct Hno].
    cbn [andb]. destruct (Z.leb_spec r (attempt_time w n)); [reflexivity|now destruct Hno].
  - destruct (lock_release w) as [r|]; cbn [andb lock_file]; exact Hl.
Qed.

Lemma holder_leaves_files w :
  state_file (holder_leaves w) = state_file w
  /\ tmp_file (holder_leaves w) = tmp_file w
  /\ faults (holder_leaves w) = faults w
  /\ clock (holder_leaves w) = clock w
  /\ lags (holder_leaves w) = lags w.
Proof.
  unfold holder_leaves. destruct (lock_release w) as [r|]; [|easy].
  now destruct (lock_file w && (r <=? clock w)).
Qed.

Lemma holder_leaves_free w : lock_file w = false -> holder_leaves w = w.
Proof.
  intros H. unfold holder_leaves. rewrite H. now destruct (lock_release w).
Qed.

(** The polling loop, attempt by attempt: it goes on while the lock file
    is there and the timeout has not passed. *)
Lemma acquire_loop_from w T : forall turns k out w',
  acquire_loop turns T (clock w) (later w k) = (out, w') ->
  exists n, (k <= n <= k + turns)%nat
    /\ (forall j, (k <= j < n)%nat ->
          there_at w (attempt_time w j)
          /\ attempt_time w j - clock w <= 1000000 * T)
    /\ match out with
       | Ret _ =>
           ~ there_at w (attempt_time w n)
           /\ w' = set_lock_file true (holder_leaves (later w n))
       | Raise e =>
           e = TimeoutError /\ there_at w (attempt_time w n)
           /\ attempt_time w n - clock w > 1000000 * T
           /\ w' = later w n
       | Spin => n = (k + turns)%nat /\ w' = later w n
       end.
Proof.
  induction turns as [|turns IH]; intros k out w'.
  - cbn [acquire_loop]. intros [= <- <-]. exists k. split; [lia|]. split; [lia|].
    split; [lia|reflexivity].
  - cbn [acquire_loop]. unfold create_lock_exclusive.
    destruct (there_at_dec w (attempt_time w k)) as [Hthere|Hgone].
    + rewrite (holder_stays _ _ Hthere).
      assert (lock_file (later w k) = true) as -> by (cbn [later lock_file]; apply Hthere).
      unfold bind at 1, time_time at 1. cbn [later clock].
      destruct (Z.gtb_spec (attempt_time w k - clock w) (1000000 * T)) as [Hgt|Hngt].
      * unfold raise. intros [= <- <-]. exists k. split; [lia|]. split; [lia|].
        split; [reflexivity|]. split; [exact Hthere|]. split; [lia|reflexivity].
      * unfold bind. rewrite sleep_later. intros Hrun.
        apply IH in Hrun as (n & Hn & Hbefore & Hout).
        exists n. split; [lia|]. split.
        { intros j Hj. destruct (Nat.eq_dec j k) as [->|Hne]; [easy|]. apply Hbefore. lia. }
        destruct out as [[]|e|]; [exact Hout|exact Hout|].
        destruct Hout as [-> ->]. split; [lia|reflexivity].
    + rewrite (holder_gone _ _ Hgone). intros [= <- <-].
      exists k. split; [lia|]. split; [lia|]. split; [exact Hgone|reflexivity].
Qed.

(** The turns of [enough_turns] are never used up. *)
Lemma enough_turns_enough T w :
  fst (acquire_loop (enough_turns T) T (clock w) w) <> Spin.
Proof.
  destruct (acquire_loop _ _ _ _) as [out w'] eqn:Hrun. cbn [fst]. intros ->.
  rewrite <- (later_0 w) in Hrun at 2.
  apply acquire_loop_from in Hrun as (n & _ & Hbefore & -> & _).
  destruct (Hbefore (enough_turns T - 1)%nat) as [_ Hle];
    [unfold enough_turns; lia|].
  pose proof (attempt_time_grows w (enough_turns T - 1)) as Hg.
  unfold enough_turns, POLL_US, TICK in *.
  replace (Z.to_nat (10 * T) + 2 - 1)%nat with (S (Z.to_nat (10 * T))) in * by lia.
  rewrite Nat2Z.inj_succ in Hg. lia.
Qed.

(** What the loop leaves behind, in short. *)
Lemma acquire_loop_spec T w out w' :
  acquire_loop (enough_turns T) T (clock w) w = (out, w') ->
  same_files w w'
  /\ match out with
     | Ret _ => lock_file w' = true
     | Raise e => e = TimeoutError /\ lock_file w' = true
                  /\ clock w' - clock w > 1000000 * T
     | Spin => False
     end.
Proof.
  intros Hrun. pose proof (enough_turns_enough T w) as Hspin. rewrite Hrun in Hspin.
  rewrite <- (later_0 w) in Hrun at 2.
  apply acquire_loop_from in Hrun as (n & _ & _ & Hout).
  destruct out as [[]|e|]; [| |easy].
  - destruct Hout as [_ ->]. unfold same_files.
    pose proof (holder_leaves_files (later w n)) as (H1 & H2 & H3 & _).
    cbn [set_lock_file state_file tmp_file faults lock_file]. rewrite H1, H2, H3. easy.
  - destruct Hout as (-> & Hthere & Hgt & ->). unfold same_files.
    cbn [later state_file tmp_file faults lock_file clock]. split; [easy|].
    split; [easy|]. split; [apply Hthere|exact Hgt].
Qed.

Lemma acquire_loop_free T start turns w :
  lock_file w = false ->
  acquire_loop (S turns) T start w = (Ret tt, set_lock_file true w).
Proof.
  intros H. cbn [acquire_loop]. unfold create_lock_exclusive.
  rewrite (holder_leaves_free _ H). now rewrite H.
Qed.

(** *** Merging the keys *)

Lemma fold_add_key_set keys : forall (s : gset key) c,
  (fold_left add_key keys (s, c)).1 = s ∪ list_to_set keys.
Proof.
  induction keys as [|k keys IH]; intros s c.
  - simpl. now rewrite (right_id_L ∅ (∪)).
  - cbn [fold_left]. unfold add_key at 2. cbn [fst].
    case_bool_decide as Hk; rewrite IH; apply set_eq; intros x;
      rewrite list_to_set_cons, !elem_of_union, ?elem_of_singleton;
      [split; [tauto | intros [?|[->|?]]; tauto] | tauto].
Qed.

Lemma fold_add_key_known keys : forall (s : gset key) c,
  (forall k, In k keys -> k ∈ s) -> fold_left add_key keys (s, c) = (s, c).
Proof.
  induction keys as [|k keys IH]; intros s c H; [easy|].
  cbn [fold_left]. unfold add_key at 2. cbn [fst].
  rewrite bool_decide_eq_true_2 by (apply H; now left).
  apply IH. intros k' Hk'. apply H. now right.
Qed.

Lemma fold_add_key_changed keys : forall (s : gset key) c,
  (fold_left add_key keys (s, c)).2 = true ->
  c = true \/ exists k, In k keys /\ k ∉ s.
Proof.
  induction keys as [|k keys IH]; intros s c; [now left|].
  cbn [fold_left]. unfold add_key at 2. cbn [fst].
  case_bool_decide as Hk.
  - intros H. apply IH in H as [->|[k' [Hin Hn]]]; [now left|].
    right. exists k'. split; [now right | easy].
  - intros _. right. exists k. split; [now left | easy].
Qed.

Lemma fold_add_key_unchanged keys : forall (s : gset key) c,
  (fold_left add_key keys (s, c)).2 = false ->
  c = false /\ forall k, In k keys -> k ∈ s.
Proof.
  induction keys as [|k keys IH]; intros s c; [easy|].
  cbn [fold_left]. unfold add_key at 2. cbn [fst].
  case_bool_decide as Hk.
  - intros H. apply IH in H as [-> H]. split; [easy|].
    intros k' [<-|Hin]; auto.
  - intros H. apply IH in H as [H _]. discriminate.
Qed.

(** *** Reading and writing *)

Lemma note_write_fields w :
  state_file (note_write w) = state_file w /\ tmp_file (note_write w) = tmp_file w
  /\ lock_file (note_write w) = lock_file w /\ clock (note_write w) = clock w
  /\ lock_release (note_write w) = lock_release w /\ lags (note_write w) = lags w
  /\ faults (note_write w) = faults w.
Proof. unfold note_write. destruct (lock_file w) eqn:E; simpl; rewrite ?E; easy. Qed.

Lemma note_write_locked w : lock_file w = true -> note_write w = w.
Proof. intros H. unfold note_write. now rewrite H. Qed.

Lemma next_fault_run w :
  exists b w', next_fault w = (Ret b, w')
    /\ state_file w' = state_file w /\ tmp_file w' = tmp_file w /\ same_lock w w'
    /\ exists used, faults w = used ++ faults w' /\ (In true used -> b = true).
Proof.
  unfold next_fault. destruct (faults w) as [|b fs] eqn:E.
  - exists false, w. repeat split. exists []. now rewrite E.
  - eexists b, _. repeat split. exists [b]. simpl. split; [easy|]. now intros [<-|[]].
Qed.

Lemma faults_surface_step {A B} w w1 w' used (o : outcome B) (r : outcome A) :
  faults w = used ++ faults w1 -> ~ In true used ->
  faults_surface w1 w' o -> faults_surface w w' o.
Proof.
  intros E Hn [used' [E' H']]. exists (used ++ used'). split.
  - now rewrite E, E', app_assoc.
  - rewrite in_app_iff. intros [H|H]; [easy | auto].
Qed.

Lemma read_state_file_spec w out w' :
  read_state_file w = (out, w') ->
  state_file w' = state_file w /\ tmp_file w' = tmp_file w /\ same_lock w w'
  /\ faults_surface w w' out
  /\ match out with
     | Ret d => state_file w = Some (Whole d)
     | Raise e => e <> TimeoutError
     | Spin => False
     end.
Proof.
  unfold read_state_file, bind.
  destruct (next_fault_run w) as (b & w1 & -> & Hs & Ht & Hl & used & Hu & Hb).
  destruct b.
  - intros [= <- <-]. conjs; try easy. now exists used.
  - unfold get_state, raise, ret. rewrite Hs.
    assert (forall o : outcome doc, faults_surface w w1 o) as Hf.
    { intros o. exists used. split; [easy|]. intros H. now apply Hb in H. }
    destruct (state_file w) as [[d|]|]; intros [= <- <-]; conjs; easy.
Qed.

Lemma _read_spec m out m' :
  _read m = (out, m') ->
  self m' = self m /\ state_file (env m') = state_file (env m)
  /\ tmp_file (env m') = tmp_file (env m) /\ same_lock (env m) (env m')
  /\ faults_surface (env m) (env m') out
  /\ match out with
     | Ret d => state_file (env m) = Some (Whole d)
     | Raise e => e <> TimeoutError
     | Spin => False
     end.
Proof.
  unfold _read, on_env. destruct (read_state_file (env m)) as [o w] eqn:E.
  intros [= <- <-]. apply read_state_file_spec in E. cbn [self env]. easy.
Qed.

Lemma write_steps_spec data w out w' :
  (open_tmp_for_writing ;;; dump_to_tmp data ;;; replace_state_by_tmp) w = (out, w') ->
  same_lock w w' /\ faults_surface w w' out
  /\ match out with
     | Ret _ => state_file w' = Some (Whole data) /\ tmp_file w' = None
     | Raise e => e <> TimeoutError /\ state_file w' = state_file w
     | Spin => False
     end.
Proof.
  unfold bind at 1. unfold open_tmp_for_writing at 1. unfold bind at 1.
  destruct (next_fault_run w) as (b1 & w1 & -> & Hs1 & Ht1 & (Hl1 & Hc1 & Hr1) & u1 & Hu1 & Hb1).
  destruct b1.
  { intros [= <- <-]. unfold same_lock. conjs; try easy. now exists u1. }
  unfold bind at 1, get_state at 1, put_state at 1.
  set (w2 := note_write (set_tmp_file (Some Torn) w1)).
  pose proof (note_write_fields (set_tmp_file (Some Torn) w1))
    as (Hs2 & Ht2 & Hl2 & Hc2 & Hr2 & _ & Hf2).
  fold w2 in Hs2, Ht2, Hl2, Hc2, Hr2, Hf2.
  cbn [set_tmp_file state_file tmp_file lock_file clock lock_release faults]
    in Hs2, Ht2, Hl2, Hc2, Hr2, Hf2.
  assert (~ In true u1) as Hn1 by (intros H; now apply Hb1 in H).
  unfold bind at 1. unfold dump_to_tmp at 1. unfold bind at 1.
  destruct (next_fault_run w2) as (b2 & w3 & -> & Hs3 & Ht3 & (Hl3 & Hc3 & Hr3) & u2 & Hu2 & Hb2).
  rewrite Hf2 in Hu2.
  destruct b2.
  { intros [= <- <-]. unfold same_lock. conjs; try congruence.
    apply (faults_surface_step w w1 w3 u1 _ (Ret tt) Hu1 Hn1). now exists u2. }
  unfold bind at 1, get_state at 1, put_state at 1.
  set (w4 := note_write (set_tmp_file (Some (Whole data)) w3)).
  pose proof (note_write_fields (set_tmp_file (Some (Whole data)) w3))
    as (Hs4 & Ht4 & Hl4 & Hc4 & Hr4 & _ & Hf4).
  fold w4 in Hs4, Ht4, Hl4, Hc4, Hr4, Hf4.
  cbn [set_tmp_file state_file tmp_file lock_file clock lock_release faults]
    in Hs4, Ht4, Hl4, Hc4, Hr4, Hf4.
  assert (~ In true u2) as Hn2 by (intros H; now apply Hb2 in H).
  unfold replace_state_by_tmp, bind at 1.
  destruct (next_fault_run w4) as (b3 & w5 & -> & Hs5 & Ht5 & (Hl5 & Hc5 & Hr5) & u3 & Hu3 & Hb3).
  rewrite Hf4 in Hu3.
  destruct b3.
  { intros [= <- <-]. unfold same_lock. conjs; try congruence.
    apply (faults_surface_step w w1 w5 u1 _ (Ret tt) Hu1 Hn1).
    apply (faults_surface_step w1 w3 w5 u2 _ (Ret tt)); [exact Hu2 | exact Hn2 |].
    now exists u3. }
  unfold bind at 1, get_state at 1. rewrite Ht5, Ht4.
  unfold put_state. intros [= <- <-].
  pose proof (note_write_fields (set_tmp_file None (set_state_file (Some (Whole data)) w5)))
    as (Hs6 & Ht6 & Hl6 & Hc6 & Hr6 & _ & Hf6).
  cbn [set_tmp_file set_state_file state_file tmp_file lock_file clock lock_release faults]
    in Hs6, Ht6, Hl6, Hc6, Hr6, Hf6.
  unfold same_lock. conjs; try congruence.
  apply (faults_surface_step w w1 _ u1 _ (Ret tt) Hu1 Hn1).
  apply (faults_surface_step w1 w3 _ u2 _ (Ret tt)); [exact Hu2 | exact Hn2 |].
  exists u3. split; [now rewrite Hf6|]. intros H. now apply Hb3 in H.
Qed.

Lemma _write_spec data m out m' :
  _write data m = (out, m') ->
  self m' = self m /\ same_lock (env m) (env m')
  /\ faults_surface (env m) (env m') out
  /\ match out with
     | Ret _ => state_file (env m') = Some (Whole data) /\ tmp_file (env m') = None
     | Raise e => e <> TimeoutError /\ state_file (env m') = state_file (env m)
     | Spin => False
     end.
Proof.
  unfold _write, on_env.
  destruct ((open_tmp_for_writing;;; dump_to_tmp data;;; replace_state_by_tmp) (env m))
    as [o w] eqn:E.
  intros [= <- <-]. apply write_steps_spec in E. cbn [self env]. easy.
Qed.

(** *** No data file is changed without the lock file *)





(** *** The body of the [try] block *)

Lemma update_seen_spec keys m out m' :
  update_seen keys m = (out, m') ->
  same_lock (env m) (env m')
  /\ lock_timeout_s (self m') = lock_timeout_s (self m)
  /\ faults_surface (env m) (env m') out
  /\ match out with
     | Raise e =>
         e <> TimeoutError /\ self m' = self m
         /\ state_file (env m') = state_file (env m)
     | Ret _ =>
         exists d, state_file (env m) = Some (Whole d) /\
           ((self m' = self m /\ state_file (env m') = state_file (env m)
             /\ tmp_file (env m') = tmp_file (env m)
             /\ forall k, In k keys -> k ∈ get_seen d)
            \/ (state_file (env m') = Some (Whole (merged d keys))
                /\ tmp_file (env m') = None
                /\ _data (self m') = merged d keys
                /\ exists k, In k keys /\ k ∉ get_seen d))
     | Spin => False
     end.
Proof.
  unfold update_seen. unfold bind at 1.
  destruct (_read m) as [[d|e|] m1] eqn:Hr; apply _read_spec in Hr;
    destruct Hr as (Hself & Hst & Htmp & Hlock & Hsurf & Hout).
  - destruct (fold_left add_key keys (list_to_set (get_seen d), false))
      as [seen1 changed] eqn:Hfold.
    pose proof (fold_add_key_set keys (list_to_set (get_seen d)) false) as Hset.
    rewrite Hfold in Hset. cbn [fst] in Hset.
    destruct Hsurf as [u1 [Hu1 Hn1]].
    assert (~ In true u1) as Hn1' by (intros H; now apply Hn1 in H).
    destruct changed.
    + pose proof (fold_add_key_changed keys (list_to_set (get_seen d)) false) as Hch.
      rewrite Hfold in Hch. destruct (Hch eq_refl) as [|[k [Hk Hnk]]]; [easy|].
      rewrite elem_of_list_to_set in Hnk.
      rewrite Hset. fold (merged d keys). unfold bind.
      destruct (_write (merged d keys) m1) as [[[]|e|] m2] eqn:Hw;
        apply _write_spec in Hw; destruct Hw as (Hself2 & Hlock2 & Hsurf2 & Hout2).
      * unfold set__data. intros [= <- <-]. cbn [self env lock_timeout_s _data].
        unfold same_lock in *. conjs; try (intuition congruence).
        { apply (faults_surface_step _ (env m1) _ u1 _ (Ret tt) Hu1 Hn1').
          destruct Hsurf2 as [u2 [Hu2 Hn2]]. now exists u2. }
        exists d. split; [exact Hout|]. right. destruct Hout2. conjs; eauto.
      * intros [= <- <-]. unfold same_lock in *. conjs; try (intuition congruence).
        apply (faults_surface_step _ (env m1) _ u1 _ (Ret tt) Hu1 Hn1'). exact Hsurf2.
      * easy.
    + pose proof (fold_add_key_unchanged keys (list_to_set (get_seen d)) false) as Hun.
      rewrite Hfold in Hun. destruct (Hun eq_refl) as [_ Hall].
      unfold ret. intros [= <- <-]. conjs; try easy.
      * now rewrite Hself.
      * now exists u1.
      * exists d. split; [exact Hout|]. left. conjs; try easy.
        intros k Hk. apply Hall in Hk. now rewrite elem_of_list_to_set in Hk.
  - intros [= <- <-]. conjs; try easy. now rewrite Hself.
  - easy.
Qed.

(** Keys that the file knows already: nothing is written. *)
Lemma update_seen_known keys m d out m' :
  state_file (env m) = Some (Whole d) ->
  (forall k, In k keys -> k ∈ get_seen d) ->
  update_seen keys m = (out, m') ->
  self m' = self m /\ state_file (env m') = state_file (env m)
  /\ tmp_file (env m') = tmp_file (env m) /\ same_lock (env m) (env m')
  /\ out <> Raise TimeoutError /\ out <> Spin.
Proof.
  intros Hd Hall. unfold update_seen. unfold bind at 1.
  destruct (_read m) as [[d'|e|] m1] eqn:Hr; apply _read_spec in Hr;
    destruct Hr as (Hself & Hst & Htmp & Hlock & Hsurf & Hout).
  - assert (d' = d) as -> by congruence.
    rewrite fold_add_key_known.
    + unfold ret. intros [= <- <-]. conjs; easy.
    + intros k Hk. rewrite elem_of_list_to_set. auto.
  - intros [= <- <-]. conjs; try easy. congruence.
  - easy.
Qed.

(** *** [add_many] as a whole *)

Lemma add_many_run keys m :
  add_many keys m =
  match List.filter truthy keys with
  | [] => (Ret tt, m)
  | k :: ks =>
      let T := lock_timeout_s (self m) in
      match acquire_loop (enough_turns T) T (clock (env m)) (env m) with
      | (Ret _, w1) =>
          let '(o, m2) := update_seen (k :: ks) {| self := self m; env := w1 |} in
          (o, {| self := self m2; env := set_lock_file false (env m2) |})
      | (Raise e, w1) => (Raise e, {| self := self m; env := w1 |})
      | (Spin, w1) => (Spin, {| self := self m; env := w1 |})
      end
  end.
Proof.
  unfold add_many. destruct (List.filter truthy keys) as [|k ks]; [easy|].
  unfold bind at 1, _acquire_lock, bind at 1, get_state, on_env, bind, time_time.
  cbv zeta.
  now destruct (acquire_loop _ _ _ _) as [[[]|e|] w1].
Qed.

Lemma filter_truthy_In keys k : In k (List.filter truthy keys) -> In k keys /\ k <> [].
Proof.
  intros [H1 H2]%filter_In. split; [exact H1|]. now destruct k.
Qed.

(** What one call does, case by case. *)
Lemma add_many_spec keys m out m' :
  add_many keys m = (out, m') ->
  let ks := List.filter truthy keys in
  lock_timeout_s (self m') = lock_timeout_s (self m)
  /\ out <> Spin
  /\ faults_surface (env m) (env m') out
  /\ (ks = [] -> out = Ret tt /\ m' = m)
  /\ (ks <> [] -> out <> Raise TimeoutError -> lock_file (env m') = false)
  /\ match out with
     | Raise e => self m' = self m /\ state_file (env m') = state_file (env m)
     | Ret _ =>
         ks = [] \/
         exists d, state_file (env m) = Some (Whole d) /\
           ((self m' = self m /\ state_file (env m') = state_file (env m)
             /\ tmp_file (env m') = tmp_file (env m)
             /\ forall k, In k ks -> k ∈ get_seen d)
            \/ (state_file (env m') = Some (Whole (merged d ks))
                /\ tmp_file (env m') = None
                /\ _data (self m') = merged d ks
                /\ exists k, In k ks /\ k ∉ get_seen d))
     | Spin => False
     end.
Proof.
  rewrite add_many_run. cbv zeta.
  destruct (List.filter truthy keys) as [|k ks] eqn:Hks.
  { intros [= <- <-]. conjs; try easy; [|now left]. exists []. easy. }
  destruct (acquire_loop _ _ _ _) as [[[]|e|] w1] eqn:Ha.
  - apply acquire_loop_spec in Ha as ((Hs & Ht & Hf) & Hl).
    destruct (update_seen _ _) as [o m2] eqn:Hu. intros [= <- <-].
    apply update_seen_spec in Hu as (Hlock & Hto & Hsurf & Ho).
    cbn [self env] in *. conjs; try easy.
    + now destruct o.
    + destruct Hsurf as [u [Hu Hn]]. exists u. split; [simpl; now rewrite <- Hf | exact Hn].
    + destruct o as [[]|e|]; [|simpl; intuition congruence|easy]. right.
      destruct Ho as [d [Hd Hcases]]. exists d. rewrite <- Hs, <- Ht. simpl. easy.
  - pose proof (acquire_loop_spec _ _ _ _ Ha) as ((Hs & Ht & Hf) & (-> & Hl & _)).
    intros [= <- <-]. cbn [self env]. conjs; try easy.
    exists []. now rewrite Hf.
  - exfalso. apply (enough_turns_enough (lock_timeout_s (self m)) (env m)).
    now rewrite Ha.
Qed.

(** *** The order of the keys *)

Lemma str_leb_total a : forall b, str_leb a b = true \/ str_leb b a = true.
Proof.
  induction a as [|x a IH]; intros [|y b]; simpl; auto.
  destruct (N.ltb_spec x y); [now left|].
  destruct (N.ltb_spec y x); [now right|].
  assert (x = y) as -> by lia. rewrite N.eqb_refl. apply IH.
Qed.

#[local] Instance str_le_total : Total str_le.
Proof. intros a b. apply str_leb_total. Qed.

Lemma str_leb_trans a : forall b c,
  str_leb a b = true -> str_leb b c = true -> str_leb a c = true.
Proof.
  induction a as [|x a IH]; intros [|y b] [|z c]; simpl; try easy.
  destruct (N.ltb_spec x y) as [Hxy|Hxy].
  - intros _. destruct (N.ltb_spec y z) as [Hyz|Hyz].
    + intros _. destruct (N.ltb_spec x z); [easy | lia].
    + destruct (N.eqb_spec y z) as [->|]; [|easy]. intros _.
      destruct (N.ltb_spec x z); [easy | lia].
  - destruct (N.eqb_spec x y) as [->|]; [|easy]. intros Hab.
    destruct (N.ltb_spec y z); [easy|].
    destruct (N.eqb_spec y z) as [->|]; [|easy]. now apply IH.
Qed.

#[local] Instance str_le_trans : Transitive str_le.
Proof. intros a b c. apply str_leb_trans. Qed.

Lemma sorted_Sorted (s : gset key) : StronglySorted str_le (sorted s).
Proof. apply StronglySorted_merge_sort; apply _. Qed.

Lemma sorted_elem (s : gset key) k : k ∈ sorted s <-> k ∈ s.
Proof. unfold sorted. now rewrite merge_sort_Permutation, elem_of_elements. Qed.

Lemma sorted_NoDup (s : gset key) : NoDup (sorted s).
Proof. unfold sorted. rewrite merge_sort_Permutation. apply NoDup_elements. Qed.

Lemma get_seen_merged d ks :
  get_seen (merged d ks) = sorted (list_to_set (get_seen d) ∪ list_to_set ks).
Proof. reflexivity. Qed.

Lemma merged_well_kept d ks :
  [] ∉ get_seen d -> (forall k, In k ks -> k <> []) ->
  well_kept (Some (Whole (merged d ks))).
Proof.
  intros Hd Hks. exists (merged d ks), (sorted (list_to_set (get_seen d) ∪ list_to_set ks)).
  conjs; try easy.
  - apply sorted_Sorted.
  - apply sorted_NoDup.
  - rewrite sorted_elem, elem_of_union, !elem_of_list_to_set.
    intros [H|H]; [easy|]. apply list_elem_of_In in H. now apply Hks in H.
Qed.

(** *** The properties of the store *)

(** C2: a fault in reading or writing the data files makes [add_many]
    fail; a failed [add_many] leaves the snapshot and the state file as
    they were; and whatever happens the state file afterwards is the old
    one or the complete new document, which is then also the snapshot. *)
Theorem add_many_failure_leaves_old_state keys m out m' :
  add_many keys m = (out, m') ->
  (forall used, faults (env m) = used ++ faults (env m') -> In true used -> fails out)
  /\ (fails out ->
      _data (self m') = _data (self m) /\ state_file (env m') = state_file (env m))
  /\ (state_file (env m') = state_file (env m)
      \/ exists d, state_file (env m) = Some (Whole d)
           /\ state_file (env m') = Some (Whole (merged d (List.filter truthy keys)))
           /\ _data (self m') = merged d (List.filter truthy keys)
           /\ out = Ret tt).
Proof.
  intros Hrun. apply add_many_spec in Hrun. cbv zeta in Hrun.
  destruct Hrun as (_ & _ & [u [Hu Hn]] & Hnil & _ & Ho). conjs.
  - intros used E. rewrite Hu in E. apply app_inv_tail in E. now subst.
  - destruct out as [[]|e|]; [easy | | easy]. intros _. destruct Ho as [-> ->]. easy.
  - destruct out as [[]|e|]; [| now left | easy].
    destruct Ho as [Hks|[d [Hd [H|H]]]].
    + left. now destruct (Hnil Hks) as [_ ->].
    + now left.
    + right. exists d. easy.
Qed.

Lemma add_many_failure_leaves_old_state_witness :
  dump_fails_run.1 = Raise OSError
  /\ _data (self dump_fails_run.2) = _data (self dump_fails_machine)
  /\ state_file (env dump_fails_run.2) = state_file (env dump_fails_machine).
Proof.
  split; [vm_compute; reflexivity|].
  refine (proj1 (proj2 (add_many_failure_leaves_old_state [U "a"] dump_fails_machine
                          dump_fails_run.1 dump_fails_run.2 _)) _).
  - vm_compute. reflexivity.
  - vm_compute. exact I.
Defined.

Lemma enough_turns_S T : enough_turns T = S (S (Z.to_nat (10 * T))).
Proof. unfold enough_turns. lia. Qed.

(** C3 as stated fails: with every key already in the stored list the call
    still takes the lock, so it is no no-op while someone else holds the
    lock file: on [held_known_machine] it waits and raises
    [TimeoutError]. *)
Lemma add_many_known_keys_not_a_noop :
  ~ (forall keys m d,
       state_file (env m) = Some (Whole d) ->
       (forall k, In k keys -> k ∈ get_seen d) ->
       add_many keys m = (Ret tt, m)).
Proof.
  intros H.
  specialize (H [U "a"] held_known_machine (merged empty_doc [U "a"]) eq_refl).
  assert ((add_many [U "a"] held_known_machine).1 = Raise TimeoutError) as E
    by (vm_compute; reflexivity).
  rewrite H in E; [discriminate E|].
  intros k [<-|[]]. vm_compute. apply list_elem_of_here.
Qed.

(** C3, amended: a second [add_many] of the same keys right after a
    successful one writes nothing, changes neither file nor snapshot and
    does not time out; with no key left after the empty ones are dropped
    the call does nothing at all, the lock included; with keys that the
    file already holds it writes nothing but still takes the lock and
    reads the file: it leaves everything as it was when the lock is free
    and no fault is due, and it raises [TimeoutError] when someone else
    keeps the lock file. *)
Theorem add_many_idempotent :
  (forall keys m m1 out m2,
     add_many keys m = (Ret tt, m1) -> add_many keys m1 = (out, m2) ->
     state_file (env m2) = state_file (env m1)
     /\ tmp_file (env m2) = tmp_file (env m1)
     /\ _data (self m2) = _data (self m1)
     /\ out <> Raise TimeoutError /\ out <> Spin)
  /\ (forall keys m, List.filter truthy keys = [] -> add_many keys m = (Ret tt, m))
  /\ (forall keys m d out m',
        state_file (env m) = Some (Whole d) ->
        (forall k, In k keys -> k <> [] -> k ∈ get_seen d) ->
        add_many keys m = (out, m') ->
        state_file (env m') = state_file (env m)
        /\ tmp_file (env m') = tmp_file (env m)
        /\ _data (self m') = _data (self m))
  /\ (forall keys m d,
        state_file (env m) = Some (Whole d) ->
        (forall k, In k keys -> k <> [] -> k ∈ get_seen d) ->
        lock_file (env m) = false -> faults (env m) = [] ->
        add_many keys m = (Ret tt, m))
  /\ (forall keys m d,
        state_file (env m) = Some (Whole d) ->
        (forall k, In k keys -> k <> [] -> k ∈ get_seen d) ->
        List.filter truthy keys <> [] ->
        lock_file (env m) = true -> lock_release (env m) = None ->
        (add_many keys m).1 = Raise TimeoutError).
Proof.
  assert (forall keys m d out m',
            state_file (env m) = Some (Whole d) ->
            (forall k, In k (List.filter truthy keys) -> k ∈ get_seen d) ->
            add_many keys m = (out, m') ->
            state_file (env m') = state_file (env m)
            /\ tmp_file (env m') = tmp_file (env m)
            /\ _data (self m') = _data (self m)
            /\ (lock_file (env m) = false -> out <> Raise TimeoutError)
            /\ out <> Spin) as Hknown.
  { intros keys m d out m' Hd Hall. rewrite add_many_run. cbv zeta.
    destruct (List.filter truthy keys) as [|k ks] eqn:Hks.
    { now intros [= <- <-]. }
    destruct (acquire_loop _ _ _ _) as [[[]|e|] w1] eqn:Ha.
    - pose proof (acquire_loop_spec _ _ _ _ Ha) as ((Hs & Ht & Hf) & Hl).
      destruct (update_seen _ _) as [o m2] eqn:Hu. intros [= <- <-].
      apply (update_seen_known _ _ d) in Hu; [|cbn [env]; congruence|exact Hall].
      cbn [self env] in *. destruct Hu as (Hu1 & Hu2 & Hu3 & _ & Ho1 & Ho2).
      simpl. conjs; try congruence; easy.
    - pose proof (acquire_loop_spec _ _ _ _ Ha) as ((Hs & Ht & Hf) & (-> & Hl & _)).
      intros [= <- <-]. cbn [self env]. conjs; try easy.
      intros Hfree. rewrite enough_turns_S, acquire_loop_free in Ha by exact Hfree.
      discriminate Ha.
    - exfalso. apply (enough_turns_enough (lock_timeout_s (self m)) (env m)).
      now rewrite Ha. }
  conjs.
  - intros keys m m1 out m2 H1 H2.
    pose proof (add_many_spec _ _ _ _ H1) as (_ & _ & _ & Hnil & Hlock & Ho).
    cbv zeta in *. destruct Ho as [Hks|[d [Hd Hcases]]].
    { destruct (Hnil Hks) as [_ ->]. rewrite H1 in H2. injection H2 as <- <-. easy. }
    destruct (List.filter truthy keys) as [|k ks] eqn:Hks.
    { destruct (Hnil eq_refl) as [_ ->]. rewrite H1 in H2. injection H2 as <- <-. easy. }
    assert (exists d1, state_file (env m1) = Some (Whole d1)
                       /\ forall k', In k' (k :: ks) -> k' ∈ get_seen d1) as [d1 [Hd1 Hall]].
    { destruct Hcases as [(_ & Hs & _ & Hall)|(Hs & _ & _ & _)].
      - exists d. split; [congruence | exact Hall].
      - exists (merged d (k :: ks)). split; [exact Hs|].
        intros k' Hk'. rewrite get_seen_merged.
        rewrite sorted_elem, elem_of_union, !elem_of_list_to_set. right.
        now apply list_elem_of_In. }
    rewrite <- Hks in Hall.
    destruct (Hknown keys m1 d1 out m2 Hd1 Hall H2) as (? & ? & ? & Hto & ?).
    conjs; try easy. apply Hto, Hlock; easy.
  - intros keys m Hks. rewrite add_many_run. now rewrite Hks.
  - intros keys m d out m' Hd Hall Hrun.
    destruct (Hknown keys m d out m' Hd) as (? & ? & ? & _); try easy.
    intros k Hk. apply filter_truthy_In in Hk as [Hk Hne]. auto.
  - intros keys m d Hd Hall Hfree Hnofault. rewrite add_many_run. cbv zeta.
    destruct (List.filter truthy keys) as [|k ks] eqn:Hks; [easy|].
    rewrite enough_turns_S, acquire_loop_free by exact Hfree.
    destruct m as [s w], w as [sf tf lf ck lr lg fs bw].
    cbn [env self lock_file faults state_file] in *. subst sf lf fs.
    unfold update_seen, bind, _read, on_env, read_state_file, bind, next_fault,
      get_state, ret.
    cbn [env self set_lock_file faults state_file tmp_file lock_file clock lock_release
         lags].
    rewrite fold_add_key_known; [reflexivity|].
    intros k' Hk'. rewrite elem_of_list_to_set. rewrite <- Hks in Hk'.
      apply filter_truthy_In in Hk' as [Hk' Hne]. auto.
  - intros keys m d _ _ Hks Hheld Hnever. rewrite add_many_run. cbv zeta.
    destruct (List.filter truthy keys) as [|k ks]; [easy|].
    destruct (acquire_loop _ _ _ _) as [[[]|e|] w1] eqn:Ha.
    + exfalso. rewrite <- (later_0 (env m)) in Ha at 2.
      apply acquire_loop_from in Ha as (n & _ & _ & Hfree & _).
      apply Hfree. unfold there_at. now rewrite Hheld, Hnever.
    + now pose proof (acquire_loop_spec _ _ _ _ Ha) as (_ & -> & _).
    + exfalso. apply (enough_turns_enough (lock_timeout_s (self m)) (env m)).
      now rewrite Ha.
Qed.

Lemma add_many_idempotent_witness :
  get_seen (_data (self first_run.2)) = [U "a"; U "b"]
  /\ state_file (env second_run.2) = state_file (env first_run.2)
  /\ tmp_file (env second_run.2) = tmp_file (env first_run.2)
  /\ _data (self second_run.2) = _data (self first_run.2)
  /\ second_run.1 <> Raise TimeoutError /\ second_run.1 <> Spin.
Proof.
  split; [vm_compute; reflexivity|].
  apply (proj1 add_many_idempotent some_keys new_store first_run.2
           second_run.1 second_run.2);
    vm_compute; reflexivity.
Defined.




(** C10: the list of a store created on an empty directory is empty, and
    [add_many] keeps the persisted list sorted, free of duplicates and
    free of the empty string. *)
Theorem seen_list_well_kept :
  (forall T w s w',
     state_file w = None -> __init__ T w = (Ret s, w') ->
     well_kept (state_file w') /\ seen (_data s) = Some []
     /\ state_file w' = Some (Whole (_data s)))
  /\ (forall keys m out m',
        well_kept (state_file (env m)) -> add_many keys m = (out, m') ->
        well_kept (state_file (env m'))).
Proof.
  split.
  - intros T w s w' Hnone. unfold __init__. unfold bind at 1, get_state at 1.
    rewrite Hnone. unfold bind at 1.
    destruct ((_ ;;; _ ;;; replace_state_by_tmp) w) as [[[]|e|] w1] eqn:Hw; try easy.
    apply write_steps_spec in Hw as (_ & _ & Hs & _).
    unfold bind at 1.
    destruct (read_state_file w1) as [[d|e|] w2] eqn:Hr; try easy.
    apply read_state_file_spec in Hr as (Hs2 & _ & _ & _ & Hd).
    unfold ret. intros [= <- <-]. cbn [_data].
    assert (d = empty_doc) as -> by (unfold empty_doc; congruence).
    conjs; [|easy|congruence].
    exists empty_doc, []. rewrite Hs2, Hs. conjs; try easy; constructor.
  - intros keys m out m' Hinv Hrun.
    apply add_many_spec in Hrun. cbv zeta in Hrun.
    destruct Hrun as (_ & _ & _ & Hnil & _ & Ho).
    destruct out as [[]|e|]; [| destruct Ho as [_ ->]; exact Hinv | easy].
    destruct Ho as [Hks|[d [Hd [H|H]]]].
    + now destruct (Hnil Hks) as [_ ->].
    + destruct H as (_ & -> & _). exact Hinv.
    + destruct H as (-> & _).
      destruct Hinv as (d0 & l & Hd0 & Hl & _ & _ & Hne).
      assert (d0 = d) as -> by congruence.
      apply merged_well_kept.
      * unfold get_seen. now rewrite Hl.
      * intros k Hk. now apply filter_truthy_In in Hk.
Qed.

Lemma seen_list_well_kept_witness :
  well_kept (state_file (__init__ 10 fresh_world).2)
  /\ well_kept (state_file (env first_run.2)).
Proof.
  assert (well_kept (state_file (__init__ 10 fresh_world).2)) as Hinit.
  { apply (proj1 seen_list_well_kept 10 fresh_world (self new_store)
             (__init__ 10 fresh_world).2);
      vm_compute; reflexivity. }
  split; [exact Hinit|].
  apply (proj2 seen_list_well_kept some_keys new_store first_run.1 first_run.2).
  - exact Hinit.
  - vm_compute. reflexivity.
Defined.

End StateFacts.

(** ** Laws of the store *)

Module StoreLaws.
Import Py State StateSpec StoreSpec PyFacts StateFacts.

Local Open Scope Z_scope.

Lemma truthy_ne (k : str) : truthy k = true <-> k <> [].
Proof. destruct k; simpl; split; congruence. Qed.

Lemma filter_truthy_elem keys k :
  In k (List.filter truthy keys) <-> In k keys /\ k <> [].
Proof. rewrite filter_In, truthy_ne. tauto. Qed.

(** The flag of the loop of [add_many] is raised exactly when a key is new. *)
Lemma fold_add_key_flag (keys : list key) (s : gset key) :
  (fold_left add_key keys (s, false)).2
  = negb (forallb (fun k => bool_decide (k ∈ s)) keys).
Proof.
  destruct (fold_left add_key keys (s, false)).2 eqn:Hc.
  - apply fold_add_key_changed in Hc as [Hc|[k [Hin Hk]]]; [discriminate|].
    symmetry. apply negb_true_iff, not_true_is_false. intros Hall.
    rewrite forallb_forall in Hall. apply Hall in Hin.
    now apply bool_decide_eq_true in Hin.
  - apply fold_add_key_unchanged in Hc as [_ Hall].
    symmetry. apply negb_false_iff, forallb_forall. intros k Hk.
    apply bool_decide_eq_true_2. auto.
Qed.

Lemma fold_add_key_run (keys : list key) (s : gset key) :
  fold_left add_key keys (s, false)
  = (s ∪ list_to_set keys, negb (forallb (fun k => bool_decide (k ∈ s)) keys)).
Proof.
  rewrite <- fold_add_key_flag, <- (fold_add_key_set keys s false).
  now destruct (fold_left add_key keys (s, false)).
Qed.

Lemma forallb_eq {A} (f g : A -> bool) l :
  (forall x, f x = g x) -> forallb f l = forallb g l.
Proof. intros H. induction l as [|x l IH]; simpl; [easy|]. now rewrite H, IH. Qed.

Lemma world_eta (w : world) :
  {| state_file := state_file w; tmp_file := tmp_file w; lock_file := lock_file w;
     clock := clock w; lock_release := lock_release w; lags := lags w;
     faults := faults w; bare_write := bare_write w |} = w.
Proof. now destruct w. Qed.

Lemma machine_eta (m : machine) : {| self := self m; env := env m |} = m.
Proof. now destruct m. Qed.

(** What [add_many] does when nothing stands in its way. *)
Lemma add_many_calm keys m d :
  calm m d ->
  add_many keys m
  = (Ret tt, if all_known d keys then m
             else written (merged d (List.filter truthy keys)) m).
Proof.
  intros (Hd & Hfree & Hnofault). rewrite add_many_run. cbv zeta. unfold all_known.
  destruct (List.filter truthy keys) as [|k ks] eqn:Hks; [easy|].
  rewrite enough_turns_S, acquire_loop_free by exact Hfree.
  destruct m as [s w], w as [sf tf lf ck lr lg fs bw].
  cbn [env self lock_file faults state_file] in *. subst sf lf fs.
  unfold update_seen, bind, _read, on_env, read_state_file, bind, next_fault,
    get_state, ret.
  cbn [env self set_lock_file faults state_file tmp_file lock_file clock lock_release
       lags].
  rewrite fold_add_key_run.
  match goal with
  | |- context [negb (forallb ?f ?l)] =>
      assert (forallb f l = forallb (fun k0 => bool_decide (k0 ∈ get_seen d)) l) as ->
  end.
  { apply forallb_eq. intros x. apply bool_decide_ext. apply elem_of_list_to_set. }
  destruct (forallb _ (k :: ks)); cbn [negb]; [reflexivity|].
  unfold _write, set__data, on_env, bind, open_tmp_for_writing, dump_to_tmp,
    replace_state_by_tmp, bind, next_fault, get_state, put_state, raise.
  reflexivity.
Qed.

Lemma calm_written d data m : calm m d -> calm (written data m) data.
Proof. intros (Hd & Hfree & Hnofault). unfold calm, written. simpl. auto. Qed.

Lemma written_twice d1 d2 m : written d2 (written d1 m) = written d2 m.
Proof. reflexivity. Qed.

Lemma get_seen_merged_elem d ks k :
  k ∈ get_seen (merged d ks) <-> k ∈ get_seen d \/ In k ks.
Proof.
  rewrite get_seen_merged, sorted_elem, elem_of_union, !elem_of_list_to_set.
  rewrite !list_elem_of_In. tauto.
Qed.

Lemma all_known_spec d keys :
  all_known d keys = true <-> forall k, In k keys -> k <> [] -> k ∈ get_seen d.
Proof.
  unfold all_known. rewrite forallb_forall. split.
  - intros H k Hin Hne. eapply bool_decide_eq_true_1, H, filter_truthy_elem. easy.
  - intros H k Hk. apply filter_truthy_elem in Hk as [Hin Hne].
    apply bool_decide_eq_true_2. auto.
Qed.

Lemma all_known_app d ks1 ks2 :
  all_known d (ks1 ++ ks2) = all_known d ks1 && all_known d ks2.
Proof. unfold all_known. now rewrite List.filter_app, forallb_app. Qed.

Lemma merged_same_set d d' ks ks' :
  extra d = extra d' ->
  (forall k, k ∈ get_seen d \/ In k ks <-> k ∈ get_seen d' \/ In k ks') ->
  merged d ks = merged d' ks'.
Proof.
  intros He Hset. unfold merged. rewrite He. do 3 f_equal.
  apply set_eq. intros k. rewrite !elem_of_union, !elem_of_list_to_set.
  specialize (Hset k). rewrite !list_elem_of_In in *. exact Hset.
Qed.

(** X1: [add_many] looks at the set of its non-empty keys only. *)
Theorem add_many_set_of_keys ks1 ks2 m :
  (forall k, k <> [] -> (In k ks1 <-> In k ks2)) ->
  add_many ks1 m = add_many ks2 m.
Proof.
  intros Hsame.
  assert (forall k, In k (List.filter truthy ks1) <-> In k (List.filter truthy ks2))
    as Hf.
  { intros k. rewrite !filter_truthy_elem. specialize (Hsame k). tauto. }
  rewrite !add_many_run. cbv zeta.
  destruct (List.filter truthy ks1) as [|a l1] eqn:H1,
           (List.filter truthy ks2) as [|b l2] eqn:H2.
  - reflexivity.
  - exfalso. apply (proj2 (Hf b)). now left.
  - exfalso. apply (proj1 (Hf a)). now left.
  - destruct (acquire_loop _ _ _ _) as [[[]|e|] w1]; try reflexivity.
    assert (forall m0, update_seen (a :: l1) m0 = update_seen (b :: l2) m0) as ->;
      [|reflexivity].
    assert (forall s : gset key,
              fold_left add_key (a :: l1) (s, false)
              = fold_left add_key (b :: l2) (s, false)) as Hfold.
    { intros s. rewrite !fold_add_key_run. f_equal.
      - apply set_eq. intros k.
        rewrite !elem_of_union, !elem_of_list_to_set, !list_elem_of_In.
        specialize (Hf k). tauto.
      - f_equal. apply eq_true_iff_eq. rewrite !forallb_forall.
        split; intros H k Hk; apply H, Hf, Hk. }
    intros m0. unfold update_seen, bind. destruct (_read m0) as [[d|e|] m1]; try easy.
    now rewrite Hfold.
Qed.

Lemma add_many_set_of_keys_witness :
  add_many [U "a"; U "b"; []; U "a"] new_store = add_many [U "b"; U "a"] new_store.
Proof.
  apply add_many_set_of_keys. intros k Hk. simpl. intuition congruence.
Defined.

(** X2: in a calm world two calls of [add_many] in a row leave the machine
    that one call with all the keys leaves. *)
Theorem add_many_twice_is_once ks1 ks2 m d :
  calm m d ->
  (add_many ks1 m).1 = Ret tt
  /\ add_many ks2 (add_many ks1 m).2 = add_many (ks1 ++ ks2) m.
Proof.
  intros Hcalm. rewrite (add_many_calm ks1 m d Hcalm). split; [reflexivity|].
  rewrite (add_many_calm (ks1 ++ ks2) m d Hcalm). cbn [snd].
  rewrite List.filter_app.
  destruct (all_known d ks1) eqn:K1.
  - rewrite (add_many_calm ks2 m d Hcalm).
    rewrite all_known_app, K1. cbn [andb].
    destruct (all_known d ks2) eqn:K2; [reflexivity|].
    f_equal. f_equal. apply merged_same_set; [reflexivity|].
    intros k. rewrite in_app_iff, !filter_truthy_elem.
    rewrite all_known_spec in K1. specialize (K1 k). tauto.
  - rewrite (add_many_calm ks2 _ _ (calm_written d _ m Hcalm)).
    rewrite all_known_app, K1. cbn [andb].
    destruct (all_known _ ks2) eqn:K2.
    + f_equal. f_equal. apply merged_same_set; [reflexivity|].
      intros k. rewrite in_app_iff, !filter_truthy_elem.
      rewrite all_known_spec in K2. specialize (K2 k).
      rewrite get_seen_merged_elem, filter_truthy_elem in K2. tauto.
    + rewrite written_twice. f_equal. f_equal. apply merged_same_set; [reflexivity|].
      intros k. rewrite in_app_iff, get_seen_merged_elem. tauto.
Qed.

Lemma add_many_twice_is_once_witness :
  add_many [U "b"; U "c"] (add_many [U "b"; U "a"] new_store).2
  = add_many ([U "b"; U "a"] ++ [U "b"; U "c"]) new_store.
Proof.
  apply (add_many_twice_is_once [U "b"; U "a"] [U "b"; U "c"] new_store empty_doc).
  unfold calm. simpl. easy.
Defined.

(** X3: after [add_many] has returned on a store whose snapshot was the
    content of the file, the snapshot is the content of the file again,
    and [is_seen] answers yes for exactly the keys that were seen before
    and the non-empty keys of the call. *)
Theorem add_many_then_is_seen keys m m' :
  in_step m -> add_many keys m = (Ret tt, m') ->
  in_step m'
  /\ forall k,
       is_seen k m'
       = (Ret (bool_decide (k ∈ get_seen (_data (self m)) \/ (k ∈ keys /\ k <> []))),
          m').
Proof.
  unfold in_step. intros Hstep Hrun.
  pose proof (add_many_spec _ _ _ _ Hrun) as (_ & _ & _ & Hnil & _ & Ho).
  cbv zeta in *.
  assert (forall k, is_seen k m' = (Ret (bool_decide (k ∈ get_seen (_data (self m')))), m'))
    as Hseen by reflexivity.
  destruct Ho as [Hks|[d [Hd [(Hself & Hsf & _ & Hall)|(Hsf & _ & Hdata & _)]]]].
  - destruct (Hnil Hks) as [_ ->]. split; [exact Hstep|].
    intros k. rewrite Hseen. do 2 f_equal. apply bool_decide_ext.
    split; [tauto|]. intros [H|H]; [exact H|].
    rewrite list_elem_of_In in H. apply filter_truthy_elem in H.
    rewrite Hks in H. destruct H.
  - rewrite Hstep in Hd. injection Hd as <-. split; [congruence|].
    intros k. rewrite Hseen, Hself. do 2 f_equal. apply bool_decide_ext.
    split; [tauto|]. intros [H|H]; [exact H|].
    rewrite list_elem_of_In in H. apply Hall, filter_truthy_elem, H.
  - rewrite Hstep in Hd. injection Hd as <-. split; [congruence|].
    intros k. rewrite Hseen, Hdata. do 2 f_equal. apply bool_decide_ext.
    rewrite get_seen_merged_elem, filter_truthy_elem, (list_elem_of_In keys k). tauto.
Qed.

Lemma add_many_then_is_seen_witness :
  in_step first_run.2
  /\ is_seen (U "a") first_run.2 = (Ret true, first_run.2)
  /\ is_seen [] first_run.2 = (Ret false, first_run.2).
Proof.
  assert (in_step new_store) as Hstep by reflexivity.
  assert (add_many some_keys new_store = (Ret tt, first_run.2)) as Hrun
    by (vm_compute; reflexivity).
  destruct (add_many_then_is_seen some_keys new_store first_run.2 Hstep Hrun)
    as [H1 H2].
  split; [exact H1|]. split.
  - rewrite (H2 (U "a")). f_equal.
  - rewrite (H2 []). f_equal.
Defined.

(** X4: a call of [add_many] that finds all its keys in the file leaves
    the snapshot as it was, so [is_seen] keeps answering no for a key that
    another process has added to the file. *)
Theorem stale_snapshot_is_kept k m d :
  state_file (env m) = Some (Whole d) ->
  k ∈ get_seen d -> k ∉ get_seen (_data (self m)) ->
  (forall out m', add_many [k] m = (out, m') -> is_seen k m' = (Ret false, m'))
  /\ (lock_file (env m) = false -> faults (env m) = [] ->
      add_many [k] m = (Ret tt, m)).
Proof.
  intros Hd Hin Hout. split.
  - intros out m' Hrun.
    assert (_data (self m') = _data (self m)) as Hsame.
    { pose proof (add_many_spec _ _ _ _ Hrun) as (_ & _ & _ & Hnil & _ & Ho).
      cbv zeta in *. destruct out as [[]|e|]; [|now destruct Ho as [-> _]|easy].
      destruct Ho as [Hks|[d' [Hd' [(Hself & _)|(_ & _ & _ & k' & Hk' & Hnew)]]]].
      - now destruct (Hnil Hks) as [_ ->].
      - now rewrite Hself.
      - exfalso. apply Hnew. rewrite Hd in Hd'. injection Hd' as <-.
        apply filter_truthy_elem in Hk' as [[<-|[]] _]. exact Hin. }
    unfold is_seen, bind, get_state, ret. rewrite Hsame.
    now rewrite bool_decide_eq_false_2.
  - intros Hfree Hnofault. rewrite (add_many_calm [k] m d); [|easy].
    assert (all_known d [k] = true) as ->; [|reflexivity].
    apply all_known_spec. now intros k' [<-|[]] _.
Qed.

Lemma stale_snapshot_is_kept_witness :
  add_many [U "a"] stale_store = (Ret tt, stale_store)
  /\ is_seen (U "a") stale_store = (Ret false, stale_store).
Proof.
  assert (state_file (env stale_store) = Some (Whole (merged empty_doc [U "a"])))
    as Hd by reflexivity.
  assert (U "a" ∈ get_seen (merged empty_doc [U "a"])) as Hin
    by (vm_compute; apply list_elem_of_here).
  assert (U "a" ∉ get_seen (_data (self stale_store))) as Hout
    by (vm_compute; apply not_elem_of_nil).
  destruct (stale_snapshot_is_kept _ _ _ Hd Hin Hout) as [H1 H2].
  assert (add_many [U "a"] stale_store = (Ret tt, stale_store)) as Hrun
    by (apply H2; reflexivity).
  split; [exact Hrun | exact (H1 _ _ Hrun)].
Defined.

(** X5: whatever the outcome, [add_many] leaves a document in the state
    file that holds every key it held, no key besides those and the
    non-empty keys of the call, and the other entries as they were. *)
Theorem add_many_only_adds keys m d out m' :
  state_file (env m) = Some (Whole d) -> add_many keys m = (out, m') ->
  exists d',
    state_file (env m') = Some (Whole d')
    /\ extra d' = extra d
    /\ (forall k, k ∈ get_seen d -> k ∈ get_seen d')
    /\ (forall k, k ∈ get_seen d' -> k ∈ get_seen d \/ (In k keys /\ k <> []))
    /\ (d' = d \/ version d' = Some 1).
Proof.
  intros Hd Hrun.
  pose proof (add_many_spec _ _ _ _ Hrun) as (_ & _ & _ & Hnil & _ & Ho).
  cbv zeta in *.
  assert (state_file (env m') = state_file (env m)
          \/ state_file (env m') = Some (Whole (merged d (List.filter truthy keys))))
    as [Hsame|Hnew].
  { destruct out as [[]|e|]; [|now left|easy].
    destruct Ho as [Hks|[d' [Hd' [(_ & Hsf & _)|(Hsf & _)]]]].
    - left. now destruct (Hnil Hks) as [_ ->].
    - now left.
    - right. rewrite Hd in Hd'. now injection Hd' as <-. }
  - exists d. rewrite Hsame. repeat split; auto.
  - exists (merged d (List.filter truthy keys)). repeat split; auto.
    + intros k Hk. apply get_seen_merged_elem. now left.
    + intros k Hk. apply get_seen_merged_elem in Hk. rewrite filter_truthy_elem in Hk.
      exact Hk.
Qed.

Lemma add_many_only_adds_witness :
  exists d',
    state_file (env first_run.2) = Some (Whole d')
    /\ extra d' = extra empty_doc
    /\ (forall k, k ∈ get_seen empty_doc -> k ∈ get_seen d')
    /\ (forall k, k ∈ get_seen d' -> k ∈ get_seen empty_doc \/ (In k some_keys /\ k <> []))
    /\ (d' = empty_doc \/ version d' = Some 1).
Proof.
  apply (add_many_only_adds some_keys new_store empty_doc first_run.1 first_run.2).
  - reflexivity.
  - vm_compute; reflexivity.
Defined.

(** X6: opening a store on a state file that exists changes no file and
    does not touch the lock; the snapshot is the content of the file, and
    a file that is no JSON document makes the constructor raise. *)
Theorem init_reads_existing_file T w f out w' :
  state_file w = Some f -> __init__ T w = (out, w') ->
  state_file w' = state_file w /\ tmp_file w' = tmp_file w /\ same_lock w w'
  /\ match out with
     | Ret s => f = Whole (_data s) /\ lock_timeout_s s = T
     | Raise e => f = Torn -> faults w = [] -> e = JSONDecodeError
     | Spin => False
     end
  /\ (forall d, f = Whole d -> faults w = [] ->
        out = Ret {| lock_timeout_s := T; _data := d |}).
Proof.
  intros Hf. unfold __init__. unfold bind at 1, get_state at 1. rewrite Hf.
  unfold bind at 1, ret at 1. unfold bind.
  destruct (read_state_file w) as [[d|e|] w1] eqn:Hr.
  - unfold ret. intros [= <- <-].
    pose proof (read_state_file_spec _ _ _ Hr) as (H1 & H2 & H3 & _ & H4).
    rewrite Hf in H4. injection H4 as ->. cbn [_data lock_timeout_s].
    conjs; try easy.
    + congruence.
    + now intros d' [= <-] _.
  - intros [= <- <-].
    pose proof (read_state_file_spec _ _ _ Hr) as (H1 & H2 & H3 & _ & _).
    conjs; try easy.
    + congruence.
    + intros -> Hnofault. unfold read_state_file, bind, next_fault in Hr.
      rewrite Hnofault in Hr. unfold get_state, raise in Hr. rewrite Hf in Hr.
      now injection Hr as <- _.
    + intros d -> Hnofault. unfold read_state_file, bind, next_fault in Hr.
      rewrite Hnofault in Hr. unfold get_state, ret in Hr. rewrite Hf in Hr.
      discriminate Hr.
  - now pose proof (read_state_file_spec _ _ _ Hr) as (_ & _ & _ & _ & H4).
Qed.

Lemma init_reads_existing_file_witness :
  __init__ 10 torn_world = (Raise JSONDecodeError, torn_world)
  /\ state_file (__init__ 10 torn_world).2 = state_file torn_world.
Proof.
  assert (__init__ 10 torn_world = (Raise JSONDecodeError, torn_world)) as Hrun
    by reflexivity.
  split; [exact Hrun|]. rewrite Hrun.
  exact (proj1 (init_reads_existing_file 10 torn_world Torn _ _ eq_refl Hrun)).
Defined.

End StoreLaws.

(** ** Where the reply text is cut *)

Module CutLaws.
Import Py Re Utils UtilsSpec CutSpec PyFacts UtilsFacts.

(** *** The earliest marker *)

Lemma fold_marker_cut text pats : forall acc,
  match fold_left (marker_cut text) pats acc with
  | None => acc = None /\ omap (fun pat => search im pat text) pats = []
  | Some c =>
      (acc = Some c \/ In c (omap (fun pat => search im pat text) pats))
      /\ (forall a, acc = Some a -> (c <= a)%nat)
      /\ Forall (le c) (omap (fun pat => search im pat text) pats)
  end.
Proof.
  induction pats as [|pat pats IH]; intros acc.
  - simpl. destruct acc as [a|]; [|easy].
    split; [now left|]. split; [now intros ? [= <-]|constructor].
  - cbn [fold_left omap list_omap]. specialize (IH (marker_cut text acc pat)).
    destruct (search im pat text) as [start|] eqn:Hs.
    + assert (exists m, marker_cut text acc pat = Some m /\ (m <= start)%nat
                /\ (forall a, acc = Some a -> (m <= a)%nat)
                /\ (m = start \/ acc = Some m)) as (m & Hm & Hms & Hma & Hmo).
      { unfold marker_cut. rewrite Hs.
        destruct acc as [a|]; [destruct (Nat.ltb_spec start a)|].
        - exists start. repeat split; auto. intros ? [= <-]. lia.
        - exists a. repeat split; auto. intros ? [= <-]. lia.
        - exists start. repeat split; auto. intros ? [=]. }
      rewrite Hm in IH |- *. destruct (fold_left _ pats _) as [c|].
      * destruct IH as (Hin & Hle & Hall). specialize (Hle m eq_refl).
        split; [|split].
        -- destruct Hin as [[= <-]|Hin].
           ++ destruct Hmo as [->|Hacc]; [right; now left|now left].
           ++ right. now right.
        -- intros a Ha. specialize (Hma a Ha). lia.
        -- constructor; [lia|exact Hall].
      * now destruct IH as [[=] _].
    + assert (marker_cut text acc pat = acc) as Hsame
        by (unfold marker_cut; now rewrite Hs).
      rewrite Hsame in IH |- *. exact IH.
Qed.

(** X7: the cut is at the earliest marker: [find_cut] gives no place when
    no marker of either family is found, and else the least of the places
    where the markers start. *)
Theorem earliest_marker_wins text :
  match find_cut text with
  | None => marker_starts text = []
  | Some c => In c (marker_starts text) /\ Forall (le c) (marker_starts text)
  end.
Proof.
  unfold find_cut, marker_starts.
  pose proof (fold_marker_cut text _MARKER_LINE_PATTERNS
                (_find_on_wrote_marker_index text)) as H.
  destruct (fold_left _ _ _) as [c|].
  - destruct H as (Hin & Hle & Hall). split.
    + apply in_or_app. destruct Hin as [->|Hin]; [left; now left|now right].
    + apply Forall_app. split; [|exact Hall].
      destruct (_find_on_wrote_marker_index text) as [a|]; [|constructor].
      constructor; [now apply Hle|constructor].
  - destruct H as (-> & ->). reflexivity.
Qed.

(** *** The cut falls where a line begins *)

Lemma find_cut_at_marker text c : find_cut text = Some c -> In c (marker_starts text).
Proof.
  unfold find_cut, marker_starts.
  pose proof (fold_marker_cut text _MARKER_LINE_PATTERNS
                (_find_on_wrote_marker_index text)) as H.
  intros Hc. rewrite Hc in H. destruct H as (Hin & _).
  apply in_or_app. destruct Hin as [->|Hin]; [left; now left|now right].
Qed.

Lemma search_go_at fl r : forall s prev i c,
  search_go fl r prev s i = Some c ->
  exists k, c = (i + k)%nat /\ (k <= length s)%nat
    /\ matches_at fl r {| before := char_before prev s k; after := skipn k s |} = true.
Proof.
  induction s as [|x t IH]; intros prev i c; cbn [search_go].
  - destruct (matches_at _ _ _) eqn:Hm; [|easy].
    intros [= <-]. exists 0%nat. simpl. split; [lia|]. split; [lia|exact Hm].
  - destruct (matches_at _ _ _) eqn:Hm.
    + intros [= <-]. exists 0%nat. simpl. split; [lia|]. split; [lia|exact Hm].
    + intros H. apply IH in H as (k & -> & Hk & Hmk).
      exists (S k). split; [lia|]. split; [simpl; lia|].
      destruct k; exact Hmk.
Qed.

Lemma anchored_search_line_start r text c :
  anchored r = true -> search im r text = Some c -> line_start text c.
Proof.
  intros Ha Hs. destruct r as [| | | | | | |r1 r2| |]; try discriminate Ha.
  destruct r1; try discriminate Ha.
  apply search_go_at in Hs as (k & -> & Hk & Hm).
  unfold line_start. split; [simpl; lia|].
  unfold matches_at in Hm. cbn [ends] in Hm. unfold here_if in Hm.
  destruct (at_bol im _) eqn:Hb; [|discriminate Hm].
  unfold at_bol in Hb. cbn [before] in Hb.
  destruct k as [|k]; [now left|right].
  cbn [char_before] in Hb. simpl. rewrite Nat.sub_0_r.
  destruct (text !! k) as [p|] eqn:Hp.
  - cbn [multiline im andb] in Hb. apply N.eqb_eq in Hb. now subst p.
  - apply lookup_ge_None in Hp. lia.
Qed.

Lemma patterns_anchored : forallb anchored _MARKER_LINE_PATTERNS = true.
Proof. reflexivity. Qed.

Lemma line_offsets_line_start : forall lines pre pos j off,
  pos = length pre -> (pre = [] \/ last pre = Some NL) ->
  line_offsets pos lines !! j = Some off ->
  line_start (pre ++ join_nl lines) off.
Proof.
  induction lines as [|l rest IH]; intros pre pos j off Hpos Hpre; [easy|].
  cbn [line_offsets]. destruct j as [|j].
  - intros [= <-]. subst pos. unfold line_start. rewrite length_app. split; [lia|].
    destruct Hpre as [->|Hlast]; [now left|right].
    unfold str, char in *. rewrite lookup_app_l.
    + rewrite Nat.sub_1_r, <- last_lookup. exact Hlast.
    + destruct pre; [discriminate Hlast|simpl; lia].
  - cbn [lookup list_lookup]. destruct rest as [|l2 rest]; [easy|].
    intros Hoff.
    assert (join_nl (l :: l2 :: rest) = l ++ NL :: join_nl (l2 :: rest)) as -> by reflexivity.
    specialize (IH (pre ++ l ++ [NL]) (pos + length l + 1)%nat j off).
    rewrite <- !app_assoc in IH. cbn [app] in IH. apply IH.
    + subst pos. rewrite !length_app. simpl. lia.
    + right. rewrite app_assoc. apply last_snoc.
    + exact Hoff.
Qed.

Lemma on_wrote_loop_offset lines offsets : forall todo i c,
  on_wrote_loop lines offsets i todo = Some c -> exists j, offsets !! j = Some c.
Proof.
  induction todo as [|ln todo IH]; intros i c; [easy|].
  cbn [on_wrote_loop].
  repeat match goal with
         | |- context [if ?b then _ else _] => destruct b
         end; eauto.
Qed.

Lemma on_wrote_line_start text c :
  _find_on_wrote_marker_index text = Some c -> line_start text c.
Proof.
  unfold _find_on_wrote_marker_index. intros H.
  apply on_wrote_loop_offset in H as [j Hj].
  rewrite <- (join_split text) at 1.
  apply (line_offsets_line_start (split_nl text) [] 0%nat j c); auto.
Qed.

(** *** The "On ... wrote:" marker *)

Lemma line_offsets_length : forall lines pos,
  length (line_offsets pos lines) = length lines.
Proof.
  induction lines as [|l lines IH]; intros pos; [reflexivity|].
  cbn [line_offsets length]. now rewrite IH.
Qed.

Lemma on_wrote_loop_first lines :
  forall todo i,
    drop i lines = todo ->
    (forall j, (j < i)%nat -> on_wrote_at lines j = false) ->
    match on_wrote_loop lines (line_offsets 0 lines) i todo with
    | Some c =>
        exists k, on_wrote_at lines k = true
          /\ (forall j, (j < k)%nat -> on_wrote_at lines j = false)
          /\ line_offsets 0 lines !! k = Some c
    | None => forall j, on_wrote_at lines j = false
    end.
Proof.
  induction todo as [|ln todo IH]; intros i Hdrop Hbefore.
  - cbn [on_wrote_loop]. intros j. destruct (Nat.lt_ge_cases j i) as [Hj|Hj]; [auto|].
    unfold on_wrote_at.
    assert (lines !! j = None) as ->; [|reflexivity].
    apply lookup_ge_None. apply (f_equal length) in Hdrop.
    rewrite length_drop in Hdrop. simpl in Hdrop. lia.
  - assert (lines !! i = Some ln) as Hi.
    { rewrite <- (Nat.add_0_r i), <- lookup_drop, Hdrop. reflexivity. }
    assert (drop (S i) lines = todo) as Hnext.
    { rewrite <- (Nat.add_1_r i), <- drop_drop, Hdrop. reflexivity. }
    assert (wrote_on_line lines i = found (search i_only wrote_re (strip ln))) as Hsame
      by (unfold wrote_on_line; now rewrite Hi).
    assert (exists off, line_offsets 0 lines !! i = Some off) as [off Hoff].
    { apply lookup_lt_is_Some. rewrite line_offsets_length.
      now apply lookup_lt_Some in Hi. }
    assert (on_wrote_at lines i = false ->
            forall j, (j < S i)%nat -> on_wrote_at lines j = false) as Hstep.
    { intros Hno j Hj. destruct (Nat.eq_dec j i) as [->|Hne]; [exact Hno|].
      apply Hbefore. lia. }
    assert (on_wrote_at lines i = true ->
            exists k, on_wrote_at lines k = true
              /\ (forall j, (j < k)%nat -> on_wrote_at lines j = false)
              /\ line_offsets 0 lines !! k = Some off) as Hhit.
    { intros Hyes. now exists i. }
    cbn [on_wrote_loop]. rewrite Hoff, <- Hsame.
    unfold on_wrote_at in Hstep, Hhit. rewrite Hi in Hstep, Hhit.
    destruct (found (search i_only on_re ln)); cbn [negb andb] in *.
    + destruct (wrote_on_line lines i); cbn [orb] in *; [now apply Hhit|].
      destruct (wrote_on_line lines (i + 1)); cbn [orb] in *; [now apply Hhit|].
      destruct (wrote_on_line lines (i + 2)); cbn [orb] in *; [now apply Hhit|].
      apply IH; [exact Hnext|]. now apply Hstep.
    + apply IH; [exact Hnext|]. now apply Hstep.
Qed.

(** X8: the "On ... wrote:" marker is the first line that begins like
    "On ..." and has a "wrote:" at the end of that line or of one of the
    two lines below it; its place is where that line begins.  There is no
    such marker exactly when no line is of this kind. *)
Theorem on_wrote_marker_is_first_opener text :
  match _find_on_wrote_marker_index text with
  | Some c =>
      exists k, on_wrote_at (split_nl text) k = true
        /\ (forall j, (j < k)%nat -> on_wrote_at (split_nl text) j = false)
        /\ line_offsets 0 (split_nl text) !! k = Some c
  | None => forall j, on_wrote_at (split_nl text) j = false
  end.
Proof.
  unfold _find_on_wrote_marker_index.
  apply (on_wrote_loop_first (split_nl text) (split_nl text) 0); [reflexivity|].
  intros j Hj. lia.
Qed.

(** X9: the cut falls where a line begins, so the top part is the whole
    text or a number of complete lines. *)
Theorem cut_at_line_start text c :
  find_cut text = Some c ->
  line_start text c
  /\ exists rest, text = top_part_of text ++ rest
       /\ (top_part_of text = [] \/ last (top_part_of text) = Some NL).
Proof.
  intros Hc.
  assert (line_start text c) as Hls.
  { pose proof (find_cut_at_marker _ _ Hc) as Hin. unfold marker_starts in Hin.
    apply in_app_or in Hin as [Hin|Hin].
    - destruct (_find_on_wrote_marker_index text) as [a|] eqn:Ha; [|easy].
      destruct Hin as [<-|[]]. now apply on_wrote_line_start.
    - apply list_elem_of_In, list_elem_of_omap in Hin as (pat & Hpat & Hs).
      apply (anchored_search_line_start pat); [|exact Hs].
      pose proof patterns_anchored as Hall. rewrite forallb_forall in Hall.
      apply Hall, list_elem_of_In, Hpat. }
  split; [exact Hls|]. unfold top_part_of. rewrite Hc.
  exists (skipn c text). split; [now rewrite firstn_skipn|].
  destruct Hls as [Hlen [->|Hnl]]; [now left|].
  destruct c as [|c]; [now left|right].
  simpl in Hnl. rewrite Nat.sub_0_r in Hnl. unfold str, char in *.
  rewrite last_lookup, length_take_le by lia. simpl.
  rewrite lookup_take_lt by lia. exact Hnl.
Qed.

Lemma cut_at_line_start_witness :
  line_start reply_above_header 22
  /\ exists rest, reply_above_header = top_part_of reply_above_header ++ rest
       /\ (top_part_of reply_above_header = []
           \/ last (top_part_of reply_above_header) = Some NL).
Proof.
  apply cut_at_line_start. vm_compute. reflexivity.
Defined.

(** *** The result is made of the text *)

Lemma join_filter_sublist (p : str -> bool) : forall ls,
  join_nl (List.filter p ls) `sublist_of` join_nl ls.
Proof.
  induction ls as [|l ls IH]; [constructor|].
  destruct ls as [|l2 ls].
  - simpl. destruct (p l); simpl; [reflexivity|apply sublist_nil_l].
  - assert (join_nl (l :: l2 :: ls) = l ++ NL :: join_nl (l2 :: ls)) as -> by reflexivity.
    assert (List.filter p (l :: l2 :: ls)
            = if p l then l :: List.filter p (l2 :: ls) else List.filter p (l2 :: ls))
      as -> by reflexivity.
    remember (List.filter p (l2 :: ls)) as fs eqn:Hfs.
    remember (join_nl (l2 :: ls)) as rest eqn:Hrest.
    destruct (p l).
    + destruct fs as [|f fs].
      * change (join_nl [l]) with l. apply sublist_inserts_r. reflexivity.
      * assert (join_nl (l :: f :: fs) = l ++ NL :: join_nl (f :: fs)) as -> by reflexivity.
        apply sublist_app; [reflexivity|]. apply sublist_skip. exact IH.
    + etransitivity; [exact IH|]. apply sublist_inserts_l, sublist_cons. reflexivity.
Qed.

Lemma strip_sublist s : strip s `sublist_of` s.
Proof.
  destruct (strip_split s) as (a & b & Hs & _). rewrite Hs at 2.
  apply sublist_inserts_l, sublist_inserts_r. reflexivity.
Qed.

Lemma collapse_go_sublist s : forall n, collapse_go n s `sublist_of` s.
Proof.
  induction s as [|c t IH]; intros n; [constructor|]. cbn [collapse_go].
  destruct (c =? NL); [destruct (n <? 2)%nat|].
  - apply sublist_skip, IH.
  - apply sublist_cons, IH.
  - apply sublist_skip, IH.
Qed.

Lemma sublist_Forall (P : char -> Prop) (a b : str) :
  a `sublist_of` b -> Forall P b -> Forall P a.
Proof.
  intros Hsub Hall. rewrite Forall_forall in *. intros x Hx. apply Hall.
  eapply elem_of_sublist; eassumption.
Qed.

(** X10: the result is made of the text: it is the normalised body with
    some characters left out, none added and none moved, and it holds no
    carriage return. *)
Theorem result_is_subsequence body :
  extract_latest_reply_text (Some body) `sublist_of` normalize_newlines body
  /\ Forall (fun c => c <> CR) (extract_latest_reply_text (Some body)).
Proof.
  assert (extract_latest_reply_text (Some body) `sublist_of` normalize_newlines body)
    as Hsub.
  { rewrite extract_unfold. cbv zeta.
    assert (top_part_of (normalize_newlines body) `sublist_of` normalize_newlines body)
      as Htop.
    { unfold top_part_of. destruct (find_cut _); [apply sublist_take|reflexivity]. }
    destruct (truthy _).
    - rewrite collapse_blank_lines_scan.
      etransitivity; [apply collapse_go_sublist|].
      etransitivity; [apply strip_sublist|].
      etransitivity; [apply join_filter_sublist|].
      now rewrite join_split.
    - rewrite collapse_blank_lines_scan.
      etransitivity; [apply collapse_go_sublist|].
      etransitivity; [apply strip_sublist|]. exact Htop. }
  split; [exact Hsub|].
  eapply sublist_Forall; [exact Hsub|apply normalize_no_cr].
Qed.

(** *** Quoted lines *)

Lemma split_nl_no_nl s : Forall (fun l => ~ In NL l) (split_nl s).
Proof.
  induction s as [|c t IH]; [repeat constructor; easy|].
  cbn [split_nl]. destruct (N.eqb_spec c NL).
  - constructor; [easy|exact IH].
  - destruct (split_nl t) as [|l ls]; [repeat constructor; simpl; intuition|].
    inversion IH as [|? ? Hl Hls]; subst. constructor; [|exact Hls].
    simpl. intuition.
Qed.

Lemma split_nl_app_no_nl l : forall s,
  ~ In NL l -> split_nl (l ++ NL :: s) = l :: split_nl s.
Proof.
  induction l as [|c l IH]; intros s Hl.
  - simpl. reflexivity.
  - cbn [app split_nl]. destruct (N.eqb_spec c NL) as [->|Hc].
    + exfalso. apply Hl. now left.
    + rewrite IH; [reflexivity|]. intros H. apply Hl. now right.
Qed.

Lemma split_nl_one l : ~ In NL l -> split_nl l = [l].
Proof.
  induction l as [|c l IH]; intros Hl; [reflexivity|].
  cbn [split_nl]. destruct (N.eqb_spec c NL) as [->|Hc].
  - exfalso. apply Hl. now left.
  - rewrite IH; [reflexivity|]. intros H. apply Hl. now right.
Qed.

Lemma split_join : forall ls,
  ls <> [] -> Forall (fun l => ~ In NL l) ls -> split_nl (join_nl ls) = ls.
Proof.
  induction ls as [|l ls IH]; intros Hne Hall; [easy|].
  inversion Hall as [|? ? Hl Hls]; subst.
  destruct ls as [|l2 ls]; [now apply split_nl_one|].
  assert (join_nl (l :: l2 :: ls) = l ++ NL :: join_nl (l2 :: ls)) as -> by reflexivity.
  rewrite split_nl_app_no_nl by exact Hl. now rewrite IH.
Qed.

Lemma collapse_go_nil s n : collapse_go n s = [] -> (n < 2)%nat -> s = [].
Proof.
  destruct s as [|c t]; [easy|]. cbn [collapse_go]. intros H Hn.
  destruct (c =? NL); [|discriminate H].
  destruct (Nat.ltb_spec n 2); [discriminate H|lia].
Qed.

Lemma strip_nil_space s : strip s = [] -> forallb isspace s = true.
Proof.
  intros H. destruct (strip_split s) as (a & b & Hs & Ha & Hb).
  rewrite H in Hs. rewrite Hs. cbn [app]. now rewrite forallb_app, Ha, Hb.
Qed.

Lemma join_nl_In l : forall ls c, In l ls -> In c l -> In c (join_nl ls).
Proof.
  induction ls as [|l1 ls IH]; intros c Hl Hc; [easy|].
  destruct ls as [|l2 ls].
  - destruct Hl as [->|[]]. exact Hc.
  - assert (join_nl (l1 :: l2 :: ls) = l1 ++ NL :: join_nl (l2 :: ls)) as -> by reflexivity.
    apply in_or_app. destruct Hl as [->|Hl]; [now left|].
    right. right. now apply IH.
Qed.

Lemma cleaned_has_no_quoted_line top :
  existsb is_quoted
    (split_nl (collapse_blank_lines (strip (join_nl (kept_lines top))))) = false.
Proof.
  apply not_true_is_false. intros Hq.
  rewrite <- quote_scan_exists in Hq. rewrite collapse_blank_lines_scan in Hq.
  rewrite quote_scan_collapse in Hq by lia.
  apply quote_scan_strip in Hq. rewrite quote_scan_exists in Hq.
  unfold kept_lines in Hq.
  destruct (List.filter _ (split_nl top)) as [|k ks] eqn:Hk; [discriminate Hq|].
  rewrite split_join in Hq.
  - rewrite <- Hk in Hq. apply existsb_exists in Hq as (l & Hl & Hql).
    rewrite ?list_elem_of_In in Hl.
    apply filter_In in Hl as [_ Hl]. now rewrite Hql in Hl.
  - easy.
  - rewrite <- Hk. apply Forall_forall. intros l Hl.
    rewrite ?list_elem_of_In in Hl. apply filter_In in Hl as [Hl _].
    pose proof (split_nl_no_nl top) as Hall. rewrite Forall_forall in Hall.
    apply Hall. now rewrite ?list_elem_of_In.
Qed.

Lemma cleaned_empty top :
  collapse_blank_lines (strip (join_nl (kept_lines top))) = [] ->
  forallb (fun l => is_quoted l || forallb isspace l) (split_nl top) = true.
Proof.
  intros Hc.
  rewrite collapse_blank_lines_scan in Hc. apply collapse_go_nil in Hc; [|lia].
  apply strip_nil_space in Hc. rewrite forallb_forall in Hc.
  apply forallb_forall. intros l Hl.
  destruct (is_quoted l) eqn:Hql; [reflexivity|]. cbn [orb].
  apply forallb_forall. intros c Hcl. apply Hc.
  apply (join_nl_In l); [|exact Hcl]. unfold kept_lines.
  apply filter_In. now rewrite Hql.
Qed.

(** X11: a quote-prefixed line is in the result only when the fallback
    applies, that is when every line of the top part is quote-prefixed or
    blank; the result is then the trimmed top part. *)
Theorem quoted_line_only_in_fallback body :
  existsb is_quoted (split_nl (extract_latest_reply_text (Some body))) = true ->
  forallb (fun l => is_quoted l || forallb isspace l)
    (split_nl (top_part_of (normalize_newlines body))) = true
  /\ extract_latest_reply_text (Some body)
     = collapse_blank_lines (strip (top_part_of (normalize_newlines body))).
Proof.
  rewrite extract_unfold. cbv zeta.
  pose proof (cleaned_has_no_quoted_line (top_part_of (normalize_newlines body))) as Hno.
  pose proof (cleaned_empty (top_part_of (normalize_newlines body))) as Hall.
  destruct (collapse_blank_lines (strip (join_nl _))) as [|c t].
  - intros _. split; [now apply Hall|reflexivity].
  - cbn [truthy]. intros Hq. now rewrite Hq in Hno.
Qed.

Lemma quoted_line_only_in_fallback_witness :
  forallb (fun l => is_quoted l || forallb isspace l)
    (split_nl (top_part_of (normalize_newlines quoted_only_body))) = true
  /\ extract_latest_reply_text (Some quoted_only_body)
     = collapse_blank_lines (strip (top_part_of (normalize_newlines quoted_only_body))).
Proof.
  assert (existsb is_quoted
            (split_nl (extract_latest_reply_text (Some quoted_only_body))) = true)
    as H by (vm_compute; reflexivity).
  exact (quoted_line_only_in_fallback quoted_only_body H).
Defined.

End CutLaws.

(** ** Dates *)

Module DateLaws.
Import Py Datetime UtilsDates DateSpec PyFacts.

Local Open Scope Z_scope.

(** *** Comparing *)

Lemma gt_trans a b c : gt a b = Ok true -> gt b c = Ok true -> gt a c = Ok true.
Proof.
  unfold gt. destruct (tzinfo a), (tzinfo b), (tzinfo c); try discriminate;
    intros [= H1] [= H2]; f_equal; lia.
Qed.

Lemma gt_le_trans a b c : gt a b = Ok true -> gt c b = Ok false -> gt a c = Ok true.
Proof.
  unfold gt. destruct (tzinfo a), (tzinfo b), (tzinfo c); try discriminate;
    intros [= H1] [= H2]; f_equal; lia.
Qed.

(** *** [max_iso] *)

Section MaxIso.
Variable fromisoformat : str -> res datetime.

Lemma max_iso_loop_spec : forall rest pre mx mx_dt,
  (mx_dt = None -> mx = None /\ forall u, In (Some u) pre -> u = []) ->
  (forall dt, mx_dt = Some dt ->
     exists v p1 p2,
       mx = Some v /\ pre = p1 ++ Some v :: p2 /\ v <> []
       /\ parsed fromisoformat v = Ok dt
       /\ all_earlier fromisoformat dt p1 /\ none_later fromisoformat dt p2) ->
  match max_iso_loop fromisoformat rest mx mx_dt with
  | Ok None => forall v, In (Some v) (pre ++ rest) -> v = []
  | Ok (Some v) =>
      exists p1 p2 dt,
        pre ++ rest = p1 ++ Some v :: p2 /\ v <> []
        /\ parsed fromisoformat v = Ok dt
        /\ all_earlier fromisoformat dt p1 /\ none_later fromisoformat dt p2
  | Err e =>
      exists v, In (Some v) (pre ++ rest) /\ v <> []
        /\ (parsed fromisoformat v = Err e \/ e = TypeError)
  end.
Proof.
  induction rest as [|x rest IH]; intros pre mx mx_dt Hnone Hsome.
  - cbn [max_iso_loop]. rewrite app_nil_r. destruct mx_dt as [dt|].
    + destruct (Hsome dt eq_refl) as (v & p1 & p2 & -> & -> & Hv & Hp & H1 & H2).
      now exists p1, p2, dt.
    + destruct (Hnone eq_refl) as [-> Hall]. exact Hall.
  - cbn [max_iso_loop].
    assert (pre ++ x :: rest = (pre ++ [x]) ++ rest) as Happ
      by now rewrite <- app_assoc.
    rewrite Happ.
    assert (x = None \/ x = Some [] ->
            match max_iso_loop fromisoformat rest mx mx_dt with
            | Ok None => forall v, In (Some v) ((pre ++ [x]) ++ rest) -> v = []
            | Ok (Some v) =>
                exists p1 p2 dt,
                  (pre ++ [x]) ++ rest = p1 ++ Some v :: p2 /\ v <> []
                  /\ parsed fromisoformat v = Ok dt
                  /\ all_earlier fromisoformat dt p1 /\ none_later fromisoformat dt p2
            | Err e =>
                exists v, In (Some v) ((pre ++ [x]) ++ rest) /\ v <> []
                  /\ (parsed fromisoformat v = Err e \/ e = TypeError)
            end) as Hskip.
    { intros Hx. apply IH.
      - intros Hm. destruct (Hnone Hm) as [-> Hall]. split; [reflexivity|].
        intros u Hin. apply in_app_or in Hin as [Hin|[Hin|[]]]; [now apply Hall|].
        destruct Hx as [->| ->]; congruence.
      - intros dt Hm.
        destruct (Hsome dt Hm) as (v & p1 & p2 & -> & -> & Hv & Hp & H1 & H2).
        exists v, p1, (p2 ++ [x]). repeat split; auto.
        + now rewrite <- app_assoc.
        + intros u Hin Hu. apply in_app_or in Hin as [Hin|[Hin|[]]]; [now apply H2|].
          destruct Hx as [->| ->]; congruence. }
    destruct x as [v|]; [|apply Hskip; now left].
    destruct v as [|c v]; [apply Hskip; now right|].
    cbn [truthy negb]. fold (parsed fromisoformat (c :: v)).
    destruct (parsed fromisoformat (c :: v)) as [dt|e] eqn:Hp.
    2:{ exists (c :: v). split; [|split; [easy|now left]].
        apply in_or_app. left. apply in_or_app. right. now left. }
    destruct mx_dt as [m|].
    + destruct (Hsome m eq_refl) as (vm & p1 & p2 & -> & -> & Hvm & Hpm & H1 & H2).
      destruct (gt dt m) as [[|]|e] eqn:Hgt.
      * apply IH; [easy|]. intros dt' [= <-].
        exists (c :: v), (p1 ++ Some vm :: p2), []. repeat split; auto; try easy.
        intros u Hin Hu. apply in_app_or in Hin as [Hin|[[= ->]|Hin]].
        -- destruct (H1 u Hin Hu) as (du & Hdu & Hlt). exists du. split; [exact Hdu|].
           eapply gt_trans; eassumption.
        -- exists m. now split.
        -- destruct (H2 u Hin Hu) as (du & Hdu & Hle). exists du. split; [exact Hdu|].
           eapply gt_le_trans; eassumption.
      * apply IH; [easy|]. intros dt' [= <-].
        exists vm, p1, (p2 ++ [Some (c :: v)]). repeat split; auto.
        -- now rewrite <- app_assoc.
        -- intros u Hin Hu. apply in_app_or in Hin as [Hin|[[= <-]|[]]]; [now apply H2|].
           exists dt. now split.
      * exists (c :: v). split; [|split; [easy|right]].
        -- apply in_or_app. left. apply in_or_app. right. now left.
        -- unfold gt in Hgt. destruct (tzinfo dt), (tzinfo m); congruence.
    + destruct (Hnone eq_refl) as [-> Hall].
      apply IH; [easy|]. intros dt' [= <-].
      exists (c :: v), pre, []. repeat split; auto; try easy.
      intros u Hin Hu. now apply Hall in Hin.
Qed.

(** X12: [max_iso] gives the first of the latest values: no value when all
    are empty or [None]; else a value that parses, with every non-empty
    value before it earlier and none behind it later.  It raises when a
    non-empty value does not parse or a naive and an aware value meet. *)
Theorem max_iso_first_latest values :
  match max_iso fromisoformat values with
  | Ok None => forall v, In (Some v) values -> v = []
  | Ok (Some v) =>
      exists p1 p2 dt,
        values = p1 ++ Some v :: p2 /\ v <> []
        /\ parsed fromisoformat v = Ok dt
        /\ all_earlier fromisoformat dt p1 /\ none_later fromisoformat dt p2
  | Err e =>
      exists v, In (Some v) values /\ v <> []
        /\ (parsed fromisoformat v = Err e \/ e = TypeError)
  end.
Proof.
  apply (max_iso_loop_spec values [] None None); [|easy].
  intros _. split; [reflexivity|]. intros u [].
Qed.

End MaxIso.

(** *** [to_utc_iso] *)

Lemma digits_are_digits : forall fuel n acc,
  Forall is_digit acc -> Forall is_digit (digits fuel n acc).
Proof.
  assert (forall n, is_digit (Z.to_N (48 + n mod 10))) as Hd.
  { intros n. unfold is_digit. pose proof (Z.mod_pos_bound n 10 eq_refl). lia. }
  induction fuel as [|fuel IH]; intros n acc Hacc; cbn [digits].
  - constructor; [apply Hd|exact Hacc].
  - destruct (n <? 10); [constructor; [apply Hd|exact Hacc]|].
    apply IH. constructor; [apply Hd|exact Hacc].
Qed.

Lemma zero_padded_digits width n : Forall is_digit (zero_padded width n).
Proof.
  unfold zero_padded. apply Forall_app. split.
  - apply Forall_forall. intros c Hc. apply list_elem_of_In, repeat_spec in Hc.
    subst c. unfold is_digit. lia.
  - apply digits_are_digits. constructor.
Qed.

Lemma zero_padded_no_plus width n : Forall (fun c => c <> 43%N) (zero_padded width n).
Proof.
  eapply Forall_impl; [apply zero_padded_digits|]. unfold is_digit. intros c Hc. lia.
Qed.

(** The zone is printed behind what a naive object prints. *)
Lemma isoformat_aware w off :
  isoformat {| wall := w; tzinfo := Some off |}
  = isoformat {| wall := w; tzinfo := None |} ++ format_offset off.
Proof.
  unfold isoformat, date_of. cbn [wall tzinfo].
  destruct (ord2ymd _) as [[year month] day].
  rewrite <- !app_assoc. cbn [app]. now rewrite ?app_nil_r.
Qed.

Lemma isoformat_naive_no_plus w :
  Forall (fun c => c <> 43%N) (isoformat {| wall := w; tzinfo := None |}).
Proof.
  unfold isoformat, date_of. cbn [wall tzinfo].
  destruct (ord2ymd _) as [[year month] day].
  repeat match goal with
         | |- Forall _ (_ ++ _) => apply Forall_app; split
         | |- Forall _ (zero_padded _ _) => apply zero_padded_no_plus
         | |- Forall _ (if ?b then _ else _) => destruct b
         | |- Forall _ [] => constructor
         | |- Forall _ (U ?s) =>
             let v := eval vm_compute in (U s) in change (U s) with v
         | |- Forall _ (_ :: _) => constructor; [discriminate|]
         end.
Qed.

Lemma replace_go_at_end (x : char) old new : forall s fuel,
  Forall (fun c => c <> x) s -> (length s < fuel)%nat ->
  replace_go fuel (x :: old) new (s ++ x :: old) = s ++ new.
Proof.
  induction s as [|c s IH]; intros fuel Hs Hfuel.
  - destruct fuel as [|fuel]; [simpl in Hfuel; lia|].
    cbn [app replace_go].
    assert (startswith (x :: old) (x :: old) = true) as ->.
    { clear. induction (x :: old) as [|a l IHl]; [reflexivity|].
      simpl. now rewrite N.eqb_refl. }
    rewrite skipn_all. destruct fuel; simpl; now rewrite app_nil_r.
  - destruct fuel as [|fuel]; [simpl in Hfuel; lia|].
    inversion Hs as [|? ? Hc Hs']; subst. cbn [app replace_go].
    assert (startswith (c :: s ++ x :: old) (x :: old) = false) as ->.
    { cbn [startswith]. apply andb_false_iff. left. apply N.eqb_neq. congruence. }
    f_equal. apply IH; [exact Hs'|]. simpl in Hfuel. lia.
Qed.

Lemma astimezone_utc_aware local_utcoffset w off :
  astimezone_utc local_utcoffset {| wall := w; tzinfo := Some off |}
  = if in_range (w - off)
    then Ok {| wall := w - off; tzinfo := Some 0 |}
    else Err OverflowError.
Proof.
  unfold astimezone_utc, add, replace_tzinfo, UTC. cbn [wall tzinfo].
  rewrite Z.add_opp_r. now destruct (in_range _).
Qed.

Lemma offset_becomes_Z w :
  replace (U "+00:00") (U "Z") (isoformat {| wall := w; tzinfo := Some 0 |})
  = isoformat {| wall := w; tzinfo := None |} ++ U "Z".
Proof.
  rewrite isoformat_aware. unfold replace.
  change (format_offset 0) with (43%N :: U "00:00").
  change (U "+00:00") with (43%N :: U "00:00").
  apply replace_go_at_end; [apply isoformat_naive_no_plus|].
  rewrite length_app. simpl. lia.
Qed.

(** X13: [to_utc_iso] gives the UTC fields of the moment in ISO form with a
    [Z] behind them, whatever the zone of the object was; a naive object
    is read as UTC; it raises [OverflowError] when the UTC fields leave
    the range of [datetime]. *)
Theorem to_utc_iso_is_utc_fields_and_Z local_utcoffset dt :
  to_utc_iso local_utcoffset dt
  = if in_range (instant dt)
    then Ok (isoformat {| wall := instant dt; tzinfo := None |} ++ U "Z")
    else Err OverflowError.
Proof.
  unfold to_utc_iso, instant. destruct dt as [w [off|]]; cbn [wall tzinfo default].
  - rewrite astimezone_utc_aware. destruct (in_range _); [|reflexivity].
    now rewrite offset_becomes_Z.
  - unfold replace_tzinfo, UTC. cbn [wall]. rewrite astimezone_utc_aware.
    destruct (in_range _); [|reflexivity]. now rewrite offset_becomes_Z.
Qed.

End DateLaws.

(** ** The IMAP wrapper *)

Module ImapLaws.
Import Py Datetime UtilsDates DateSpec Imap ImapSpec.

Local Open Scope Z_scope.

Lemma to_imap_date_utc_date local_utcoffset dt d :
  to_imap_date local_utcoffset dt = Ok d -> d = utc_date dt.
Proof.
  unfold to_imap_date, astimezone_utc, add, utc_date, instant, date_of, replace_tzinfo.
  destruct dt as [w [off|]]; cbn [wall tzinfo default UTC].
  - destruct (in_range _); [|discriminate]. intros [= <-]. cbn [wall].
    now rewrite Z.add_opp_r.
  - unfold UTC. destruct (in_range _); [|discriminate]. intros [= <-]. cbn [wall].
    now rewrite Z.add_opp_r.
Qed.

Lemma utc_date_next_day dt next :
  add dt US_PER_DAY = Ok next -> utc_date next = utc_date dt + 1.
Proof.
  unfold add, utc_date, instant. destruct (in_range _); [|discriminate].
  intros [= <-]. cbn [wall tzinfo].
  replace (wall dt + US_PER_DAY - default 0 (tzinfo dt))
    with (wall dt - default 0 (tzinfo dt) + 1 * US_PER_DAY) by lia.
  rewrite Z.div_add by easy. lia.
Qed.

Lemma utc_date_mono a b : instant a <= instant b -> utc_date a <= utc_date b.
Proof.
  intros H. unfold utc_date. apply Z.add_le_mono_r. now apply Z.div_le_mono.
Qed.

Lemma le_instant a b : le a b = Ok true -> instant a <= instant b.
Proof.
  unfold le. destruct (tzinfo a), (tzinfo b); try discriminate;
    intros [= H]; lia.
Qed.

(** X14: the search asks the server for the messages from the UTC date of
    [since] up to, and not including, the day after the UTC date of
    [until]; the UTC date of every moment between [since] and [until] is
    among these days.  The answer of the server comes back in ascending
    order. *)
Theorem search_window_covers local_utcoffset client since until uids :
  search_uids_in_date_window local_utcoffset client since until = Return uids ->
  (exists found,
     search client (utc_date since) (utc_date until + 1) = Return found
     /\ uids ≡ₚ found /\ StronglySorted Z.le uids)
  /\ forall t, le since t = Ok true -> le t until = Ok true ->
       utc_date since <= utc_date t < utc_date until + 1.
Proof.
  unfold search_uids_in_date_window.
  destruct (to_imap_date _ since) as [d1|] eqn:H1; [|discriminate].
  destruct (add until US_PER_DAY) as [next|] eqn:Hn; [|discriminate].
  destruct (to_imap_date _ next) as [d2|] eqn:H2; [|discriminate].
  apply to_imap_date_utc_date in H1, H2. subst d1 d2.
  rewrite (utc_date_next_day _ _ Hn).
  destruct (search client _ _) as [found|e] eqn:Hs; [|destruct e; discriminate].
  intros [= <-]. split.
  - exists found. split; [reflexivity|]. split.
    + apply merge_sort_Permutation.
    + apply StronglySorted_merge_sort; apply _.
  - intros t Hst Htu. apply le_instant in Hst, Htu.
    pose proof (utc_date_mono _ _ Hst). pose proof (utc_date_mono _ _ Htu). lia.
Qed.

(** X15: a window whose last day is the last day that a [datetime] can
    hold makes the search raise [OverflowError], whatever the server is:
    the day after [until] cannot be formed. *)
Theorem search_overflows_on_the_last_day local_utcoffset client since until :
  in_range (wall until + US_PER_DAY) = false ->
  search_uids_in_date_window local_utcoffset client since until
  = Raise (DateError OverflowError).
Proof.
  intros Hlast. unfold search_uids_in_date_window.
  destruct (to_imap_date local_utcoffset since) as [d|e] eqn:H1.
  - unfold add. now rewrite Hlast.
  - do 2 f_equal. clear Hlast. revert H1. unfold to_imap_date, astimezone_utc, add.
    destruct since as [w [off|]]; cbn [replace_tzinfo wall tzinfo UTC];
      destruct (in_range _); simpl; congruence.
Qed.

Lemma search_overflows_on_the_last_day_witness :
  search_uids_in_date_window (fun _ => 0) small_server evening_in_sofia
    {| wall := MAXORDINAL * US_PER_DAY - 1; tzinfo := Some 0 |}
  = Raise (DateError OverflowError).
Proof.
  apply search_overflows_on_the_last_day. reflexivity.
Defined.

Lemma search_window_covers_witness :
  (exists found,
     search small_server (utc_date evening_in_sofia) (utc_date night_in_sofia + 1)
     = Return found
     /\ [1; 2; 3] ≡ₚ found /\ StronglySorted Z.le [1; 2; 3])
  /\ forall t, le evening_in_sofia t = Ok true -> le t night_in_sofia = Ok true ->
       utc_date evening_in_sofia <= utc_date t < utc_date night_in_sofia + 1.
Proof.
  apply (search_window_covers (fun _ => 0) small_server). reflexivity.
Defined.

(** *** [fetch_rfc822_and_internaldate] *)

Lemma fetch_loop_spec local_utcoffset response : forall uids acc out,
  fetch_loop local_utcoffset response uids acc = Return out ->
  exists new,
    out = acc ++ new
    /\ map (fun x => x.1.1) new `sublist_of` uids
    /\ Forall (fun x =>
         let '(uid, raw, t) := x in
         exists msg internal,
           response !! uid = Some msg
           /\ or_bytes (RFC822_bytes_key msg) (RFC822_str_key msg) = Some raw
           /\ or_datetime (INTERNALDATE_bytes_key msg) (INTERNALDATE_str_key msg)
              = Some internal
           /\ t = {| wall := instant internal; tzinfo := Some 0 |}) new.
Proof.
  induction uids as [|uid rest IH]; intros acc out; cbn [fetch_loop].
  - intros [= <-]. exists []. rewrite app_nil_r. repeat split; constructor.
  - assert (fetch_loop local_utcoffset response rest acc = Return out ->
            exists new,
              out = acc ++ new
              /\ map (fun x => x.1.1) new `sublist_of` uid :: rest
              /\ Forall (fun x =>
                   let '(uid, raw, t) := x in
                   exists msg internal,
                     response !! uid = Some msg
                     /\ or_bytes (RFC822_bytes_key msg) (RFC822_str_key msg) = Some raw
                     /\ or_datetime (INTERNALDATE_bytes_key msg)
                          (INTERNALDATE_str_key msg) = Some internal
                     /\ t = {| wall := instant internal; tzinfo := Some 0 |}) new)
      as Hskip.
    { intros H. apply IH in H as (new & -> & Hsub & Hall). exists new.
      repeat split; [|exact Hall]. now apply sublist_cons. }
    destruct (response !! uid) as [msg|] eqn:Hmsg; [|exact Hskip].
    destruct (truthy_msg msg); cbn [negb]; [|exact Hskip].
    destruct (or_bytes _ _) as [raw|] eqn:Hraw; [|exact Hskip].
    destruct (or_datetime _ _) as [internal|] eqn:Hint; [|exact Hskip].
    destruct (astimezone_utc _ _) as [t|e] eqn:Ht; [|discriminate].
    intros H. apply IH in H as (new & -> & Hsub & Hall).
    exists ((uid, raw, t) :: new). rewrite <- app_assoc. split; [reflexivity|].
    split; [cbn [map fst]; now apply sublist_skip|].
    constructor; [|exact Hall]. exists msg, internal. repeat split; auto.
    revert Ht. unfold astimezone_utc, add, instant, replace_tzinfo, UTC.
    destruct internal as [w [off|]]; cbn [wall tzinfo default].
    + destruct (in_range _); [|discriminate]. intros [= <-]. cbn [wall].
      now rewrite Z.add_opp_r.
    + destruct (in_range _); [|discriminate]. intros [= <-]. cbn [wall].
      now rewrite Z.add_opp_r.
Qed.

(** X16: what [fetch_rfc822_and_internaldate] returns follows the order of
    the UIDs it was given and holds no UID besides them; every entry
    comes from the answer of the server for its UID, with the raw bytes
    found there and the moment of its INTERNALDATE as an object in UTC, a
    naive INTERNALDATE being read as UTC.  For no UID the result is
    empty. *)
Theorem fetch_follows_uids local_utcoffset client uids out :
  fetch_rfc822_and_internaldate local_utcoffset client uids = Return out ->
  map (fun x => x.1.1) out `sublist_of` uids
  /\ (uids = [] -> out = [])
  /\ (out <> [] ->
      exists response,
        fetch client uids = Return response
        /\ Forall (fun x =>
             let '(uid, raw, t) := x in
             exists msg internal,
               response !! uid = Some msg
               /\ or_bytes (RFC822_bytes_key msg) (RFC822_str_key msg) = Some raw
               /\ or_datetime (INTERNALDATE_bytes_key msg) (INTERNALDATE_str_key msg)
                  = Some internal
               /\ t = {| wall := instant internal; tzinfo := Some 0 |}) out).
Proof.
  unfold fetch_rfc822_and_internaldate. destruct uids as [|uid rest].
  - intros [= <-]. repeat split; [constructor|easy].
  - destruct (fetch client _) as [response|e]; [|destruct e; discriminate].
    intros H. apply fetch_loop_spec in H as (new & -> & Hsub & Hall).
    cbn [app]. split; [exact Hsub|]. split; [easy|].
    intros _. now exists response.
Qed.

Lemma fetch_follows_uids_witness :
  fetch_rfc822_and_internaldate (fun _ => 0) small_server [1; 2; 3]
  = Return [(2, [Byte.x68; Byte.x69],
             {| wall := instant evening_in_sofia; tzinfo := Some 0 |})]
  /\ map (fun x => x.1.1)
       [(2, [Byte.x68; Byte.x69],
         {| wall := instant evening_in_sofia; tzinfo := Some 0 |})]
     `sublist_of` [1; 2; 3].
Proof.
  assert (fetch_rfc822_and_internaldate (fun _ => 0) small_server [1; 2; 3]
          = Return [(2, [Byte.x68; Byte.x69],
                     {| wall := instant evening_in_sofia; tzinfo := Some 0 |})])
    as Hrun by (vm_compute; reflexivity).
  split; [exact Hrun|].
  exact (proj1 (fetch_follows_uids _ _ _ _ Hrun)).
Defined.

End ImapLaws.

(** ** The rest of the parser *)

Module ParserLaws.
Import Py Re Parser ParserRest ParserRestSpec PyFacts DateLaws.

(** *** Addresses *)

Lemma pairs_addresses (l : list (str * str)) :
  map (fun p => strip p.2) (List.filter (fun p => truthy p.2) l)
  = map strip (List.filter truthy (map snd l)).
Proof.
  induction l as [|[n a] l IH]; [reflexivity|].
  cbn [List.filter map snd]. destruct (truthy a); cbn [map snd]; now rewrite IH.
Qed.

(** X17: [_addresses] gives nothing for a header that is missing or empty;
    every address it gives is an address of [getaddresses], trimmed, in
    the order of [getaddresses]; an address of white space alone is given
    as the empty string, the test for emptiness coming before the trim. *)
Theorem addresses_are_trimmed getaddresses :
  _addresses getaddresses None = []
  /\ _addresses getaddresses (Some []) = []
  /\ (forall h, h <> [] ->
        _addresses getaddresses (Some h)
        = map strip (List.filter truthy (map snd (getaddresses [h]))))
  /\ (forall h a, In a (_addresses getaddresses (Some h)) ->
        (forall c, head a = Some c -> isspace c = false)
        /\ (forall c, last a = Some c -> isspace c = false))
  /\ (forall h name addr,
        h <> [] -> In (name, addr) (getaddresses [h]) -> addr <> [] ->
        forallb isspace addr = true ->
        In [] (_addresses getaddresses (Some h))).
Proof.
  assert (forall h, h <> [] ->
            _addresses getaddresses (Some h)
            = map strip (List.filter truthy (map snd (getaddresses [h])))) as Hmap.
  { intros h Hh. unfold _addresses. destruct h as [|c h]; [easy|]. cbn [truthy negb].
    apply pairs_addresses. }
  split; [reflexivity|]. split; [reflexivity|]. split; [exact Hmap|]. split.
  - intros h a Ha. destruct h as [|c h]; [destruct Ha|].
    rewrite Hmap in Ha by easy. apply in_map_iff in Ha as (addr & <- & _).
    split; [apply strip_head|apply strip_last].
  - intros h name addr Hh Hin Ha Hsp. rewrite Hmap by exact Hh.
    rewrite <- (strip_all_space addr Hsp). apply in_map. apply filter_In. split.
    + apply in_map_iff. now exists (name, addr).
    + now destruct addr.
Qed.

Lemma addresses_are_trimmed_witness :
  _addresses toy_getaddresses (Some (U " a@b ")) = [U "a@b"]
  /\ In [] (_addresses toy_getaddresses (Some (U "  "))).
Proof.
  destruct (addresses_are_trimmed toy_getaddresses) as (_ & _ & Hmap & _ & Hblank).
  split.
  - rewrite Hmap by easy. reflexivity.
  - apply (Hblank (U "  ") [] (U "  ")); [easy|now left|easy|reflexivity].
Defined.

(** *** Attachments *)

Lemma is_attachment_disp part :
  is_attachment part
  = startswith (lower (default [] (get part (U "Content-Disposition")))) (U "attachment").
Proof.
  unfold is_attachment, or_else, truthy_opt.
  destruct (get part _) as [[|c d]|]; reflexivity.
Qed.

Lemma collect_loop rfc gf : forall parts metas,
  fold_left
    (fun metas part =>
       if is_attachment part then metas ++ [meta_of rfc gf part] else metas)
    parts metas
  = metas ++ map (meta_of rfc gf) (List.filter is_attachment parts).
Proof.
  induction parts as [|p parts IH]; intros metas; cbn [fold_left List.filter].
  - now rewrite app_nil_r.
  - rewrite IH. destruct (is_attachment p); [|reflexivity].
    now rewrite <- app_assoc.
Qed.

Lemma walk_step_attachment codec utf8 a part :
  is_attachment part = true -> walk_step codec utf8 a part = a.
Proof.
  rewrite is_attachment_disp. unfold walk_step. cbv zeta. now intros ->.
Qed.

Lemma walk_step_container codec utf8 a part :
  is_multipart part = true -> walk_step codec utf8 a part = a.
Proof.
  destruct part as [|h ct parts]; [discriminate|]. intros _.
  unfold walk_step. cbv zeta. cbn [get_payload_decoded].
  now destruct (startswith _ _).
Qed.

Lemma text_loop_skips codec utf8 : forall parts a,
  fold_left (walk_step codec utf8) parts a
  = fold_left (walk_step codec utf8) (List.filter read_for_text parts) a.
Proof.
  induction parts as [|p parts IH]; intros a; [reflexivity|].
  cbn [fold_left List.filter]. unfold read_for_text at 1.
  destruct (is_multipart p) eqn:Hm; cbn [negb andb].
  - rewrite walk_step_container by exact Hm. apply IH.
  - destruct (is_attachment p) eqn:Hp; cbn [negb fold_left].
    + rewrite walk_step_attachment by exact Hp. apply IH.
    + apply IH.
Qed.

(** X18: in a multipart message the attachment list has one entry for every
    part with an attachment disposition, in the order of the parts, and
    the body text and the HTML flag are those of the parts that are
    neither containers nor attachments: two messages with the same such
    parts have the same text and flag.  For a message that is not
    multipart the Content-Disposition is not looked at: no attachment is
    listed, and the text and the flag are taken from the payload whatever
    the headers say. *)
Theorem attachments_apart_from_text codec utf8 html rfc gf :
  (forall msg,
     is_multipart msg = true ->
     _collect_attachments_meta rfc gf msg
     = map (meta_of rfc gf) (List.filter is_attachment (walk msg))
     /\ forall msg',
          is_multipart msg' = true ->
          List.filter read_for_text (walk msg') = List.filter read_for_text (walk msg) ->
          _extract_best_text_and_html_flag codec utf8 html msg'
          = _extract_best_text_and_html_flag codec utf8 html msg)
  /\ (forall h ct cs p,
        _collect_attachments_meta rfc gf (Leaf h ct cs p) = []
        /\ _extract_best_text_and_html_flag codec utf8 html (Leaf h ct cs p)
           = _extract_best_text_and_html_flag codec utf8 html (Leaf [] ct cs p)).
Proof.
  split.
  - intros msg Hm. split.
    + unfold _collect_attachments_meta. rewrite Hm. cbn [negb]. apply collect_loop.
    + intros msg' Hm' Hsame. unfold _extract_best_text_and_html_flag.
      rewrite Hm, Hm'.
      rewrite (text_loop_skips codec utf8 (walk msg')).
      rewrite (text_loop_skips codec utf8 (walk msg)).
      now rewrite Hsame.
  - intros h ct cs p. split; reflexivity.
Qed.

Lemma attachments_apart_from_text_witness :
  length (_collect_attachments_meta (fun s => Some s) (fun _ => None) note_with_report)
  = 1%nat
  /\ _extract_best_text_and_html_flag toy_codec toy_utf8 (fun s => s)
       note_with_other_report
     = _extract_best_text_and_html_flag toy_codec toy_utf8 (fun s => s)
         note_with_report.
Proof.
  destruct (proj1 (attachments_apart_from_text toy_codec toy_utf8 (fun s => s)
                     (fun s => Some s) (fun _ => None)) note_with_report eq_refl)
    as [Hmeta Htext].
  split.
  - rewrite Hmeta. reflexivity.
  - apply Htext; reflexivity.
Defined.

(** *** Exceptions *)

Lemma fold_walk_leaf codec utf8 h ct leaf :
  fold_left (walk_step codec utf8) (walk (Multipart h ct [leaf])) no_parts
  = fold_left (walk_step codec utf8) (walk leaf) no_parts.
Proof.
  cbn [walk flat_map fold_left]. rewrite app_nil_r.
  assert (walk_step codec utf8 no_parts (Multipart h ct [leaf]) = no_parts) as ->;
    [|reflexivity].
  unfold walk_step. cbv zeta. cbn [get_payload_decoded].
  now destruct (startswith _ _).
Qed.

(** X19: a text part that makes the function raise when it is the whole
    message does not when it is the one part of a multipart message whose
    container and part have no Content-Disposition header.  A charset that
    the codec does not know raises in the first case and is replaced by
    UTF-8 in the second; a payload that cannot be read raises in the first
    case and is passed over in the second. *)
Theorem lone_part_raises_where_multipart_does_not codec utf8 html :
  (forall h cs b,
     b <> [] -> codec (or_str cs (U "utf-8")) b = None ->
     _extract_best_text_and_html_flag codec utf8 html
       (Leaf h (U "text/plain") cs (PBytes b)) = None
     /\ _extract_best_text_and_html_flag codec utf8 html
          (Leaf h (U "text/html") cs (PBytes b)) = None
     /\ forall h' ct',
          get_header h (U "Content-Disposition") = None ->
          get_header h' (U "Content-Disposition") = None ->
          _extract_best_text_and_html_flag codec utf8 html
            (Multipart h' ct' [Leaf h (U "text/plain") cs (PBytes b)])
          = Some (let text := strip (utf8 b) in
                  if truthy text then Some text else None, false)
          /\ _extract_best_text_and_html_flag codec utf8 html
               (Multipart h' ct' [Leaf h (U "text/html") cs (PBytes b)])
             = Some (let text := html (utf8 b) in
                     if truthy text then Some text else None, true))
  /\ (forall h ct cs,
        lower ct = U "text/plain" \/ lower ct = U "text/html" ->
        _extract_best_text_and_html_flag codec utf8 html (Leaf h ct cs PRaises) = None
        /\ forall h' ct',
             get_header h (U "Content-Disposition") = None ->
             get_header h' (U "Content-Disposition") = None ->
             _extract_best_text_and_html_flag codec utf8 html
               (Multipart h' ct' [Leaf h ct cs PRaises]) = Some (None, false)).
Proof.
  split.
  - intros h cs b Hb Hcodec.
    assert (forall ct,
              ct = U "text/plain" \/ ct = U "text/html" ->
              _extract_best_text_and_html_flag codec utf8 html (Leaf h ct cs (PBytes b))
              = None) as Hlone.
    { intros ct Hct. unfold _extract_best_text_and_html_flag, single_part.
      cbn [is_multipart]. cbv zeta.
      cbn [get_content_type get_payload_decoded get_content_charset].
      destruct b as [|x b]; [easy|]. cbn [nonempty]. rewrite Hcodec.
      destruct Hct as [-> | ->]; reflexivity. }
    split; [apply Hlone; now left|]. split; [apply Hlone; now right|].
    intros h' ct' Hh _.
    assert (forall ct, is_attachment (Leaf h ct cs (PBytes b)) = false) as Hdisp.
    { intros ct. unfold is_attachment, get. cbn [headers_of]. now rewrite Hh. }
    split.
    + pose proof (Hdisp (U "text/plain")) as Hatt.
      unfold _extract_best_text_and_html_flag.
      cbn [is_multipart]. fold no_parts. rewrite fold_walk_leaf.
      cbn [walk fold_left]. rewrite is_attachment_disp in Hatt.
      unfold walk_step. cbv zeta. rewrite Hatt.
      cbn [get_content_type get_payload_decoded get_content_charset].
      destruct b as [|x b]; [easy|]. cbn [nonempty negb].
      unfold decode_or_utf8. rewrite Hcodec. reflexivity.
    + pose proof (Hdisp (U "text/html")) as Hatt.
      unfold _extract_best_text_and_html_flag.
      cbn [is_multipart]. fold no_parts. rewrite fold_walk_leaf.
      cbn [walk fold_left]. rewrite is_attachment_disp in Hatt.
      unfold walk_step. cbv zeta. rewrite Hatt.
      cbn [get_content_type get_payload_decoded get_content_charset].
      destruct b as [|x b]; [easy|]. cbn [nonempty negb].
      unfold decode_or_utf8. rewrite Hcodec. reflexivity.
  - intros h ct cs Hct. split.
    + unfold _extract_best_text_and_html_flag, single_part. cbn [is_multipart].
      cbv zeta. cbn [get_content_type get_payload_decoded].
      destruct Hct as [-> | ->]; reflexivity.
    + intros h' ct' _ _. unfold _extract_best_text_and_html_flag.
      cbn [is_multipart]. fold no_parts. rewrite fold_walk_leaf.
      cbn [walk fold_left]. unfold walk_step. cbv zeta.
      cbn [get_payload_decoded]. now destruct (startswith _ _).
Qed.

Lemma lone_part_raises_where_multipart_does_not_witness :
  _extract_best_text_and_html_flag toy_codec toy_utf8 (fun s => s) latin_part = None
  /\ _extract_best_text_and_html_flag toy_codec toy_utf8 (fun s => s)
       (Multipart [] (U "multipart/mixed") [latin_part])
     = Some (Some (U "hi"), false).
Proof.
  destruct (lone_part_raises_where_multipart_does_not toy_codec toy_utf8 (fun s => s))
    as (H & _).
  destruct (H [] (Some (U "latin-9")) hi) as (Hraise & _ & Hmulti);
    [easy|reflexivity|].
  split; [exact Hraise|].
  unfold latin_part. rewrite (proj1 (Hmulti [] _ eq_refl eq_refl)). reflexivity.
Defined.

(** *** The text that wins *)

(** X20: a plain part with a payload wins over an HTML part even when it is
    blank: the body text is then missing although the HTML part has text,
    and the HTML flag is raised. *)
Theorem plain_part_hides_html codec utf8 html h ct hp csp bp hh csh bh :
  is_attachment (Leaf hp (U "text/plain") csp (PBytes bp)) = false ->
  is_attachment (Leaf hh (U "text/html") csh (PBytes bh)) = false ->
  bp <> [] -> bh <> [] ->
  _extract_best_text_and_html_flag codec utf8 html
    (Multipart h ct [ Leaf hp (U "text/plain") csp (PBytes bp);
                      Leaf hh (U "text/html") csh (PBytes bh) ])
  = Some (let text := strip (decode_or_utf8 codec utf8 csp bp) in
          if truthy text then Some text else None, true).
Proof.
  rewrite !is_attachment_disp. intros Hp Hh Hbp Hbh.
  unfold _extract_best_text_and_html_flag. cbn [is_multipart walk flat_map app fold_left].
  assert (forall a, walk_step codec utf8 a
                      (Multipart h ct [Leaf hp (U "text/plain") csp (PBytes bp);
                                       Leaf hh (U "text/html") csh (PBytes bh)]) = a) as ->.
  { intros a. now apply walk_step_container. }
  unfold walk_step at 2. cbv zeta. rewrite Hp.
  cbn [get_content_type get_payload_decoded get_content_charset].
  destruct bp as [|x bp]; [easy|]. cbn [nonempty negb].
  change (str_eqb (lower (U "text/plain")) (U "text/plain")) with true. cbv iota.
  unfold walk_step. cbv zeta. rewrite Hh.
  cbn [get_content_type get_payload_decoded get_content_charset].
  destruct bh as [|y bh]; [easy|]. cbn [nonempty negb].
  change (str_eqb (lower (U "text/html")) (U "text/plain")) with false.
  change (str_eqb (lower (U "text/html")) (U "text/html")) with true. cbv iota.
  cbn [plain_parts html_parts has_html app]. unfold best_text.
  cbn [plain_parts html_parts has_html join_nl]. reflexivity.
Qed.

Lemma plain_part_hides_html_witness :
  _extract_best_text_and_html_flag toy_codec toy_utf8 (fun s => s) blank_plain_and_html
  = Some (None, true).
Proof.
  unfold blank_plain_and_html.
  rewrite plain_part_hides_html by easy. reflexivity.
Defined.

(** *** The item *)

Lemma _to_utc_iso_run local_utcoffset dt :
  _to_utc_iso local_utcoffset (Some dt)
  = if Datetime.in_range (Datetime.instant dt)
    then Datetime.Ok
           (Some (Datetime.isoformat
                    {| Datetime.wall := Datetime.instant dt; Datetime.tzinfo := None |}
                  ++ U "Z"))
    else Datetime.Err Datetime.OverflowError.
Proof.
  unfold _to_utc_iso, Datetime.instant.
  destruct dt as [w [off|]]; cbn [Datetime.wall Datetime.tzinfo default].
  - rewrite astimezone_utc_aware. destruct (Datetime.in_range _); [|reflexivity].
    now rewrite offset_becomes_Z.
  - unfold Datetime.replace_tzinfo, Datetime.UTC. cbn [Datetime.wall].
    rewrite astimezone_utc_aware.
    destruct (Datetime.in_range _); [|reflexivity]. now rewrite offset_becomes_Z.
Qed.

Section Item.
Variable message_from_bytes : bytes -> Message.
Variable rfc2047_decode : str -> option str.
Variable sha256_hexdigest : bytes -> str.
Variable codec_decode : str -> bytes -> option str.
Variable utf8_decode : bytes -> str.
Variable html_get_text : str -> str.
Variable getaddresses : list str -> list (str * str).
Variable get_filename : Message -> option str.
Variable parsedate_to_datetime : str -> option Datetime.datetime.
Variable local_utcoffset : Z -> Z.

Lemma best_text_not_empty a : best_text html_get_text a <> Some [].
Proof.
  unfold best_text.
  destruct (plain_parts a), (html_parts a); try easy;
    match goal with |- context [truthy ?t] => now destruct t end.
Qed.

(** X21: the fields of an item hang together: the key that comes with the
    item is its [messageId]; [bodyText] is never the empty string;
    [snippet] is its first 200 characters and [bodyTextLatest] its latest
    reply, both missing exactly when it is missing; [receivedAt] is the
    moment of the INTERNALDATE in UTC with a [Z]; the fields that the
    short item has are those of the short parser. *)
Theorem item_fields_hang_together raw_bytes internaldate_utc item key :
  ParserRest.parse_email_bytes_to_item message_from_bytes rfc2047_decode
    sha256_hexdigest codec_decode utf8_decode html_get_text getaddresses
    get_filename parsedate_to_datetime local_utcoffset raw_bytes internaldate_utc
  = Some (item, key) ->
  messageId item = key
  /\ bodyText item <> Some []
  /\ snippet item = firstn 200 <$> bodyText item
  /\ bodyTextLatest item
     = (fun b => Utils.extract_latest_reply_text (Some b)) <$> bodyText item
  /\ receivedAt item
     = Datetime.isoformat
         {| Datetime.wall := Datetime.instant internaldate_utc;
            Datetime.tzinfo := None |} ++ U "Z"
  /\ Parser.parse_email_bytes_to_item message_from_bytes rfc2047_decode
       sha256_hexdigest codec_decode utf8_decode html_get_text raw_bytes
     = Some (short_item item, key).
Proof.
  unfold ParserRest.parse_email_bytes_to_item, Parser.parse_email_bytes_to_item.
  cbv zeta.
  destruct (_extract_best_text_and_html_flag _ _ _ _) as [[body flag]|] eqn:He;
    [|discriminate].
  assert (body <> Some []) as Hbody.
  { unfold _extract_best_text_and_html_flag in He.
    destruct (if is_multipart _ then _ else _) as [a|]; [|discriminate].
    injection He as <- _. apply best_text_not_empty. }
  rewrite _to_utc_iso_run.
  destruct (match _ with Some d => _ | None => _ end) as [date|]; [|discriminate].
  destruct (Datetime.in_range _); [|discriminate].
  intros [= <- <-]. cbn [messageId bodyText snippet bodyTextLatest receivedAt].
  repeat split; try easy.
  - destruct body as [[|c b]|]; easy.
  - destruct body as [[|c b]|]; easy.
Qed.

(** X22: a date header that is read as a moment whose UTC fields leave the
    range of [datetime] makes the parser raise, whatever else the message
    holds. *)
Theorem date_out_of_range_raises raw_bytes internaldate_utc hdr d :
  get (message_from_bytes raw_bytes) (U "Date") = Some hdr -> hdr <> [] ->
  parsedate_to_datetime hdr = Some d ->
  Datetime.in_range (Datetime.instant d) = false ->
  ParserRest.parse_email_bytes_to_item message_from_bytes rfc2047_decode
    sha256_hexdigest codec_decode utf8_decode html_get_text getaddresses
    get_filename parsedate_to_datetime local_utcoffset raw_bytes internaldate_utc
  = None.
Proof.
  intros Hget Hne Hd Hrange. unfold ParserRest.parse_email_bytes_to_item. cbv zeta.
  destruct (_extract_best_text_and_html_flag _ _ _ _) as [[body flag]|];
    [|reflexivity].
  rewrite Hget. destruct hdr as [|c hdr]; [easy|]. cbn [truthy]. rewrite Hd.
  rewrite (_to_utc_iso_run local_utcoffset d), Hrange. reflexivity.
Qed.

End Item.

Lemma item_fields_hang_together_witness :
  exists item key,
    parse_dated_note first_moment first_moment = Some (item, key)
    /\ messageId item = key
    /\ bodyText item <> Some []
    /\ snippet item = firstn 200 <$> bodyText item
    /\ receivedAt item = U "0001-01-01T00:00:00Z".
Proof.
  assert (exists p, parse_dated_note first_moment first_moment = Some p)
    as [[item key] Hrun] by (vm_compute; eexists; reflexivity).
  exists item, key. split; [exact Hrun|].
  destruct (item_fields_hang_together _ _ _ _ _ _ _ _ _ _ _ _ _ _ Hrun)
    as (H1 & H2 & H3 & _ & H5 & _).
  split; [exact H1|]. split; [exact H2|]. split; [exact H3|].
  rewrite H5. vm_compute. reflexivity.
Defined.

Lemma date_out_of_range_raises_witness :
  parse_dated_note last_second first_moment = None.
Proof.
  apply (date_out_of_range_raises _ _ _ _ _ _ _ _ _ _ _ _
           (U "Fri, 31 Dec 9999 23:59:59 -0100") last_second); reflexivity || easy.
Defined.

End ParserLaws.

(** ** The handler *)

Module MainLaws.
Import Py Datetime UtilsDates DateSpec Imap Main MainSpec.
Import PyFacts StateFacts DateLaws ParserLaws StoreLaws.

Local Open Scope Z_scope.

(** *** Kinds of objects *)

Lemma le_aware a b x : le a b = Ok x -> aware a = aware b.
Proof. unfold le, aware. now destruct (tzinfo a), (tzinfo b). Qed.

Lemma gt_of_same_kind a b : aware a = aware b -> gt a b = Ok (instant b <? instant a).
Proof. unfold gt, aware. now destruct (tzinfo a), (tzinfo b). Qed.

(** *** Opening the store *)

Lemma init_known T w out w1 :
  State.__init__ T w = (out, w1) ->
  out <> State.Spin /\ known w1 = known w
  /\ match out with
     | State.Ret st =>
         State.state_file w1 = Some (State.Whole (State._data st))
         /\ State.get_seen (State._data st) = known w
     | _ => True
     end.
Proof.
  unfold State.__init__. unfold State.bind at 1, State.get_state at 1.
  destruct (State.state_file w) as [f|] eqn:Hf.
  - unfold State.bind at 1, State.ret at 1. unfold State.bind.
    destruct (State.read_state_file w) as [[d|e|] w2] eqn:Hr;
      pose proof (read_state_file_spec _ _ _ Hr) as (H1 & _ & _ & _ & H4);
      intros [= <- <-]; [|now unfold known; rewrite H1|easy].
    split; [easy|]. unfold known. rewrite H1, H4. cbn [State._data]. easy.
  - unfold State.bind at 1.
    destruct ((State.bind _ _) w) as [[[]|e|] w2] eqn:Hw.
    + pose proof (write_steps_spec _ _ _ _ Hw) as (_ & _ & Hs & _).
      unfold State.bind.
      destruct (State.read_state_file w2) as [[d|e|] w3] eqn:Hr;
        pose proof (read_state_file_spec _ _ _ Hr) as (H1 & _ & _ & _ & H4);
        intros [= <- <-]; [| |easy].
      * split; [easy|]. unfold known. rewrite H1, Hf, H4. cbn [State._data].
        rewrite Hs in H4. injection H4 as <-. easy.
      * split; [easy|]. unfold known. now rewrite H1, Hf, Hs.
    + pose proof (write_steps_spec _ _ _ _ Hw) as (_ & _ & _ & Hs).
      intros [= <- <-]. split; [easy|]. unfold known. now rewrite Hs.
    + now pose proof (write_steps_spec _ _ _ _ Hw) as (_ & _ & Hs).
Qed.

(** *** Recording the keys *)

Lemma add_many_known keys st w out m :
  State.state_file w = Some (State.Whole (State._data st)) ->
  State.add_many keys {| State.self := st; State.env := w |} = (out, m) ->
  out <> State.Spin
  /\ match out with
     | State.Ret _ =>
         (forall k, k ∈ known w -> k ∈ known (State.env m))
         /\ (forall k, In k keys -> k <> [] -> k ∈ known (State.env m))
         /\ (forall k, k ∈ known (State.env m) ->
               k ∈ known w \/ (In k keys /\ k <> []))
     | _ => known (State.env m) = known w
     end.
Proof.
  intros Hfile Hrun.
  pose proof (add_many_spec _ _ _ _ Hrun) as (_ & Hspin & _ & Hnil & _ & Ho).
  cbv zeta in *. cbn [State.env State.self] in *. split; [exact Hspin|].
  destruct out as [[]|e|]; [|destruct Ho as [_ Ho]; unfold known; now rewrite Ho|easy].
  destruct Ho as [Hks|[d [Hd [(_ & Hsf & _ & Hall)|(Hsf & _)]]]].
  - destruct (Hnil Hks) as [_ ->]. cbn [State.env]. split; [easy|]. split; [|now left].
    intros k Hin Hne. exfalso.
    assert (In k (List.filter truthy keys)) as Hk by now apply filter_truthy_elem.
    rewrite Hks in Hk. destruct Hk.
  - unfold known. rewrite Hsf, Hd. split; [easy|]. split; [|now left].
    intros k Hin Hne. now apply Hall, filter_truthy_elem.
  - unfold known. rewrite Hsf, Hd. split; [|split].
    + intros k Hk. apply get_seen_merged_elem. now left.
    + intros k Hin Hne. apply get_seen_merged_elem. right.
      now apply filter_truthy_elem.
    + intros k Hk. apply get_seen_merged_elem in Hk as [Hk|Hk]; [now left|right].
      now apply filter_truthy_elem.
Qed.

Section Service.

Variable message_from_bytes : bytes -> Parser.Message.
Variable rfc2047_decode : str -> option str.
Variable sha256_hexdigest : bytes -> str.
Variable codec_decode : str -> bytes -> option str.
Variable utf8_decode : bytes -> str.
Variable html_get_text : str -> str.
Variable getaddresses : list str -> list (str * str).
Variable get_filename : Parser.Message -> option str.
Variable parsedate_to_datetime : str -> option datetime.
Variable local_utcoffset : Z -> Z.
Variable fromisoformat : str -> res datetime.
Variable astimezone_local : datetime -> res datetime.
Variable response_is_built :
  option str -> nat -> list ParserRest.EmailItem -> bool.

Local Abbreviation parse :=
  (Main.parse_email_bytes_to_item message_from_bytes rfc2047_decode
     sha256_hexdigest codec_decode utf8_decode html_get_text getaddresses
     get_filename parsedate_to_datetime local_utcoffset).
Local Abbreviation run_select :=
  (Main.select message_from_bytes rfc2047_decode sha256_hexdigest codec_decode
     utf8_decode html_get_text getaddresses get_filename parsedate_to_datetime
     local_utcoffset fromisoformat astimezone_local).
Local Abbreviation handler :=
  (Main.fetch_emails message_from_bytes rfc2047_decode sha256_hexdigest codec_decode
     utf8_decode html_get_text getaddresses get_filename parsedate_to_datetime
     local_utcoffset fromisoformat astimezone_local response_is_built).

(** *** What the parser hands to the loop *)

Lemma parse_key raw t item key :
  parse raw t = Some (item, key) ->
  ParserRest.messageId item = key /\ ParserRest.receivedAt item <> [].
Proof.
  unfold Main.parse_email_bytes_to_item, ParserRest.parse_email_bytes_to_item.
  cbv zeta.
  destruct (Parser._extract_best_text_and_html_flag _ _ _ _) as [[body flag]|];
    [|discriminate].
  rewrite _to_utc_iso_run.
  destruct (match _ with Some d => _ | None => _ end) as [date|]; [|discriminate].
  destruct (in_range _); [|discriminate].
  intros [= <- <-]. cbn [ParserRest.messageId ParserRest.receivedAt].
  split; [reflexivity|]. intros H. apply app_eq_nil in H as [_ H]. discriminate H.
Qed.

Lemma in_window_true req item :
  in_window fromisoformat req item = Ok true ->
  exists t, parsed fromisoformat (ParserRest.receivedAt item) = Ok t
    /\ le (since req) t = Ok true /\ le t (until req) = Ok true.
Proof.
  unfold in_window, receivedAt_dt. fold (parsed fromisoformat (ParserRest.receivedAt item)).
  destruct (parsed _ _) as [t|]; [|discriminate].
  destruct (le (since req) t) as [[|]|] eqn:H1; try discriminate.
  intros H2. now exists t.
Qed.

(** *** The loop over the msgs messages *)

Lemma select_spec req st w : forall msgs items keys items' keys',
  run_select req st w msgs items keys = Ok (items', keys') ->
  exists new,
    items' = items ++ new /\ keys' = keys ++ map ParserRest.messageId new
    /\ Forall (fun item =>
         (ParserRest.messageId item ∉ State.get_seen (State._data st))
         /\ ParserRest.receivedAt item <> []
         /\ in_window fromisoformat req item = Ok true) new.
Proof.
  induction msgs as [|[[uid raw] t] rest IH]; intros items keys items' keys';
    cbn [Main.select].
  - intros [= <- <-]. exists []. now rewrite !app_nil_r.
  - destruct (parse raw t) as [[item key]|] eqn:Hp; [|apply IH].
    destruct (seen_by st w key) eqn:Hseen; [apply IH|].
    destruct (in_window _ req item) as [[|]|] eqn:Hw;
      [|destruct (since_iso _ _); [destruct (until_iso _ _)|]; try discriminate; apply IH
       |discriminate].
    intros H. apply IH in H as (new & -> & -> & Hall).
    apply parse_key in Hp as [<- Hrec].
    exists (item :: new). rewrite <- !app_assoc. repeat split; try easy.
    constructor; [|exact Hall]. repeat split; try easy.
    unfold seen_by, State.is_seen, State.bind, State.get_state, State.ret in Hseen.
    cbn [fst State.self] in Hseen. now apply bool_decide_eq_false_1 in Hseen.
Qed.

Lemma select_from req st w : forall msgs items keys,
  run_select req st w msgs items keys
  = match run_select req st w msgs [] [] with
    | Ok (new_items, new_keys) => Ok (items ++ new_items, keys ++ new_keys)
    | Err e => Err e
    end.
Proof.
  induction msgs as [|[[uid raw] t] rest IH]; intros items keys; cbn [Main.select].
  - now rewrite !app_nil_r.
  - destruct (parse raw t) as [[item key]|]; [|apply IH].
    destruct (seen_by st w key); [apply IH|].
    destruct (in_window _ req item) as [[|]|];
      [|destruct (since_iso _ _); [destruct (until_iso _ _)|]; try reflexivity; apply IH
       |reflexivity].
    rewrite (IH (items ++ [item])), (IH ([] ++ [item]) ([] ++ [key])).
    destruct (Main.select _ _ _ _ _ _ _ _ _ _ _ _ _ _ _ _ _ _) as [[ni nk]|e];
      [|reflexivity].
    cbn [app]. now rewrite <- ?app_assoc.
Qed.

(** X24: the messages of one batch are not compared with each other: what
    the loop picks from two batches in a row is what it picks from the
    first followed by what it picks from the second, so a message that
    comes twice in a batch is delivered twice. *)
Theorem batch_is_not_deduplicated req st w msgs1 msgs2 items1 keys1 items2 keys2 :
  let select_new msgs :=
    (Main.select message_from_bytes rfc2047_decode sha256_hexdigest codec_decode
     utf8_decode html_get_text getaddresses get_filename parsedate_to_datetime
     local_utcoffset fromisoformat astimezone_local) req st w msgs [] [] in
  select_new msgs1 = Ok (items1, keys1) ->
  select_new msgs2 = Ok (items2, keys2) ->
  select_new (msgs1 ++ msgs2) = Ok (items1 ++ items2, keys1 ++ keys2).
Proof.
  cbv zeta. revert items1 keys1. induction msgs1 as [|[[uid raw] t] rest IH];
    intros items1 keys1; cbn [Main.select app].
  - intros [= <- <-] H2. exact H2.
  - destruct (parse raw t) as [[item key]|]; [|apply IH].
    destruct (seen_by st w key); [apply IH|].
    destruct (in_window _ req item) as [[|]|];
      [|destruct (since_iso _ _); [destruct (until_iso _ _)|]; try discriminate; apply IH
       |discriminate].
    rewrite (select_from req st w rest), (select_from req st w (rest ++ msgs2)).
    destruct (Main.select _ _ _ _ _ _ _ _ _ _ _ _ _ _ _ rest _ _) as [[ni nk]|e] eqn:H1;
      [|discriminate].
    intros [= <- <-] H2. rewrite (IH ni nk eq_refl H2).
    cbn [app]. now rewrite <- ?app_assoc.
Qed.

(** *** The most recent moment *)

Lemma max_iso_loop_ok k : forall values mx mx_dt,
  (forall m, mx_dt = Some m -> aware m = k) ->
  (forall v, In (Some v) values -> v <> [] ->
     exists t, parsed fromisoformat v = Ok t /\ aware t = k) ->
  exists r, max_iso_loop fromisoformat values mx mx_dt = Ok r.
Proof.
  induction values as [|[v|] rest IH]; intros mx mx_dt Hm Hall; cbn [max_iso_loop].
  - now exists mx.
  - destruct v as [|c v]; cbn [truthy negb].
    { apply IH; [exact Hm|]. intros u Hu. apply Hall. now right. }
    destruct (Hall (c :: v)) as (t & Ht & Hk); [now left|easy|].
    unfold parsed in Ht. rewrite Ht.
    assert (forall u, In (Some u) rest -> u <> [] ->
              exists t, parsed fromisoformat u = Ok t /\ aware t = k) as Hrest.
    { intros u Hu. apply Hall. now right. }
    destruct mx_dt as [m|].
    + rewrite gt_of_same_kind by (rewrite Hk; symmetry; now apply Hm).
      destruct (_ <? _); apply IH; try easy. now intros ? [= <-].
    + apply IH; [|exact Hrest]. now intros ? [= <-].
  - apply IH; [exact Hm|]. intros u Hu. apply Hall. now right.
Qed.

(** *** The handler *)

(** What a request that is answered went through. *)
Lemma answered settings connect req w mr n items w' :
  handler settings connect req w = (JSONResponse mr n items, w') ->
  exists st w1 keys m,
    State.__init__ 10 w = (State.Ret st, w1)
    /\ (exists msgs, run_select req st w1 msgs [] [] = Ok (items, keys))
    /\ State.add_many keys {| State.self := st; State.env := w1 |} = (State.Ret tt, m)
    /\ w' = State.env m
    /\ max_iso fromisoformat (map (fun i => Some (ParserRest.receivedAt i)) items) = Ok mr
    /\ n = length items.
Proof.
  unfold Main.fetch_emails.
  destruct settings as [settings|]; [|discriminate].
  destruct (gt _ _) as [[|]|]; try discriminate.
  destruct (State.__init__ 10 w) as [[st|e|] w1]; try discriminate.
  destruct (since_iso _ _); [|discriminate].
  destruct (until_iso _ _); [|discriminate].
  destruct (connect settings) as [client|e]; [|discriminate].
  destruct (search_uids_in_date_window _ _ _ _) as [uids|e]; [|discriminate].
  destruct (fetch_rfc822_and_internaldate _ _ _) as [msgs|e]; [|discriminate].
  destruct (Main.select _ _ _ _ _ _ _ _ _ _ _ _ _ _ _ _ _ _) as [[its keys]|e] eqn:Hsel;
    [|discriminate].
  destruct (State.add_many _ _) as [[[]|e|] m] eqn:Hadd; try discriminate.
  destruct (max_iso _ _) as [most|e] eqn:Hmax; [|discriminate].
  destruct (response_is_built _ _ _); [|discriminate].
  intros [= <- <- <- <-].
  exists st, w1, keys, m. repeat split; try easy. now exists msgs.
Qed.

(** X23: the handler always comes to an end.  When the settings do not
    load, their exception leaves it.  Else it answers 400 exactly when
    [since] is later than [until], an exception leaves it exactly when one
    of the two ends is naive and the other aware, and the other refusals
    are 500 and 502.  In all these cases but the last it has touched
    nothing. *)
Theorem handler_replies settings connect req w :
  let r := (handler settings connect req w).1 in
  r <> Hangs
  /\ (r = SettingsError <-> settings = None)
  /\ (r = HTTPException 400 <->
        settings <> None /\ gt (since req) (until req) = Ok true)
  /\ (forall e, r = Unhandled e <->
        settings <> None /\ e = TypeError /\ aware (since req) <> aware (until req))
  /\ (forall c, r = HTTPException c -> c = 400 \/ c = 500 \/ c = 502)
  /\ (r = SettingsError \/ r = HTTPException 400 \/ (exists e, r = Unhandled e) ->
        (handler settings connect req w).2 = w).
Proof.
  cbv zeta. unfold Main.fetch_emails.
  destruct settings as [settings|].
  2:{ cbn [fst snd]. split; [easy|]. split; [easy|]. split; [easy|].
      split; [easy|]. split; [easy|]. reflexivity. }
  assert (forall e, gt (since req) (until req) = Err e <->
            e = TypeError /\ aware (since req) <> aware (until req)) as Hkind.
  { intros e. unfold gt, aware.
    destruct (tzinfo (since req)), (tzinfo (until req)); split;
      try discriminate; try (intros [= <-]; easy); try (intros [_ H]; easy);
      intros [-> _]; reflexivity. }
  destruct (gt (since req) (until req)) as [[|]|e0] eqn:Hgt.
  - cbn [fst snd]. split; [easy|]. split; [easy|]. split; [easy|]. split; [|split].
    + intros e. split; [discriminate|]. intros [_ H]. apply Hkind in H. discriminate H.
    + intros c [= <-]. now left.
    + reflexivity.
  - assert (forall x : reply * State.world,
              (x.1 = Hangs -> False) ->
              (forall c, x.1 = HTTPException c -> c = 500 \/ c = 502) ->
              (forall e, x.1 <> Unhandled e) ->
              x.1 <> SettingsError ->
              x.1 <> Hangs
              /\ (x.1 = SettingsError <-> Some settings = None)
              /\ (x.1 = HTTPException 400 <->
                    Some settings <> None /\ Ok false = Ok true)
              /\ (forall e, x.1 = Unhandled e <->
                    Some settings <> None
                    /\ e = TypeError /\ aware (since req) <> aware (until req))
              /\ (forall c, x.1 = HTTPException c -> c = 400 \/ c = 500 \/ c = 502)
              /\ (x.1 = SettingsError \/ x.1 = HTTPException 400
                  \/ (exists e, x.1 = Unhandled e) -> x.2 = w))
      as Hwrap.
    { intros x H1 H2 H3 H4. split; [exact H1|]. split; [easy|].
      split; [|split; [|split]].
      - split; [|now intros [_ H]]. intros H. apply H2 in H. lia.
      - intros e. split.
        + intros H. now apply H3 in H.
        + intros [_ H]. apply Hkind in H. discriminate H.
      - intros c H. apply H2 in H. lia.
      - intros [H|[H|[e H]]]; [easy| |now apply H3 in H]. apply H2 in H. lia. }
    assert (forall e, status_of e = 500 \/ status_of e = 502) as Hst
      by (intros []; cbn; auto).
    destruct (State.__init__ 10 w) as [[st|e|] w1] eqn:Hinit.
    + destruct (since_iso _ _);
        [|apply Hwrap; cbn [fst]; [easy|intros c [= <-]; now left|easy|easy]].
      destruct (until_iso _ _);
        [|apply Hwrap; cbn [fst]; [easy|intros c [= <-]; now left|easy|easy]].
      destruct (connect settings) as [client|e];
        [|apply Hwrap; cbn [fst]; [easy|intros c [= <-]; apply Hst|easy|easy]].
      destruct (search_uids_in_date_window _ _ _ _) as [uids|e];
        [|apply Hwrap; cbn [fst]; [easy|intros c [= <-]; apply Hst|easy|easy]].
      destruct (fetch_rfc822_and_internaldate _ _ _) as [msgs|e];
        [|apply Hwrap; cbn [fst]; [easy|intros c [= <-]; apply Hst|easy|easy]].
      destruct (Main.select _ _ _ _ _ _ _ _ _ _ _ _ _ _ _ _ _ _) as [[its keys]|e];
        [|apply Hwrap; cbn [fst]; [easy|intros c [= <-]; now left|easy|easy]].
      destruct (State.add_many _ _) as [[[]|e|] m] eqn:Hadd.
      * destruct (max_iso _ _) as [most|e];
          [destruct (response_is_built _ _ _)|];
          apply Hwrap; cbn [fst]; try easy; intros c [= <-]; now left.
      * apply Hwrap; cbn [fst]; try easy. intros c [= <-]. now left.
      * exfalso. pose proof (add_many_spec _ _ _ _ Hadd) as (_ & Hspin & _). easy.
    + apply Hwrap; cbn [fst]; try easy. intros c [= <-]. now left.
    + exfalso. now apply init_known in Hinit as [Hspin _].
  - cbn [fst snd]. split; [easy|]. split; [easy|]. split; [easy|]. split; [|easy].
    intros e. split.
    + intros [= ->]. split; [easy|]. now apply Hkind.
    + intros [_ H]. apply Hkind in H. now injection H as ->.
Qed.

(** X25: a request that is answered has recorded what it delivers: every
    item was unknown to the state file when the request came and lies in
    the window, the count is the number of items, the state file holds
    the keys it held and the non-empty key of every item, and the most
    recent moment is missing exactly when there is no item. *)
Theorem answered_means_recorded settings connect req w mr n items w' :
  handler settings connect req w = (JSONResponse mr n items, w') ->
  n = length items
  /\ (mr = None <-> items = [])
  /\ (forall item, In item items ->
        (ParserRest.messageId item ∉ known w)
        /\ (exists t, parsed fromisoformat (ParserRest.receivedAt item) = Ok t
              /\ le (since req) t = Ok true /\ le t (until req) = Ok true)
        /\ (ParserRest.messageId item <> [] -> ParserRest.messageId item ∈ known w'))
  /\ (forall k, k ∈ known w -> k ∈ known w').
Proof.
  intros Hrun.
  apply answered in Hrun as (st & w1 & keys & m & Hinit & [msgs Hsel] & Hadd
                             & -> & Hmax & ->).
  apply init_known in Hinit as (_ & Hk1 & Hfile & Hseen).
  apply select_spec in Hsel as (new & Hit & -> & Hall). cbn [app] in Hit. subst new.
  apply (add_many_known _ _ _ _ _ Hfile) in Hadd as (_ & Hold & Hnew & _).
  cbn [app] in Hnew. rewrite Forall_forall in Hall.
  split; [reflexivity|]. split; [|split].
  - split.
    + intros ->. destruct items as [|item items]; [reflexivity|]. exfalso.
      pose proof (max_iso_loop_spec fromisoformat
                    (map (fun i => Some (ParserRest.receivedAt i)) (item :: items))
                    [] None None) as Hspec.
      unfold max_iso in Hmax. unfold str, char in *. rewrite Hmax in Hspec.
      cbn [app] in Hspec.
      destruct (Hall item) as (_ & Hrec & _); [apply list_elem_of_In; now left|].
      apply Hrec, Hspec; [|easy|now left].
      intros _. split; [reflexivity|]. intros u [].
    + intros ->. cbn in Hmax. now injection Hmax as <-.
  - intros item Hin.
    destruct (Hall item) as (Hunseen & _ & Hwin); [now apply list_elem_of_In|].
    split; [now rewrite <- Hseen|]. split; [now apply in_window_true|].
    intros Hne. apply Hnew; [|exact Hne]. now apply in_map.
  - intros k Hk. apply Hold. now rewrite Hk1.
Qed.

(** X26: a request that is refused has recorded nothing, with one
    exception: when the keys are stored and the response then cannot be
    built, the answer is 500 and the keys of the items that were to be
    delivered stay recorded.  A 400, a 502 and an exception that leaves
    the handler record nothing. *)
Theorem refused_records_only_when_response_fails settings connect req w r w' :
  handler settings connect req w = (r, w') ->
  (forall mr n items, r <> JSONResponse mr n items) ->
  known w' = known w
  \/ (r = HTTPException 500
      /\ exists mr items,
           response_is_built mr (length items) items = false
           /\ (forall k, k ∈ known w -> k ∈ known w')
           /\ (forall item, In item items -> ParserRest.messageId item <> [] ->
                 ParserRest.messageId item ∈ known w')
           /\ (forall k, k ∈ known w' ->
                 k ∈ known w
                 \/ exists item, In item items /\ ParserRest.messageId item = k)).
Proof.
  unfold Main.fetch_emails.
  destruct settings as [settings|]; [|intros [= <- <-]; now left].
  destruct (gt _ _) as [[|]|]; try (intros [= <- <-]; now left).
  destruct (State.__init__ 10 w) as [[st|e|] w1] eqn:Hinit;
    apply init_known in Hinit as (_ & Hk1 & Hfile);
    try (intros [= <- <-]; intros _; left; exact Hk1).
  destruct Hfile as [Hfile Hseen].
  destruct (since_iso _ _); [|intros [= <- <-]; intros _; left; exact Hk1].
  destruct (until_iso _ _); [|intros [= <- <-]; intros _; left; exact Hk1].
  destruct (connect settings) as [client|e];
    [|intros [= <- <-]; intros _; left; exact Hk1].
  destruct (search_uids_in_date_window _ _ _ _) as [uids|e];
    [|intros [= <- <-]; intros _; left; exact Hk1].
  destruct (fetch_rfc822_and_internaldate _ _ _) as [msgs|e];
    [|intros [= <- <-]; intros _; left; exact Hk1].
  destruct (Main.select _ _ _ _ _ _ _ _ _ _ _ _ _ _ _ _ _ _) as [[its keys]|e] eqn:Hsel;
    [|intros [= <- <-]; intros _; left; exact Hk1].
  destruct (State.add_many _ _) as [[[]|e|] m] eqn:Hadd;
    apply (add_many_known _ _ _ _ _ Hfile) in Hadd as (Hspin & Hadd);
    try (intros [= <- <-]; intros _; left; now rewrite Hadd).
  (* the keys are recorded *)
  destruct Hadd as (Hold & Hnew & Honly).
  apply select_spec in Hsel as (new & Hit & Hkeys & Hall). cbn [app] in Hit, Hkeys.
  subst new keys.
  destruct (max_iso_loop_ok (aware (since req))
              (map (fun i => Some (ParserRest.receivedAt i)) its) None None)
    as [most Hmost]; [easy| |].
  { intros v Hv Hne. apply in_map_iff in Hv as (item & [= <-] & Hin).
    rewrite Forall_forall in Hall.
    destruct (Hall item) as (_ & _ & Hwin); [now apply list_elem_of_In|].
    apply in_window_true in Hwin as (t & Ht & Hle & _).
    exists t. split; [exact Ht|]. symmetry. exact (le_aware _ _ _ Hle). }
  unfold max_iso. rewrite Hmost.
  destruct (response_is_built most (length its) its) eqn:Hbuilt.
  { intros [= <- <-] Hno. now destruct (Hno most (length its) its). }
  intros [= <- <-] _. right. split; [reflexivity|].
  exists most, its. split; [exact Hbuilt|]. split; [|split].
  - intros k Hk. apply Hold. now rewrite Hk1.
  - intros item Hin Hne. apply Hnew; [|exact Hne]. now apply in_map.
  - intros k Hk. apply Honly in Hk as [Hk|[Hk _]]; [left; now rewrite <- Hk1|right].
    apply in_map_iff in Hk as (item & <- & Hin). now exists item.
Qed.

(** X27: what one answered request has delivered, a later request does not
    deliver again: no item of the second answer has the non-empty key of
    an item of the first. *)
Theorem delivered_once settings1 settings2 connect1 connect2 req1 req2 w
    mr1 n1 items1 w1 mr2 n2 items2 w2 :
  let fetch_emails :=
    (Main.fetch_emails message_from_bytes rfc2047_decode sha256_hexdigest codec_decode
     utf8_decode html_get_text getaddresses get_filename parsedate_to_datetime
     local_utcoffset fromisoformat astimezone_local response_is_built) in
  fetch_emails settings1 connect1 req1 w = (JSONResponse mr1 n1 items1, w1) ->
  fetch_emails settings2 connect2 req2 w1 = (JSONResponse mr2 n2 items2, w2) ->
  forall item1 item2, In item1 items1 -> In item2 items2 ->
    ParserRest.messageId item1 <> [] ->
    ParserRest.messageId item2 <> ParserRest.messageId item1.
Proof.
  cbv zeta. intros Hrun1 Hrun2 item1 item2 Hin1 Hin2 Hne Heq.
  apply answered in Hrun1 as (st & wa & keys & m & Hinit & [msgs Hsel] & Hadd
                              & -> & _).
  apply init_known in Hinit as (_ & _ & Hfile & _).
  apply select_spec in Hsel as (new & Hit & -> & _). cbn [app] in Hit. subst new.
  apply (add_many_known _ _ _ _ _ Hfile) in Hadd as (_ & _ & Hnew & _).
  apply answered in Hrun2 as (st2 & wb & keys2 & m2 & Hinit2 & [msgs2 Hsel2] & _).
  apply init_known in Hinit2 as (_ & _ & _ & Hseen2).
  apply select_spec in Hsel2 as (new & Hit & _ & Hall). cbn [app] in Hit. subst new.
  rewrite Forall_forall in Hall.
  destruct (Hall item2) as (Hunseen & _); [now apply list_elem_of_In|].
  apply Hunseen. rewrite Hseen2, Heq. apply Hnew; [|exact Hne]. now apply in_map.
Qed.

End Service.

Lemma batch_is_not_deduplicated_witness :
  exists item key,
    pick any_time blank_store StateSpec.fresh_world one_fetched = Ok ([item], [key])
    /\ pick any_time blank_store StateSpec.fresh_world (one_fetched ++ one_fetched)
       = Ok ([item] ++ [item], [key] ++ [key]).
Proof.
  assert (exists item key,
            pick any_time blank_store StateSpec.fresh_world one_fetched
            = Ok ([item], [key])) as (item & key & Hrun)
    by (vm_compute; repeat eexists).
  exists item, key. split; [exact Hrun|].
  exact (batch_is_not_deduplicated _ _ _ _ _ _ _ _ _ _ _ _ _ _ _ _ _ _ _ _ _ Hrun Hrun).
Defined.

Lemma answered_means_recorded_witness :
  exists mr n items,
    serve (Return ImapSpec.small_server) any_time StateSpec.fresh_world
    = (JSONResponse mr n items, after_first_fetch)
    /\ n = length items /\ (mr = None <-> items = [])
    /\ forall k, k ∈ known StateSpec.fresh_world -> k ∈ known after_first_fetch.
Proof.
  assert (exists mr n items,
            serve (Return ImapSpec.small_server) any_time StateSpec.fresh_world
            = (JSONResponse mr n items, after_first_fetch))
    as (mr & n & items & Hrun) by (vm_compute; repeat eexists).
  exists mr, n, items. split; [exact Hrun|].
  destruct (answered_means_recorded _ _ _ _ _ _ _ _ _ _ _ _ _ _ _ _ _ _ _ _ _ Hrun)
    as (H1 & H2 & _ & H4).
  split; [exact H1|]. split; [exact H2|exact H4].
Defined.

Lemma refused_records_only_when_response_fails_witness :
  (serve (Raise IMAPClientError) any_time StateSpec.fresh_world).1 = HTTPException 502
  /\ known (serve (Raise IMAPClientError) any_time StateSpec.fresh_world).2
     = known StateSpec.fresh_world
  /\ (serve_unbuilt (Return ImapSpec.small_server) any_time StateSpec.fresh_world).1
     = HTTPException 500
  /\ known (serve_unbuilt (Return ImapSpec.small_server) any_time
              StateSpec.fresh_world).2
     = [U "<1@x>"].
Proof.
  assert (exists w',
            serve (Raise IMAPClientError) any_time StateSpec.fresh_world
            = (HTTPException 502, w')) as [w1 Hrun1] by (vm_compute; eexists; reflexivity).
  assert (exists w',
            serve_unbuilt (Return ImapSpec.small_server) any_time StateSpec.fresh_world
            = (HTTPException 500, w') /\ known w' = [U "<1@x>"])
    as (w2 & Hrun2 & Hk2) by (vm_compute; eexists; split; reflexivity).
  rewrite Hrun1, Hrun2. cbn [fst snd].
  split; [reflexivity|]. split; [|split; [reflexivity|exact Hk2]].
  destruct (refused_records_only_when_response_fails
              _ _ _ _ _ _ _ _ _ _ _ _ _ _ _ _ _ _ _ Hrun1) as [Hsame|[Hno _]].
  - intros mr n items H. discriminate H.
  - exact Hsame.
  - discriminate Hno.
Defined.

Lemma delivered_once_witness :
  exists mr1 n1 items1 mr2 n2 items2 w2,
    serve (Return ImapSpec.small_server) any_time StateSpec.fresh_world
    = (JSONResponse mr1 n1 items1, after_first_fetch)
    /\ n1 = 1%nat
    /\ serve (Return ImapSpec.small_server) any_time after_first_fetch
       = (JSONResponse mr2 n2 items2, w2)
    /\ forall item1 item2, In item1 items1 -> In item2 items2 ->
         ParserRest.messageId item1 <> [] ->
         ParserRest.messageId item2 <> ParserRest.messageId item1.
Proof.
  assert (exists mr n items,
            serve (Return ImapSpec.small_server) any_time StateSpec.fresh_world
            = (JSONResponse mr n items, after_first_fetch) /\ n = 1%nat)
    as (mr1 & n1 & items1 & Hrun1 & Hn) by (vm_compute; repeat eexists).
  assert (exists mr2 n2 items2 w2,
            serve (Return ImapSpec.small_server) any_time after_first_fetch
            = (JSONResponse mr2 n2 items2, w2))
    as (mr2 & n2 & items2 & w2 & Hrun2) by (vm_compute; repeat eexists).
  exists mr1, n1, items1, mr2, n2, items2, w2.
  split; [exact Hrun1|]. split; [exact Hn|]. split; [exact Hrun2|].
  exact (delivered_once _ _ _ _ _ _ _ _ _ _ _ _ _ _ _ _ _ _ _ _ _ _ _ _ _ _ _ _ Hrun1 Hrun2).
Defined.

End MainLaws.
